(** * LightCPVerifier: the submission lifecycle engine, embedded and verified

    A shallow embedding of the JavaScript sources of LightCPVerifier
    ([src/utils.js], [src/problem_manager.js], [src/judge_engine.js]) and the
    properties its specification states about them.

    Conventions of the embedding.
    - JavaScript values are the inductive [jsval]; a number is [NaN] or an
      integer ([number]).  Fractional doubles and the infinities are outside
      the value model; integer arithmetic is exact, as it is on doubles below
      2^53.
    - A string is a sequence of 8-bit characters; white space is the ASCII
      white space and the capitals are A to Z.  A statement that depends on
      either is made for ASCII text ([ascii_only]).
    - The file system is a finite map from paths to contents plus a set of
      directories.  A write succeeds whenever its data is a string:
      permissions, missing parents and full disks are not modelled.  Where
      the program itself can remove the directory a write goes to (a reset
      while a job waits), the statement names the directory as a premise.
    - Asynchronous code lives in the monad [M]: state, exceptions, and the
      list of worlds at which the running task was suspended in an [await].
    - The unit strings are evaluated in exact decimal arithmetic, which is
      the arithmetic of the program wherever the double product is exact.
    - The sources hold two revisions of the problem loader: the one the
      engine is written against ([ProblemConfig], with interactive problems)
      and the one of [src/problem_manager.js] ([ProblemConfigOld]).

    - What the host decides is a member of a class: the YAML reader, JSON
      and the sandbox of [Engine], the directory listing and the collation
      of [localeCompare] of [Host], the YAML writer of [Setter].

    The first part of the file is the embedding, together with the notions
    and the sample inputs the statements use; the second part, from
    "Properties" on, states and proves the properties: those of the
    specification first, then, from "Further properties of the engine" on,
    properties read off the code (the worker, the unit conversions, the
    paths, the loaders, [problem.conf], the test case finder and the free
    mode of [ProblemSetter]). *)

From Stdlib Require Import ZArith NArith String Ascii List Lia Bool.
From Stdlib Require Import DecimalString DecimalPos DecimalN DecimalZ.
From stdpp Require Import base gmap strings list.

Local Open Scope Z_scope.
Set Warnings "-register-all".

(** ** JavaScript values *)

Inductive number : Type :=
| NaN
| Int (z : Z).

Inductive jsval : Type :=
| VUndef
| VNull
| VBool (b : bool)
| VNum (x : number)
| VStr (s : string)
| VArr (xs : list jsval)
| VObj (kvs : list (string * jsval)).

Module Js.

(** ToBoolean *)
Definition truthy (v : jsval) : bool :=
  match v with
  | VUndef | VNull => false
  | VBool b => b
  | VNum NaN => false
  | VNum (Int z) => negb (z =? 0)
  | VStr s => negb (String.eqb s "")
  | VArr _ | VObj _ => true
  end.

(** [a || b] *)
Definition or (a b : jsval) : jsval := if truthy a then a else b.

(** [Array.isArray] *)
Definition isArray (v : jsval) : bool :=
  match v with VArr _ => true | _ => false end.

Definition is_undefined (v : jsval) : bool :=
  match v with VUndef => true | _ => false end.

(** [v === 'lit'] against a string literal *)
Definition is_str (v : jsval) (lit : string) : bool :=
  match v with VStr s => String.eqb s lit | _ => false end.

Fixpoint assoc (k : string) (kvs : list (string * jsval)) : jsval :=
  match kvs with
  | [] => VUndef
  | (k', v) :: rest => if String.eqb k k' then v else assoc k rest
  end.

(** Property read [o.k] for the keys the program uses (none of them lives on
    a prototype).  [None] is the TypeError of reading a property of
    [undefined] or [null]. *)
Definition get (o : jsval) (k : string) : option jsval :=
  match o with
  | VUndef | VNull => None
  | VObj kvs => Some (assoc k kvs)
  | _ => Some VUndef
  end.

(** Decimal spelling of an integer, as [String(n)] gives it. *)
Definition dec (z : Z) : string := NilZero.string_of_int (Z.to_int z).

Definition number_to_string (x : number) : string :=
  match x with NaN => "NaN" | Int z => dec z end.

Fixpoint join (sep : string) (l : list string) : string :=
  match l with
  | [] => ""
  | [s] => s
  | s :: rest => s +:+ sep +:+ join sep rest
  end.

(** ToString *)
Fixpoint ToString (v : jsval) : string :=
  match v with
  | VUndef => "undefined"
  | VNull => "null"
  | VBool true => "true"
  | VBool false => "false"
  | VNum x => number_to_string x
  | VStr s => s
  | VArr xs =>
      join "," (map (fun e => match e with
                              | VUndef | VNull => ""
                              | _ => ToString e
                              end) xs)
  | VObj _ => "[object Object]"
  end.

Definition add_num (a b : number) : number :=
  match a, b with
  | Int x, Int y => Int (x + y)
  | _, _ => NaN
  end.

Definition mul_num (a b : number) : number :=
  match a, b with
  | Int x, Int y => Int (x * y)
  | _, _ => NaN
  end.

End Js.

(** ** Characters and the pieces of the regular expressions *)

Module Chars.

Definition code (c : ascii) : N := N_of_ascii c.

Definition is_digit (c : ascii) : bool :=
  ((48 <=? code c) && (code c <=? 57))%N.

Definition digit (c : ascii) : N := (code c - 48)%N.

(** [\d.] *)
Definition is_digit_or_dot (c : ascii) : bool :=
  is_digit c || Ascii.eqb c "."%char.

(** [\s] and the white space of [trim], on ASCII: TAB, LF, VT, FF, CR and
    the space.  The program also counts U+00A0, U+FEFF, U+2028, U+2029 and
    the space separators as white space; statements that depend on it are
    made for ASCII text. *)
Definition is_space (c : ascii) : bool :=
  (((9 <=? code c) && (code c <=? 13)) || (code c =? 32))%N.

Definition lower (c : ascii) : ascii :=
  if ((65 <=? code c) && (code c <=? 90))%N
  then ascii_of_N (code c + 32) else c.

(** [toLowerCase], on ASCII: the letters A to Z.  Capitals outside ASCII,
    which the program lowers as well, are left alone. *)
Fixpoint toLowerCase (s : string) : string :=
  match s with
  | EmptyString => EmptyString
  | String c s' => String (lower c) (toLowerCase s')
  end.

(** Longest prefix whose characters satisfy [p], and the rest. *)
Fixpoint span (p : ascii -> bool) (s : string) : string * string :=
  match s with
  | EmptyString => (EmptyString, EmptyString)
  | String c s' =>
      if p c then let '(a, b) := span p s' in (String c a, b)
      else (EmptyString, s)
  end.

Fixpoint drop_while (p : ascii -> bool) (s : string) : string :=
  match s with
  | EmptyString => EmptyString
  | String c s' => if p c then drop_while p s' else s
  end.

(** Horner evaluation of the leading decimal digits. *)
Fixpoint digits_value (s : string) (acc : N) : N :=
  match s with
  | EmptyString => acc
  | String c s' =>
      if is_digit c then digits_value s' (10 * acc + digit c)%N else acc
  end.

End Chars.

(** ** [src/utils.js]: unit conversion *)

(** The value of a decimal literal, [mant / 10^scale], kept exact. *)
Inductive decimal : Type :=
| DNaN
| Dec (mant : Z) (scale : nat).

(** [parseFloat] on a string made of digits and dots (capture group 1 of the
    unit patterns): the longest prefix [digits [. digits]] or [. digits]. *)
Definition parseFloat (s : string) : decimal :=
  let '(ip, rest) := Chars.span Chars.is_digit s in
  let fp := match rest with
            | String "."%char r => fst (Chars.span Chars.is_digit r)
            | _ => EmptyString
            end in
  match ip, fp with
  | EmptyString, EmptyString => DNaN
  | _, _ => Dec (Z.of_N (Chars.digits_value (ip +:+ fp) 0)) (String.length fp)
  end.

(** [Math.round(v * mul)]: the nearest integer, halves going up. *)
Definition Math_round_mul (v : decimal) (mul : Z) : number :=
  match v with
  | DNaN => NaN
  | Dec m e => Int ((2 * (m * mul) + 10 ^ Z.of_nat e) / (2 * 10 ^ Z.of_nat e))
  end.

(** [String(s).match(/^([\d.]+)\s*(ms|s)?$/i)]: groups 1 and 2. *)
Definition match_time (s : string) : option (string * option string) :=
  let '(g1, rest) := Chars.span Chars.is_digit_or_dot s in
  let unit := Chars.drop_while Chars.is_space rest in
  let u := Chars.toLowerCase unit in
  match g1 with
  | EmptyString => None
  | _ =>
      if String.eqb u "" then Some (g1, None)
      else if String.eqb u "ms" || String.eqb u "s" then Some (g1, Some unit)
      else None
  end.

(** [String(s).match(/^([\d.]+)\s*(k|m|g|)$|^([\d.]+)$/i)]: groups 1 and 2 (the
    first alternative matches whatever the second does, so group 3 is never
    the one that is set). *)
Definition match_memory (s : string) : option (string * string) :=
  let '(g1, rest) := Chars.span Chars.is_digit_or_dot s in
  let unit := Chars.drop_while Chars.is_space rest in
  let u := Chars.toLowerCase unit in
  match g1 with
  | EmptyString => None
  | _ =>
      if String.eqb u "" || String.eqb u "k" || String.eqb u "m" || String.eqb u "g"
      then Some (g1, unit)
      else None
  end.

Definition toNs (s : jsval) : number :=
  match s with
  | VNum x => x
  | _ =>
      let m := match_time (Js.ToString s) in
      let v := parseFloat (match m with Some (g1, _) => g1 | None => "0" end) in
      let u := Chars.toLowerCase
                 (match m with Some (_, Some g2) => g2 | _ => "s" end) in
      Math_round_mul v (if String.eqb u "ms" then 1000000 else 1000000000)
  end.

Definition toBytes (s : jsval) : number :=
  match s with
  | VNum x => x
  | _ =>
      let m := match_memory (Js.ToString s) in
      let v := parseFloat (match m with Some (g1, _) => g1 | None => "0" end) in
      let u := Chars.toLowerCase
                 (match m with Some (_, g2) => g2 | None => "" end) in
      let mul := if String.eqb u "g" then Z.shiftl 1 30
                 else if String.eqb u "m" then Z.shiftl 1 20
                 else if String.eqb u "k" then Z.shiftl 1 10
                 else 1 in
      Math_round_mul v mul
  end.

(** ** Exceptions and outcomes *)

(** A thrown [Error] object: its [name] and its [message]. *)
Record error : Type := mkError { name : string; message : string }.

(** [String(e)] *)
Definition String_of_error (e : error) : string :=
  if String.eqb (message e) "" then name e
  else if String.eqb (name e) "" then message e
  else name e +:+ ": " +:+ message e.

Definition Error_ (msg : string) : error := mkError "Error" msg.
Definition TypeError (msg : string) : error := mkError "TypeError" msg.

Inductive outcome (A : Type) : Type :=
| Ok (a : A)
| Throw (e : error).
Arguments Ok {A} a.
Arguments Throw {A} e.

(** ** [parseInt] and [String.prototype.trim] *)

Fixpoint trimEnd (s : string) : string :=
  match s with
  | EmptyString => EmptyString
  | String c s' =>
      let t := trimEnd s' in
      match t with
      | EmptyString => if Chars.is_space c then EmptyString else String c EmptyString
      | _ => String c t
      end
  end.

Definition trim (s : string) : string :=
  trimEnd (Chars.drop_while Chars.is_space s).

(** [parseInt(s, 10)]: leading white space, an optional sign, then the longest
    run of decimal digits; [NaN] when there is none. *)
Definition parseInt (s : string) : number :=
  let s1 := Chars.drop_while Chars.is_space s in
  let '(neg, s2) := match s1 with
                    | String "-"%char r => (true, r)
                    | String "+"%char r => (false, r)
                    | _ => (false, s1)
                    end in
  match s2 with
  | String c _ =>
      if Chars.is_digit c
      then let n := Z.of_N (Chars.digits_value s2 0) in
           Int (if neg then - n else n)
      else NaN
  | EmptyString => NaN
  end.

(** ** The data of the judge engine *)

(** One stream of a sandbox result: [files?.stdout], [files?.stderr]. *)
Record out_files : Type := mkFiles {
  stdout : option string;
  stderr : option string
}.

(** A result object of the sandbox ([POST /run]). *)
Record run_result : Type := mkRunResult {
  rr_status : string;
  rr_exitStatus : Z;
  rr_runTime : Z;
  rr_memory : Z;
  rr_files : option out_files
}.

Inductive copy_source : Type :=
| Content (s : string)
| FileId (id : string).

(** A command sent to the sandbox. *)
Record run_request : Type := mkRequest {
  args : list string;
  env : list string;
  stdin : string;
  stdout_max : Z;
  stderr_max : Z;
  cpuLimit : number;
  clockLimit : number;
  memoryLimit : number;
  procLimit : Z;
  copyIn : list (string * copy_source)
}.

(** What [prepareProgram] returns. *)
Record run_spec : Type := mkRunSpec {
  runArgs : list string;
  preparedCopyIn : list (string * copy_source);
  cleanupIds : list string
}.

(** What [copyInChecker] and [prepareChecker] return; [cleanup] is the list of
    cached files the returned closure deletes, [None] when there is none. *)
Record checker_result : Type := mkChecker {
  checkerId : string;
  cleanup : option (list string)
}.

Record case_result : Type := mkCaseResult {
  ok : bool;
  status : string;
  time : Z;
  memory : Z;
  msg : string
}.

Inductive verdict : Type :=
| Queued
| Done (passed : bool) (result : string) (cases : list case_result)
| Error (err : string).

Definition case_result_to_js (r : case_result) : jsval :=
  VObj [("ok", VBool (ok r)); ("status", VStr (status r));
        ("time", VNum (Int (time r))); ("memory", VNum (Int (memory r)));
        ("msg", VStr (msg r))].

(** The object stored in [results] and serialised into [result.json]. *)
Definition verdict_to_js (v : verdict) : jsval :=
  match v with
  | Queued => VObj [("status", VStr "queued")]
  | Done p r cs =>
      VObj [("status", VStr "done"); ("passed", VBool p); ("result", VStr r);
            ("cases", VArr (map case_result_to_js cs))]
  | Error e => VObj [("status", VStr "error"); ("error", VStr e)]
  end.

(** A queue entry.  [job_code] is [VUndef] when the entry has no [code]
    property. *)
Record job : Type := mkJob {
  job_sid : Z;
  job_pid : string;
  job_lang : string;
  job_code : jsval
}.

(** A flattened test case of a loaded problem. *)
Record case_item : Type := mkCase {
  subtask : nat;
  input : jsval;
  output : jsval;
  c_time : jsval;
  c_memory : jsval
}.

(** What [loadProblem] returns. *)
Record problem : Type := mkProblem {
  pdir : string;
  cfg : jsval;
  p_cases : list case_item;
  checker : jsval;
  interactor : jsval;
  filename : jsval
}.

(** ** The world: file system, engine state, sandbox log *)

Record world : Type := mkWorld {
  fs_files : gmap string string;
  fs_dirs : gset string;
  results : gmap Z verdict;
  queue : list job;
  now : Z;
  gj_runs : list run_request;
  gj_deleted : list string
}.

Definition set_files (f : gmap string string -> gmap string string) (w : world) : world :=
  mkWorld (f (fs_files w)) (fs_dirs w) (results w) (queue w) (now w)
          (gj_runs w) (gj_deleted w).
Definition set_dirs (f : gset string -> gset string) (w : world) : world :=
  mkWorld (fs_files w) (f (fs_dirs w)) (results w) (queue w) (now w)
          (gj_runs w) (gj_deleted w).
Definition set_results (f : gmap Z verdict -> gmap Z verdict) (w : world) : world :=
  mkWorld (fs_files w) (fs_dirs w) (f (results w)) (queue w) (now w)
          (gj_runs w) (gj_deleted w).
Definition set_queue (f : list job -> list job) (w : world) : world :=
  mkWorld (fs_files w) (fs_dirs w) (results w) (f (queue w)) (now w)
          (gj_runs w) (gj_deleted w).
Definition set_runs (f : list run_request -> list run_request) (w : world) : world :=
  mkWorld (fs_files w) (fs_dirs w) (results w) (queue w) (now w)
          (f (gj_runs w)) (gj_deleted w).
Definition set_deleted (f : list string -> list string) (w : world) : world :=
  mkWorld (fs_files w) (fs_dirs w) (results w) (queue w) (now w)
          (gj_runs w) (f (gj_deleted w)).

(** ** The monad of asynchronous code

    A computation maps the world to its outcome, the world it leaves, and the
    worlds at which it was suspended in an [await], oldest first.  Other tasks
    of the event loop run exactly at those points. *)

Definition M (A : Type) : Type := world -> outcome A * world * list world.

Definition ret {A} (a : A) : M A := fun w => (Ok a, w, []).

Definition throw {A} (e : error) : M A := fun w => (Throw e, w, []).

Definition bind {A B} (m : M A) (f : A -> M B) : M B :=
  fun w =>
    match m w with
    | (Ok a, w1, t1) => let '(r, w2, t2) := f a w1 in (r, w2, t1 ++ t2)
    | (Throw e, w1, t1) => (Throw e, w1, t1)
    end.

Declare Scope async_scope.
Delimit Scope async_scope with async.
Bind Scope async_scope with M.
Notation "'let*' x ':=' m 'in' k" := (bind m (fun x => k))
  (at level 10, x name, m at level 100, k at level 200) : async_scope.
Notation "'let*' ' p ':=' m 'in' k" := (bind m (fun x => let 'p := x in k))
  (at level 10, p strict pattern, m at level 100, k at level 200) : async_scope.
Notation "m ';;' k" := (bind m (fun _ => k))
  (at level 100, k at level 200, right associativity) : async_scope.
Local Open Scope async_scope.

(** Synchronous access to the state. *)
Definition gets {A} (f : world -> A) : M A := fun w => (Ok (f w), w, []).
Definition modify (f : world -> world) : M unit := fun w => (Ok tt, f w, []).

(** [await io]: the task is suspended at the current world; the effect of the
    operation is in place when it resumes. *)
Definition await {A} (io : world -> outcome A * world) : M A :=
  fun w => let '(r, w1) := io w in (r, w1, [w]).

(** [try { m } catch (e) { h e }] *)
Definition try_catch {A} (m : M A) (h : error -> M A) : M A :=
  fun w =>
    match m w with
    | (Ok a, w1, t1) => (Ok a, w1, t1)
    | (Throw e, w1, t1) => let '(r, w2, t2) := h e w1 in (r, w2, t1 ++ t2)
    end.

(** [try { m } finally { f }] *)
Definition finally {A} (m : M A) (f : M unit) : M A :=
  fun w =>
    let '(r, w1, t1) := m w in
    match f w1 with
    | (Ok _, w2, t2) => (r, w2, t1 ++ t2)
    | (Throw e, w2, t2) => (Throw e, w2, t1 ++ t2)
    end.

Definition value {A} (x : outcome A * world * list world) : outcome A := x.1.1.
Definition after {A} (x : outcome A * world * list world) : world := x.1.2.
Definition suspensions {A} (x : outcome A * world * list world) : list world := x.2.

(** ** [fs/promises] and [path] *)

(** [path.join(a, b)] on two segments in normal form. *)
Definition path_join (a b : string) : string := a +:+ "/" +:+ b.

Definition readFile (p : string) (w : world) : outcome string * world :=
  match fs_files w !! p with
  | Some txt => (Ok txt, w)
  | None => (Throw (Error_ ("ENOENT: no such file or directory, open '" +:+ p +:+ "'")), w)
  end.

(** [fs.writeFile(p, data)]: data other than a string (or a buffer, which the
    value model does not have) is rejected with ERR_INVALID_ARG_TYPE, as Node
    does from version 18 on, the version the README asks for.  A string is
    written whatever the directories are: the ENOENT of a write into a
    missing directory is not modelled.  The program creates the directories
    of a submission at intake, before the job can be seen, and only a reset
    removes them; the statements about a worker that runs on its own name
    the directory of the submission as a premise. *)
Definition writeFile (p : string) (data : jsval) (w : world) : outcome unit * world :=
  match data with
  | VStr txt => (Ok tt, set_files (insert p txt) w)
  | _ => (Throw (TypeError "The 'data' argument must be of type string or an instance of Buffer, TypedArray, or DataView."), w)
  end.

(** [fs.mkdir(p, { recursive: true })] *)
Definition mkdir (p : string) (w : world) : outcome unit * world :=
  (Ok tt, set_dirs (fun d => {[p]} ∪ d) w).

(** [fileExists]: [fs.stat] succeeded. *)
Definition fileExists (p : string) (w : world) : outcome bool * world :=
  (Ok (bool_decide (is_Some (fs_files w !! p))), w).

(** ** [src/utils.js]: [SubmissionManager] *)

Record SubmissionManager : Type := mkSubmissionManager {
  dataRoot : string;
  submissionsRoot : string;
  bucketSize : Z
}.

Definition counterFile (sm : SubmissionManager) : string :=
  path_join (dataRoot sm) "counter.txt".

(** [nextSubmissionId].  The counter is an integer, read through the ASCII
    [trim] and [parseInt] of the embedding and increased exactly: this is
    the program on a counter file that is absent or holds ASCII text and
    on ids below 2^53 in absolute value, where [n + 1] is exact on
    doubles. *)
Definition nextSubmissionId (sm : SubmissionManager) : M Z :=
  let* n := try_catch
              (let* txt := await (readFile (counterFile sm)) in
               ret (match parseInt (trim txt) with
                    | Int z => z          (* [z || 0] *)
                    | NaN => 0
                    end))
              (fun _ => ret 0) in
  let next := n + 1 in
  await (writeFile (counterFile sm) (VStr (Js.dec next))) ;;
  ret next.

Definition bucketPrefix (sm : SubmissionManager) (sid : Z) : number :=
  if bucketSize sm =? 0 then NaN
  else Int (sid / bucketSize sm * bucketSize sm).

(** [submissionPaths(sid)]: [(bucketDir, subDir)] *)
Definition submissionPaths (sm : SubmissionManager) (sid : Z) : string * string :=
  let bucketDir := path_join (submissionsRoot sm)
                             (Js.number_to_string (bucketPrefix sm sid)) in
  let subDir := path_join bucketDir (Js.dec sid) in
  (bucketDir, subDir).

Definition resetCounter (sm : SubmissionManager) : M unit :=
  await (writeFile (counterFile sm) (VStr "0")).

(** ** What the engine is built on

    The configuration of the server and the libraries and services the engine
    calls but does not define: js-yaml, [JSON], the language's string-to-number
    conversion, and the sandbox client of [src/gojudge.js]. *)

Class Engine : Type := {
  problemsRoot : string;
  testlibPath : string;
  submissionManager : SubmissionManager;
  (** [YAML.load] of js-yaml *)
  YAML_load : string -> outcome jsval;
  JSON_stringify : jsval -> string;
  JSON_parse : string -> outcome jsval;
  (** ToNumber on strings (StringToNumber of ECMAScript) *)
  StringToNumber : string -> number;
  (** [GoJudgeClient.runOne]: the sandbox answers a command, given the
      commands it has run before *)
  gj_run : list run_request -> run_request -> outcome run_result;
  (** [GoJudgeClient.prepareProgram({ lang, code, mainName })] *)
  gj_prepareProgram : string -> jsval -> jsval -> outcome run_spec;
  (** [GoJudgeClient.copyInChecker(path)] *)
  gj_copyInChecker : string -> outcome checker_result;
  (** [GoJudgeClient.prepareChecker(source, testlibPath)] *)
  gj_prepareChecker : string -> string -> outcome checker_result
}.

(** Sequencing of code that only computes and throws. *)
Definition obind {A B} (m : outcome A) (f : A -> outcome B) : outcome B :=
  match m with Ok a => f a | Throw e => Throw e end.

Notation "'let?' x ':=' m 'in' k" := (obind m (fun x => k))
  (at level 10, x name, m at level 100, k at level 200).

Definition lift {A} (r : outcome A) : M A := fun w => (r, w, []).

(** [o.k], throwing the TypeError of a read on [undefined] or [null]. *)
Definition prop (o : jsval) (k : string) : outcome jsval :=
  match Js.get o k with
  | Some v => Ok v
  | None => Throw (TypeError ("Cannot read properties of " +:+ Js.ToString o
                              +:+ " (reading '" +:+ k +:+ "')"))
  end.

Section Coercions.
Context {E : Engine}.

(** ToNumber *)
Definition ToNumber (v : jsval) : number :=
  match v with
  | VUndef => NaN
  | VNull => Int 0
  | VBool b => Int (if b then 1 else 0)
  | VNum x => x
  | VStr s => StringToNumber s
  | VArr _ | VObj _ => StringToNumber (Js.ToString v)
  end.

(** ToPrimitive gives a string for strings, arrays and plain objects. *)
Definition to_primitive_is_string (v : jsval) : bool :=
  match v with VStr _ | VArr _ | VObj _ => true | _ => false end.

(** [a + b] *)
Definition js_add (a b : jsval) : jsval :=
  if to_primitive_is_string a || to_primitive_is_string b
  then VStr (Js.ToString a +:+ Js.ToString b)
  else VNum (Js.add_num (ToNumber a) (ToNumber b)).

(** How often [for (let i = 0; i < n; i++)] runs its body. *)
Definition loop_count (n : jsval) : nat :=
  match ToNumber n with
  | Int z => Z.to_nat z
  | NaN => 0%nat
  end.

End Coercions.

(** ** Problem loading: [ProblemConfig] *)

Module ProblemConfig.
Section WithEngine.
Context {E : Engine}.

(** The part of [loadConfig] after the file has been parsed. *)
Definition checkConfig (config : jsval) : outcome jsval :=
  let? ty := prop config "type" in
  let type := Js.or ty (VStr "default") in
  let? subtasks := prop config "subtasks" in
  if negb (Js.truthy subtasks) || negb (Js.isArray subtasks)
  then Throw (Error_ "config.yaml must define subtasks")
  else Ok config.

Definition loadConfig (configPath : string) : M jsval :=
  let* config :=
    try_catch
      (let* txt := await (readFile configPath) in lift (YAML_load txt))
      (fun error => throw (Error_ ("Failed to load config: " +:+ message error))) in
  lift (checkConfig config).

(** The cases an [n_cases] subtask generates. *)
Definition generated_cases (si : nat) (n_cases curCase : jsval)
    (inputPrefix inputSuffix outputPrefix outputSuffix : jsval)
    (subtaskTime subtaskMemory : jsval) : list case_item :=
  map (fun i =>
         let index := Js.ToString (js_add curCase (VNum (Int i))) in
         mkCase si
           (VStr (Js.ToString inputPrefix +:+ index +:+ Js.ToString inputSuffix))
           (VStr (Js.ToString outputPrefix +:+ index +:+ Js.ToString outputSuffix))
           subtaskTime subtaskMemory)
      (seqZ 0 (Z.of_nat (loop_count n_cases))).

(** [st.cases.forEach(c => cases.push({...}))] *)
Fixpoint explicit_cases (si : nat) (cs : list jsval)
    (subtaskTime subtaskMemory : jsval) : outcome (list case_item) :=
  match cs with
  | [] => Ok []
  | c :: rest =>
      let? i := prop c "input" in
      let? o := prop c "output" in
      let? t := prop c "time" in
      let? m := prop c "memory" in
      let? more := explicit_cases si rest subtaskTime subtaskMemory in
      Ok (mkCase si i o (Js.or t subtaskTime) (Js.or m subtaskMemory) :: more)
  end.

(** The body of the loop over the subtasks, from subtask [si] on, with the
    cases pushed so far and the running case index. *)
Fixpoint subtasks_loop (sts : list jsval) (si : nat) (curCase : jsval)
    (cases : list case_item)
    (globalTime globalMemory : jsval)
    (inputPrefix inputSuffix outputPrefix outputSuffix : jsval)
    : outcome (list case_item) :=
  match sts with
  | [] => Ok cases
  | st :: rest =>
      let? tl := prop st "time_limit" in
      let? t := prop st "time" in
      let subtaskTime := Js.or tl (Js.or t globalTime) in
      let? ml := prop st "memory_limit" in
      let? m := prop st "memory" in
      let subtaskMemory := Js.or ml (Js.or m globalMemory) in
      let? n_cases := prop st "n_cases" in
      let? st_cases := prop st "cases" in
      if negb (Js.is_undefined n_cases) then
        subtasks_loop rest (S si) (js_add curCase n_cases)
          (cases ++ generated_cases si n_cases curCase
                      inputPrefix inputSuffix outputPrefix outputSuffix
                      subtaskTime subtaskMemory)
          globalTime globalMemory
          inputPrefix inputSuffix outputPrefix outputSuffix
      else
        match st_cases with
        | VArr cs =>
            let? more := explicit_cases si cs subtaskTime subtaskMemory in
            subtasks_loop rest (S si) curCase (cases ++ more)
              globalTime globalMemory
              inputPrefix inputSuffix outputPrefix outputSuffix
        | _ =>
            Throw (Error_ ("Subtask " +:+ Js.dec (Z.of_nat si)
                           +:+ " must define either 'n_cases' or 'cases'"))
        end
  end.

(** [loadSubtasks], on [this.config].  [loadConfig] has checked that
    [subtasks] is an array; no other shape reaches this function. *)
Definition loadSubtasks (cfg : jsval) : outcome (list case_item) :=
  let? tl := prop cfg "time_limit" in
  let? t := prop cfg "time" in
  let globalTime := Js.or tl (Js.or t (VStr "1s")) in
  let? ml := prop cfg "memory_limit" in
  let? m := prop cfg "memory" in
  let globalMemory := Js.or ml (Js.or m (VStr "256m")) in
  let? ip := prop cfg "input_prefix" in
  let inputPrefix := Js.or ip (VStr "") in
  let? op := prop cfg "output_prefix" in
  let outputPrefix := Js.or op (VStr "") in
  let? is_ := prop cfg "input_suffix" in
  let inputSuffix := Js.or is_ (VStr ".in") in
  let? os := prop cfg "output_suffix" in
  let outputSuffix := Js.or os (VStr ".ans") in
  let? subtasks := prop cfg "subtasks" in
  match subtasks with
  | VArr sts =>
      subtasks_loop sts 0 (VNum (Int 1)) [] globalTime globalMemory
        inputPrefix inputSuffix outputPrefix outputSuffix
  | _ => Throw (TypeError "cfg.subtasks is not an array")
  end.

(** [loadClassic]: cases, checker, filename; the interactor stays unset. *)
Definition loadClassic (pdir : string) (config : jsval) : outcome problem :=
  let? cases := loadSubtasks config in
  let? chk := prop config "checker" in
  let? fname := prop config "filename" in
  Ok (mkProblem pdir config cases (Js.or chk (VStr "chk.cc")) VUndef
                (Js.or fname VNull)).

Definition loadLeetcode (pdir : string) (config : jsval) : outcome problem :=
  Throw (Error_ "LeetCode problems are not supported for now.").

Definition loadInteractive (pdir : string) (config : jsval) : outcome problem :=
  let? cases := loadSubtasks config in
  let? chk := prop config "checker" in
  let? inter := prop config "interactor" in
  let? fname := prop config "filename" in
  Ok (mkProblem pdir config cases (Js.or chk (VStr "chk.cc"))
                (Js.or inter (VStr "interactor.cc")) (Js.or fname VNull)).

(** The [switch (type)] of [loadProblem]. *)
Definition loadByType (pdir : string) (config : jsval) : outcome problem :=
  let? ty := prop config "type" in
  let type := Js.or ty (VStr "default") in
  if Js.is_str type "default" then loadClassic pdir config
  else if Js.is_str type "leetcode" then loadLeetcode pdir config
  else if Js.is_str type "interactive" then loadInteractive pdir config
  else Throw (Error_ ("Unknown problem type: " +:+ Js.ToString type)).

Definition loadProblem (pdir : string) : M problem :=
  let* config := loadConfig (path_join pdir "config.yaml") in
  lift (loadByType pdir config).

(** What [loadProblem] does with a configuration file that parsed to
    [parsed]: the check of [loadConfig], then the switch. *)
Definition loadParsed (pdir : string) (parsed : jsval) : outcome problem :=
  let? config := checkConfig parsed in
  loadByType pdir config.

End WithEngine.
End ProblemConfig.

(** The revision of [ProblemConfig] in [src/problem_manager.js]: the same
    [loadSubtasks] and [loadClassic], a stricter [loadConfig], and no
    interactive problems. *)
Module ProblemConfigOld.
Section WithEngine.
Context {E : Engine}.

Definition checkConfig (config : jsval) : outcome jsval :=
  let? ty := prop config "type" in
  let type := Js.or ty (VStr "default") in
  if negb (Js.is_str type "default")
  then Throw (Error_ "Only type=default supported")
  else
    let? subtasks := prop config "subtasks" in
    if negb (Js.truthy subtasks) || negb (Js.isArray subtasks)
    then Throw (Error_ "config.yaml must define subtasks")
    else Ok config.

Definition loadInteractive (pdir : string) (config : jsval) : outcome problem :=
  Throw (Error_ "Interactive problems are not supported for now.").

Definition loadByType (pdir : string) (config : jsval) : outcome problem :=
  let? ty := prop config "type" in
  let type := Js.or ty (VStr "default") in
  if Js.is_str type "default" then ProblemConfig.loadClassic pdir config
  else if Js.is_str type "leetcode" then ProblemConfig.loadLeetcode pdir config
  else if Js.is_str type "interactive" then loadInteractive pdir config
  else Throw (Error_ ("Unknown problem type: " +:+ Js.ToString type)).

Definition loadParsed (pdir : string) (parsed : jsval) : outcome problem :=
  let? config := checkConfig parsed in
  loadByType pdir config.

End WithEngine.
End ProblemConfigOld.

(** ** [src/judge_engine.js]: [JudgeEngine] *)

(** [s.split('/').pop()]: what follows the last slash. *)
Fixpoint last_segment_from (s : string) (cur : string) : string :=
  match s with
  | EmptyString => cur
  | String c s' =>
      if Ascii.eqb c "/"%char then last_segment_from s' ""
      else last_segment_from s' (cur +:+ String c "")
  end.

Definition last_segment (s : string) : string := last_segment_from s "".

(** [s.replace(/\.out$/, '.ans')] *)
Fixpoint replace_out_suffix (s : string) : string :=
  match s with
  | EmptyString => EmptyString
  | String c s' => if String.eqb s ".out" then ".ans" else String c (replace_out_suffix s')
  end.

(** An argument of [path.join] has to be a string. *)
Definition path_arg (v : jsval) : outcome string :=
  match v with
  | VStr s => Ok s
  | _ => Throw (TypeError "The 'path' argument must be of type string.")
  end.

(** [caseItem.output.replace(...)]: only a string has the method. *)
Definition output_replace (v : jsval) : outcome string :=
  match v with
  | VStr s => Ok (replace_out_suffix s)
  | VUndef | VNull =>
      Throw (TypeError ("Cannot read properties of " +:+ Js.ToString v
                        +:+ " (reading 'replace')"))
  | _ => Throw (TypeError "caseItem.output.replace is not a function")
  end.

(** [x || ''] on an optional string. *)
Definition or_empty (x : option string) : string :=
  match x with Some s => s | None => "" end.

(** [a || b] on optional strings: the empty string is falsy. *)
Definition or_string (a b : option string) : option string :=
  match a with
  | Some s => if String.eqb s "" then b else a
  | None => b
  end.

(** [r.files?.stdout] and [r.files?.stderr] *)
Definition files_stdout (r : run_result) : option string :=
  match rr_files r with Some f => stdout f | None => None end.
Definition files_stderr (r : run_result) : option string :=
  match rr_files r with Some f => stderr f | None => None end.

Module JudgeEngine.
Section WithEngine.
Context {E : Engine}.

Definition results_set (sid : Z) (v : verdict) : M unit :=
  modify (set_results (insert sid v)).

Definition queue_push (j : job) : M unit :=
  modify (set_queue (fun q => q ++ [j])).

(** [this.queue.shift()] *)
Definition queue_shift : M (option job) :=
  fun w =>
    match queue w with
    | [] => (Ok None, w, [])
    | j :: rest => (Ok (Some j), set_queue (fun _ => rest) w, [])
    end.

(** [this.goJudge.runOne(cmd)] *)
Definition runOne (cmd : run_request) : M run_result :=
  await (fun w => (gj_run (gj_runs w) cmd, set_runs (fun l => l ++ [cmd]) w)).

(** [this.goJudge.deleteFile(id)] *)
Definition deleteFile (id : string) : M unit :=
  await (fun w => (Ok tt, set_deleted (fun l => l ++ [id]) w)).

(** [this.problemManager.readTestFile(pid, filename)] *)
Definition readTestFile (pid : string) (filename : jsval) : M string :=
  let* name := lift (path_arg filename) in
  await (readFile (path_join (path_join (path_join problemsRoot pid) "testdata") name)).

(** [this.problemManager.readCheckerSource(pid, checkerFile)] *)
Definition readCheckerSource (pid : string) (checkerFile : jsval) : M string :=
  let* name := lift (path_arg checkerFile) in
  await (readFile (path_join (path_join problemsRoot pid) name)).

(** [this.problemManager.loadProblem(pid)] *)
Definition loadProblem (pid : string) : M problem :=
  ProblemConfig.loadProblem (path_join problemsRoot pid).

Definition submit (pid lang : string) (code : jsval) : M Z :=
  let sm := submissionManager in
  let* sid := nextSubmissionId sm in
  results_set sid Queued ;;
  let '(bucketDir, subDir) := submissionPaths sm sid in
  await (mkdir bucketDir) ;;
  await (mkdir subDir) ;;
  let* len := gets (fun w => Z.of_nat (length (queue w))) in
  (if 1024 * 512 <=? len then
     queue_push (mkJob sid pid lang VUndef) ;;
     await (writeFile (path_join subDir "source.code") code)
   else
     queue_push (mkJob sid pid lang code)) ;;
  let* ts := gets now in
  await (writeFile (path_join subDir "meta.json")
           (VStr (JSON_stringify
                    (VObj [("sid", VNum (Int sid)); ("pid", VStr pid);
                           ("lang", VStr lang); ("ts", VNum (Int ts))])))) ;;
  ret sid.

Definition getResult (sid : Z) : M jsval :=
  let* r := gets (fun w => results w !! sid) in
  match r with
  | Some v =>
      modify (set_results (delete sid)) ;;
      ret (verdict_to_js v)
  | None =>
      try_catch
        (let '(_, subDir) := submissionPaths submissionManager sid in
         let* txt := await (readFile (path_join subDir "result.json")) in
         lift (JSON_parse txt))
        (fun _ => ret VNull)
  end.

Definition clearResults : M unit := modify (set_results (fun _ => ∅)).

Definition player_request (runSpec : run_spec) (caseItem : case_item)
    (inf : string) : run_request :=
  mkRequest (runArgs runSpec) ["PATH=/usr/bin:/bin"] inf
            (128 * 1024 * 1024) (1024 * 1024)
            (toNs (c_time caseItem))
            (Js.mul_num (toNs (c_time caseItem)) (Int 2))
            (toBytes (c_memory caseItem))
            50
            (preparedCopyIn runSpec).

Definition checker_request (checkerId inf out ans : string) : run_request :=
  mkRequest ["chk"; "in.txt"; "out.txt"; "ans.txt"] ["PATH=/usr/bin:/bin"] ""
            (1024 * 1024) (1024 * 1024)
            (Int 2000000000) (Int 4000000000) (Int (Z.shiftl 256 20))
            10
            [("chk", FileId checkerId); ("in.txt", Content inf);
             ("out.txt", Content out); ("ans.txt", Content ans)].

(** The expected answer of a case: the [.ans] file first, the configured
    output file when that cannot be read. *)
Definition readAnswer (pid : string) (caseItem : case_item) : M string :=
  try_catch
    (let* ansFile := lift (output_replace (output caseItem)) in
     readTestFile pid (VStr ansFile))
    (fun _ => readTestFile pid (output caseItem)).

Definition judgeCase (runSpec : run_spec) (caseItem : case_item)
    (problem : problem) (checkerId : string) : M case_result :=
  let pid := last_segment (pdir problem) in
  let* inf := readTestFile pid (input caseItem) in
  let* ans := readAnswer pid caseItem in
  let* runRes := runOne (player_request runSpec caseItem inf) in
  if negb (String.eqb (rr_status runRes) "Accepted") then
    ret (mkCaseResult false (rr_status runRes) (rr_runTime runRes)
           (rr_memory runRes)
           (or_empty (or_string (files_stderr runRes) None)))
  else
    let out := or_empty (files_stdout runRes) in
    let* chkRes := runOne (checker_request checkerId inf out ans) in
    let ok := String.eqb (rr_status chkRes) "Accepted"
              && (rr_exitStatus chkRes =? 0) in
    ret (mkCaseResult ok
           (if ok then "Accepted" else "Wrong Answer")
           (rr_runTime runRes) (rr_memory runRes)
           (or_empty (or_string (files_stdout chkRes)
                                (files_stderr chkRes)))).

(** The loop over [problem.cases]: the results pushed and [firstBad]. *)
Fixpoint judge_cases (runSpec : run_spec) (problem : problem)
    (checkerId : string) (cs : list case_item) (caseResults : list case_result)
    : M (list case_result * option case_result) :=
  match cs with
  | [] => ret (caseResults, None)
  | c :: rest =>
      let* r := judgeCase runSpec c problem checkerId in
      let caseResults := caseResults ++ [r] in
      if negb (ok r) then ret (caseResults, Some r)
      else judge_cases runSpec problem checkerId rest caseResults
  end.

(** [caseResults[caseResults.length - 1].status || 'Unknown'] *)
Definition last_status (caseResults : list case_result) : outcome string :=
  match last caseResults with
  | Some r => Ok (if String.eqb (status r) "" then "Unknown" else status r)
  | None => Throw (TypeError "Cannot read properties of undefined (reading 'status')")
  end.

(** Checker resolution: the cached binary when it is on disk, else the
    compiled source. *)
Definition resolveChecker (pid : string) (problem : problem) : M checker_result :=
  let checkerBinPath :=
    path_join (pdir problem) (Js.ToString (checker problem) +:+ ".bin") in
  let* has_bin := await (fileExists checkerBinPath) in
  if has_bin : bool then
    await (fun w => (gj_copyInChecker checkerBinPath, w))
  else if Js.truthy (checker problem) then
    let* chkSrc := readCheckerSource pid (checker problem) in
    await (fun w => (gj_prepareChecker chkSrc testlibPath, w))
  else
    throw (TypeError "Cannot destructure property 'checkerId' of 'checkerResult' as it is undefined.").

(** From the case loop to the published verdict. *)
Definition judgeAndPublish (sid : Z) (subDir : string) (runSpec : run_spec)
    (problem : problem) (checkerId : string) : M unit :=
  let* '(caseResults, firstBad) :=
    judge_cases runSpec problem checkerId (p_cases problem) [] in
  let passed := match firstBad with None => true | Some _ => false end in
  let* result := lift (last_status caseResults) in
  let final := Done passed result caseResults in
  results_set sid final ;;
  await (writeFile (path_join subDir "result.json")
           (VStr (JSON_stringify (verdict_to_js final)))).

(** The [catch (e)] block of the worker. *)
Definition publishError (sid : Z) (subDir : string) (e : error) : M unit :=
  let err := Error (String_of_error e) in
  results_set sid err ;;
  await (writeFile (path_join subDir "result.json")
           (VStr (JSON_stringify (verdict_to_js err)))).

(** The [finally] block of the worker. *)
Fixpoint deleteAll (ids : list string) : M unit :=
  match ids with
  | [] => ret tt
  | id :: rest => deleteFile id ;; deleteAll rest
  end.

Definition releaseArtifacts (cleanupIds : list string)
    (checkerCleanup : option (list string)) : M unit :=
  deleteAll cleanupIds ;;
  match checkerCleanup with
  | Some ids => deleteAll ids
  | None => ret tt
  end.

(** Runs [m] and hands its outcome over instead of throwing. *)
Definition attempt {A} (m : M A) : M (outcome A) :=
  fun w => let '(r, w1, t) := m w in (Ok r, w1, t).

(** The [try / catch / finally] of the worker.  The two variables the
    [finally] block reads, [cleanupIds] and [checkerCleanup], hold what the
    [try] block had assigned when it was left. *)
Definition judgeJob (sid : Z) (pid lang : string) (code : jsval)
    (subDir : string) : M unit :=
  let* prepared :=
    attempt (let* problem := loadProblem pid in
             let* runSpec :=
               await (fun w => (gj_prepareProgram lang code (Js.or (filename problem) VNull), w)) in
             ret (problem, runSpec)) in
  match prepared with
  | Throw e => finally (publishError sid subDir e) (releaseArtifacts [] None)
  | Ok (problem, runSpec) =>
      let* resolved := attempt (resolveChecker pid problem) in
      match resolved with
      | Throw e =>
          finally (publishError sid subDir e)
                  (releaseArtifacts (cleanupIds runSpec) None)
      | Ok checkerResult =>
          finally
            (try_catch
               (judgeAndPublish sid subDir runSpec problem (checkerId checkerResult))
               (publishError sid subDir))
            (releaseArtifacts (cleanupIds runSpec) (cleanup checkerResult))
      end
  end.

(** The start of a worker iteration on a job: the source is read back when
    [code === null] and archived otherwise.  This runs outside the [try]. *)
Definition materializeSource (code : jsval) (subDir : string) : M jsval :=
  match code with
  | VNull =>
      let* txt := await (readFile (path_join subDir "source.code")) in
      ret (VStr txt)
  | _ =>
      await (writeFile (path_join subDir "source.code") code) ;;
      ret code
  end.

Definition handleJob (j : job) : M unit :=
  let '(_, subDir) := submissionPaths submissionManager (job_sid j) in
  let* code := materializeSource (job_code j) subDir in
  judgeJob (job_sid j) (job_pid j) (job_lang j) code subDir.

(** One turn of the [while (true)] loop of [startWorker]. *)
Definition workerTurn : M unit :=
  let* next := queue_shift in
  match next with
  | None => await (fun w => (Ok tt, w))   (* the 50 ms sleep *)
  | Some j => handleJob j
  end.

(** [startWorker], for a bounded number of turns; an exception that leaves
    a turn ends the worker. *)
Fixpoint startWorker (turns : nat) : M unit :=
  match turns with
  | O => ret tt
  | S n => workerTurn ;; startWorker n
  end.

End WithEngine.
End JudgeEngine.

(** ** Notions the statements use *)

(** The number the counter file stands for: [0] when the file is absent or
    does not start with a decimal integer. *)
Definition counter_value (sm : SubmissionManager) (w : world) : Z :=
  match fs_files w !! counterFile sm with
  | Some txt => match parseInt (trim txt) with Int z => z | NaN => 0 end
  | None => 0
  end.

(** [k] calls of [nextSubmissionId], one after the other. *)
Fixpoint allocate (sm : SubmissionManager) (k : nat) : M (list Z) :=
  match k with
  | O => ret []
  | S n =>
      let* sid := nextSubmissionId sm in
      let* more := allocate sm n in
      ret (sid :: more)
  end.

Fixpoint no_space (s : string) : bool :=
  match s with
  | EmptyString => true
  | String c s' => negb (Chars.is_space c) && no_space s'
  end.

Fixpoint last_char (s : string) : option ascii :=
  match s with
  | EmptyString => None
  | String c EmptyString => Some c
  | String _ s' => last_char s'
  end.


(** ** Sample surroundings, for running the engine on concrete inputs *)

Definition quote : string := String (ascii_of_nat 34) "".

(** A compact JSON printer (no escapes, [undefined] printed as [null]). *)
Fixpoint sample_stringify (v : jsval) : string :=
  match v with
  | VUndef | VNull => "null"
  | VBool true => "true"
  | VBool false => "false"
  | VNum NaN => "null"
  | VNum (Int z) => Js.dec z
  | VStr s => quote +:+ s +:+ quote
  | VArr xs => "[" +:+ Js.join "," (map sample_stringify xs) +:+ "]"
  | VObj kvs =>
      "{" +:+ Js.join "," (map (fun kv => quote +:+ fst kv +:+ quote +:+ ":"
                                          +:+ sample_stringify (snd kv)) kvs)
          +:+ "}"
  end.

Definition sample_sm : SubmissionManager :=
  mkSubmissionManager "data" "submissions" 100.

(** An engine over a given YAML reader and a given sandbox; programs and
    checkers always compile. *)
Definition sample_engine (yaml : string -> outcome jsval)
    (run : list run_request -> run_request -> outcome run_result) : Engine :=
  {| problemsRoot := "problems";
     testlibPath := "/lib/testlib";
     submissionManager := sample_sm;
     YAML_load := yaml;
     JSON_stringify := sample_stringify;
     JSON_parse := fun _ => Throw (mkError "SyntaxError" "Unexpected token");
     StringToNumber := fun _ => NaN;
     gj_run := run;
     gj_prepareProgram := fun _ _ _ => Ok (mkRunSpec ["a"] [("a", FileId "exe")] ["exe"]);
     gj_copyInChecker := fun _ => Ok (mkChecker "chk.bin" (Some ["chk.bin"]));
     gj_prepareChecker := fun _ _ => Ok (mkChecker "chk" (Some ["chk"])) |}.

Definition no_yaml : string -> outcome jsval :=
  fun _ => Throw (mkError "YAMLException" "bad indentation").

Definition accepted (out : string) : run_result :=
  mkRunResult "Accepted" 0 1000000 65536 (Some (mkFiles (Some out) (Some ""))).

(** A sandbox in which every command is accepted and prints [ok]. *)
Definition accepting_sandbox : list run_request -> run_request -> outcome run_result :=
  fun _ _ => Ok (accepted "ok").

Definition empty_world : world := mkWorld ∅ ∅ ∅ [] 0 [] [].


Definition sample_E : Engine := sample_engine no_yaml accepting_sandbox.

(** A world in which submission 1 has been queued and not yet judged. *)
Definition queued_world : world :=
  set_results (insert 1 Queued) empty_world.

(** The path of [result.json] of a submission. *)
Definition result_json {E : Engine} (sid : Z) : string :=
  path_join (snd (submissionPaths submissionManager sid)) "result.json".




(** Judging cases in declared order: [judged_in_order cs w rs w'] when
    [judgeCase] on the cases [cs], one after the other from the world [w],
    returns the results [rs] and leaves the world [w']. *)
Inductive judged_in_order {E : Engine} (runSpec : run_spec) (problem : problem)
    (checkerId : string) : list case_item -> world -> list case_result -> world -> Prop :=
| judged_nil (w : world) :
    judged_in_order runSpec problem checkerId [] w [] w
| judged_cons (c : case_item) (cs : list case_item) (w : world)
    (r : case_result) (rs : list case_result) (w' : world) :
    value (JudgeEngine.judgeCase runSpec c problem checkerId w) = Ok r ->
    judged_in_order runSpec problem checkerId cs
      (after (JudgeEngine.judgeCase runSpec c problem checkerId w)) rs w' ->
    judged_in_order runSpec problem checkerId (c :: cs) w (r :: rs) w'.

(** [caseResults[last].status || 'Unknown'] of a case result. *)
Definition status_or_unknown (r : case_result) : string :=
  if String.eqb (status r) "" then "Unknown" else status r.

(** ** Sample problems and sandboxes *)

(** [type: default], one subtask, [n_cases: 2]. *)
Definition two_cases : jsval :=
  VObj [("type", VStr "default");
        ("subtasks", VArr [VObj [("score", VNum (Int 100));
                                 ("n_cases", VNum (Int 2))]])].

(** A configuration every subtask of which declares [n_cases: 0]. *)
Definition zero_cases : jsval :=
  VObj [("type", VStr "default");
        ("subtasks", VArr [VObj [("n_cases", VNum (Int 0))];
                           VObj [("n_cases", VNum (Int 0))]])].

(** A configuration with an empty list of subtasks. *)
Definition no_subtasks : jsval :=
  VObj [("type", VStr "default"); ("subtasks", VArr [])].

(** A YAML reader that knows the texts of the sample configurations. *)
Definition sample_yaml (txt : string) : outcome jsval :=
  if String.eqb txt "two cases" then Ok two_cases
  else if String.eqb txt "zero cases" then Ok zero_cases
  else if String.eqb txt "no subtasks" then Ok no_subtasks
  else Throw (mkError "YAMLException" "bad indentation").

(** The problem directory of problem [A] with the given configuration text. *)
Definition problem_files (config : string) : gmap string string :=
  list_to_map
    [("problems/A/config.yaml", config);
     ("problems/A/chk.cc", "#include <testlib.h>");
     ("problems/A/testdata/1.in", "1 2");
     ("problems/A/testdata/1.ans", "3");
     ("problems/A/testdata/2.in", "2 2");
     ("problems/A/testdata/2.ans", "4")].

Definition problem_world (config : string) : world :=
  mkWorld (problem_files config) ∅ ∅ [] 0 [] [].

Definition is_checker_run (cmd : run_request) : bool :=
  match args cmd with
  | a :: _ => String.eqb a "chk"
  | [] => false
  end.

(** The player is accepted, the checker exits with status 1. *)
Definition rejecting_checker : list run_request -> run_request -> outcome run_result :=
  fun _ cmd =>
    if is_checker_run cmd
    then Ok (mkRunResult "Nonzero Exit Status" 1 2000000 1048576
               (Some (mkFiles (Some "") (Some "wrong answer expected 3, found 4"))))
    else Ok (accepted "4").

(** A sandbox whose results carry an empty status. *)
Definition silent_sandbox : list run_request -> run_request -> outcome run_result :=
  fun _ _ => Ok (mkRunResult "" 0 0 0 None).

(** The player exceeds the time limit from the second case on. *)
Definition slow_on_second : list run_request -> run_request -> outcome run_result :=
  fun history cmd =>
    if is_checker_run cmd then Ok (accepted "ok")
    else if (2 <=? Z.of_nat (length history)) then
      Ok (mkRunResult "Time Limit Exceeded" 0 1000000000 65536 (Some (mkFiles None (Some ""))))
    else Ok (accepted "3").

Definition sample_spec : run_spec := mkRunSpec ["a"] [("a", FileId "exe")] ["exe"].

Definition sample_problem : problem :=
  mkProblem "problems/A" two_cases
    [mkCase 0 (VStr "1.in") (VStr "1.ans") (VStr "1s") (VStr "256m");
     mkCase 0 (VStr "2.in") (VStr "2.ans") (VStr "1s") (VStr "256m")]
    (VStr "chk.cc") VUndef VNull.

Definition first_case : case_item :=
  mkCase 0 (VStr "1.in") (VStr "1.ans") (VStr "1s") (VStr "256m").


Definition second_case : case_item :=
  mkCase 0 (VStr "2.in") (VStr "2.ans") (VStr "1s") (VStr "256m").

Definition slow_engine : Engine := sample_engine sample_yaml slow_on_second.

Definition passed_first : case_result :=
  mkCaseResult true "Accepted" 1000000 65536 "ok".

Definition slow_second : case_result :=
  mkCaseResult false "Time Limit Exceeded" 1000000000 65536 "".


(** A verdict that ends the life of a submission. *)
Definition terminal (v : verdict) : Prop :=
  match v with Queued => False | _ => True end.

(** [sid] has the verdict [v] in memory and on disk. *)
Definition published {E : Engine} (sid : Z) (subDir : string) (v : verdict)
    (w : world) : Prop :=
  results w !! sid = Some v /\
  fs_files w !! path_join subDir "result.json" = Some (JSON_stringify (verdict_to_js v)).

(** The result of a case whose player run was not accepted. *)
Definition run_failed (runRes : run_result) : case_result :=
  mkCaseResult false (rr_status runRes) (rr_runTime runRes) (rr_memory runRes)
    (or_empty (or_string (files_stderr runRes) None)).

(** The result of a case whose player run was accepted, from the checker run. *)
Definition adjudicated (runRes chkRes : run_result) : case_result :=
  let ok := String.eqb (rr_status chkRes) "Accepted" && (rr_exitStatus chkRes =? 0) in
  mkCaseResult ok (if ok then "Accepted" else "Wrong Answer")
    (rr_runTime runRes) (rr_memory runRes)
    (or_empty (or_string (files_stdout chkRes) (files_stderr chkRes))).


(** A world whose queue is at the spill threshold. *)
Definition busy_world : world :=
  set_queue (fun _ => replicate (Z.to_nat (1024 * 512)) (mkJob 0 "A" "cpp" (VStr "")))
            empty_world.

(** The exception of [fs.writeFile] on data that is not a string. *)
Definition invalid_data : error :=
  TypeError "The 'data' argument must be of type string or an instance of Buffer, TypedArray, or DataView.".


(** The worlds other tasks can observe while a computation runs from [w]: the
    worlds at its suspension points, and the world it leaves. *)
Definition observed {A} (x : outcome A * world * list world) : list world :=
  suspensions x ++ [after x].

(** Every world observed in the run of [m] from [w] is related to [w]. *)
Definition stable_at {A} (R : world -> world -> Prop) (m : M A) (w : world) : Prop :=
  forall w' : world, w' ∈ observed (m w) -> R w w'.

(** The verdict cache is untouched. *)
Definition same_results (w w' : world) : Prop := results w' = results w.

(** The entry of [sid] in the verdict cache is untouched or holds an [Error]. *)
Definition untouched_or_error (sid : Z) (w w' : world) : Prop :=
  results w' !! sid = results w !! sid \/
  exists msg, results w' !! sid = Some (Error msg).

(** The message of the exception raised by reading [.status] of the last
    element of an empty array. *)
Definition no_last_case : error :=
  TypeError "Cannot read properties of undefined (reading 'status')".


Definition first_job : job := mkJob 1 "A" "cpp" (VStr "int main(){}").

Definition accepting_engine : Engine := sample_engine sample_yaml accepting_sandbox.

(** What [loadProblem] returns for the configuration [zero_cases]. *)
Definition empty_problem : problem :=
  mkProblem "problems/A" zero_cases [] (VStr "chk.cc") VUndef VNull.


(** ** Valid configurations *)

Definition nullish (v : jsval) : Prop := v = VUndef \/ v = VNull.

(** [config.type || 'default'], when [config] can be read from. *)
Definition type_of_config (config : jsval) : option jsval :=
  match Js.get config "type" with
  | Some ty => Some (Js.or ty (VStr "default"))
  | None => None
  end.

Definition type_accepted (config : jsval) : Prop :=
  type_of_config config = Some (VStr "default") \/
  type_of_config config = Some (VStr "interactive").

(** A subtask the loader can flatten: an object (or any value other than
    [undefined] and [null]) that defines [n_cases], or else whose [cases] is
    a list without [undefined] or [null] entries. *)
Definition subtask_loadable (st : jsval) : Prop :=
  exists n cs,
    Js.get st "n_cases" = Some n /\
    Js.get st "cases" = Some cs /\
    (n <> VUndef \/
     exists l, cs = VArr l /\ Forall (fun c => ~ nullish c) l).

Definition config_valid (config : jsval) : Prop :=
  type_accepted config /\
  exists sts, Js.get config "subtasks" = Some (VArr sts) /\
              Forall subtask_loadable sts.

(** An interactive problem, for the two revisions of the loader. *)
Definition interactive_config : jsval :=
  VObj [("type", VStr "interactive"); ("interactor", VStr "interactor.cpp");
        ("subtasks", VArr [VObj [("n_cases", VNum (Int 2))]])].


(** ** File names of generated cases, as the specification words them *)

(** [o.k], [undefined] when it cannot be read. *)
Definition field (o : jsval) (k : string) : jsval :=
  match Js.get o k with Some v => v | None => VUndef end.

(** What a subtask declares: a number of generated cases, or explicit cases. *)
Inductive declared : Type :=
| Generated (n_cases : Z)
| Explicit (cases : list jsval).

(** The shape of a subtask object. *)
Definition declares (st : jsval) (d : declared) : Prop :=
  match d with
  | Generated n => Js.get st "n_cases" = Some (VNum (Int n))
  | Explicit cs =>
      Js.get st "n_cases" = Some VUndef /\
      Js.get st "cases" = Some (VArr cs) /\
      Forall (fun c => ~ nullish c) cs
  end.

(** By how much a subtask advances the running case index. *)
Definition advance (d : declared) : Z :=
  match d with Generated n => n | Explicit _ => 0 end.

Definition total (ns : list Z) : Z := fold_right Z.add 0 ns.

(** The global index of the first generated case of subtask [j]: the index
    starts at 1 and advances across the subtasks before [j]. *)
Definition first_index (ds : list declared) (j : nat) : Z :=
  1 + total (map advance (take j ds)).

(** [`${prefix}${index}${suffix}`] *)
Definition templated (prefix suffix : jsval) (index : Z) : jsval :=
  VStr (Js.ToString prefix +:+ Js.dec index +:+ Js.ToString suffix).

(** Subtask, input file and output file of every case, subtask by subtask:
    for the generated case [k] in [0, n_cases) of subtask [j] the index is
    [first_index + k]; explicit cases keep the names they are given. *)
Definition templated_names (input_prefix input_suffix output_prefix output_suffix : jsval)
    (ds : list declared) : list (nat * jsval * jsval) :=
  concat (imap (fun j d =>
                  match d with
                  | Generated n =>
                      map (fun k =>
                             (j,
                              templated input_prefix input_suffix (first_index ds j + k),
                              templated output_prefix output_suffix (first_index ds j + k)))
                          (seqZ 0 (Z.of_nat (Z.to_nat n)))
                  | Explicit cs =>
                      map (fun c => (j, field c "input", field c "output")) cs
                  end)
               ds).

Definition case_names (c : case_item) : nat * jsval * jsval :=
  (subtask c, input c, output c).

(** Subtasks of two generated cases, one explicit case and three generated
    cases, with a prefix for the inputs. *)
Definition explicit_case : jsval :=
  VObj [("input", VStr "extra.in"); ("output", VStr "extra.out")].

Definition three_subtasks : jsval :=
  VObj [("input_prefix", VStr "t");
        ("subtasks", VArr [VObj [("n_cases", VNum (Int 2))];
                           VObj [("cases", VArr [explicit_case])];
                           VObj [("n_cases", VNum (Int 3))]])].

(** ** What a computation leaves in place *)

(** The component [f] of the world is what it was. *)
Definition keeps {A} (f : world -> A) (w w' : world) : Prop := f w' = f w.

(** The verdict cache is what it was, or it differs by a terminal verdict
    stored for [sid]. *)
Definition settles (sid : Z) (w w' : world) : Prop :=
  results w' = results w \/
  exists v, terminal v /\ results w' = <[sid := v]> (results w).

(** [s.endsWith(suffix)] *)
Fixpoint endsWith (s suffix : string) : bool :=
  String.eqb s suffix ||
  match s with
  | EmptyString => false
  | String _ s' => endsWith s' suffix
  end.

Fixpoint no_slash (s : string) : bool :=
  match s with
  | EmptyString => true
  | String c s' => negb (Ascii.eqb c "/"%char) && no_slash s'
  end.

(** A path segment [path.join] leaves alone: not empty, without a slash, and
    neither [.] nor [..]. *)
Definition plain_name (s : string) : bool :=
  no_slash s && negb (String.eqb s "") && negb (String.eqb s ".")
  && negb (String.eqb s "..").

(** [why] is the message with which reading and parsing the configuration
    at [path] fails: the file is absent, or js-yaml rejects its text. *)
Definition config_unreadable {E : Engine} (path : string) (w : world)
    (why : string) : Prop :=
  match fs_files w !! path with
  | None => why = "ENOENT: no such file or directory, open '" +:+ path +:+ "'"
  | Some txt => exists e, YAML_load txt = Throw e /\ why = message e
  end.

(** A [JSON.parse] that knows the text of one verdict, and an engine that
    reads with it. *)
Definition sample_parse (v : verdict) (txt : string) : outcome jsval :=
  if String.eqb txt (sample_stringify (verdict_to_js v)) then Ok (verdict_to_js v)
  else Throw (mkError "SyntaxError" "Unexpected token").

Definition reading_engine (v : verdict) : Engine :=
  {| problemsRoot := "problems";
     testlibPath := "/lib/testlib";
     submissionManager := sample_sm;
     YAML_load := sample_yaml;
     JSON_stringify := sample_stringify;
     JSON_parse := sample_parse v;
     StringToNumber := fun _ => NaN;
     gj_run := accepting_sandbox;
     gj_prepareProgram := fun _ _ _ => Ok sample_spec;
     gj_copyInChecker := fun _ => Ok (mkChecker "chk.bin" (Some ["chk.bin"]));
     gj_prepareChecker := fun _ _ => Ok (mkChecker "chk" (Some ["chk"])) |}.

(** A world in which submission 7 has been judged. *)
Definition judged_world : world :=
  mkWorld {[ "submissions/0/7/result.json" :=
               sample_stringify (verdict_to_js (Error "Error: no such problem")) ]}
          ∅ {[ 7 := Error "Error: no such problem" ]} [] 0 [] [].

(** ** Shapes of strings *)

(** Every character of [s] satisfies [p]. *)
Fixpoint string_forall (p : ascii -> bool) (s : string) : bool :=
  match s with
  | EmptyString => true
  | String c s' => p c && string_forall p s'
  end.

(** [s] starts with a character that satisfies [p]. *)
Definition starts_with (p : ascii -> bool) (s : string) : bool :=
  match s with
  | EmptyString => false
  | String c _ => p c
  end.

(** A string of ASCII characters.  On such a string the white space of
    [trim] and of [\s], and the letters [toLowerCase] changes, are those of
    the embedding. *)
Definition ascii_only (s : string) : bool :=
  string_forall (fun c => (Chars.code c <? 128)%N) s.

(** The counter file is absent, or holds ASCII text. *)
Definition plain_counter (sm : SubmissionManager) (w : world) : Prop :=
  match fs_files w !! counterFile sm with
  | Some txt => ascii_only txt = true
  | None => True
  end.

(** The world a sequence of [submit] calls leaves, one call after the other,
    whatever each of them returns or throws. *)
Fixpoint after_submits {E : Engine} (calls : list (string * string * jsval))
    (w : world) : world :=
  match calls with
  | [] => w
  | (pid, lang, code) :: rest =>
      after_submits rest (after (JudgeEngine.submit pid lang code w))
  end.

(** The sample problem with the directory of submission 1 in place, as
    intake leaves it. *)
Definition received_world (config : string) : world :=
  set_dirs (fun d => {["submissions/0/1"]} ∪ d) (problem_world config).

(** A limit that is not a number, or is one that is not negative. *)
Definition not_negative (x : number) : Prop :=
  match x with NaN => True | Int z => 0 <= z end.

(** ** Limits of a case, as the loader resolves them *)

(** [o.first || o.second || fallback] *)
Definition resolved (o : jsval) (first second : string) (fallback : jsval) : jsval :=
  Js.or (field o first) (Js.or (field o second) fallback).

Definition global_time (cfg : jsval) : jsval :=
  resolved cfg "time_limit" "time" (VStr "1s").

Definition global_memory (cfg : jsval) : jsval :=
  resolved cfg "memory_limit" "memory" (VStr "256m").

(** An explicit case that names no limit of its own. *)
Definition no_own_limit (c : jsval) : Prop :=
  Js.truthy (field c "time") = false /\ Js.truthy (field c "memory") = false.

(** The explicit cases of a subtask, if it lists any, name no limits. *)
Definition explicit_without_limits (st : jsval) : Prop :=
  forall cs, Js.get st "cases" = Some (VArr cs) -> Forall no_own_limit cs.

(** An object that names none of the four limit keys. *)
Definition names_no_limit (o : jsval) : Prop :=
  Js.truthy (field o "time_limit") = false /\ Js.truthy (field o "time") = false /\
  Js.truthy (field o "memory_limit") = false /\ Js.truthy (field o "memory") = false.

(** The limits of case [c] are those of its subtask in [sts], resolved
    against the global ones. *)
Definition inherits_limits (sts : list jsval) (globalTime globalMemory : jsval)
    (c : case_item) : Prop :=
  exists st, sts !! subtask c = Some st /\
             c_time c = resolved st "time_limit" "time" globalTime /\
             c_memory c = resolved st "memory_limit" "memory" globalMemory.

(** ** [src/utils.js]: [parseProblemConf] *)

(** [s.split(sep)] for a separator of one character. *)
Fixpoint split_on (sep : ascii) (s : string) : list string :=
  match s with
  | EmptyString => [EmptyString]
  | String c s' =>
      if Ascii.eqb c sep then EmptyString :: split_on sep s'
      else match split_on sep s' with
           | piece :: more => String c piece :: more
           | [] => [String c EmptyString]
           end
  end.

(** [s.split(/\s+/)]: the pieces between the maximal runs of white space,
    the empty pieces before a leading and after a trailing run included.
    [in_run] says that the character before was white space. *)
Fixpoint split_spaces (s : string) (in_run : bool) : list string :=
  match s with
  | EmptyString => [EmptyString]
  | String c s' =>
      if Chars.is_space c then
        if in_run then split_spaces s' true
        else EmptyString :: split_spaces s' true
      else match split_spaces s' false with
           | piece :: more => String c piece :: more
           | [] => [String c EmptyString]
           end
  end.

Definition newline : ascii := ascii_of_nat 10.

Definition is_hash (c : ascii) : bool := Ascii.eqb c "#"%char.

(** [conf[key] = value] on an object literal: an assignment to [__proto__]
    with a string goes to the setter of [Object.prototype], which ignores
    it, and adds no property. *)
Definition conf_set (key value : string) (conf : gmap string string)
    : gmap string string :=
  if String.eqb key "__proto__" then conf else <[key := value]> conf.

(** The body of the loop over the lines: [conf] after [line]. *)
Definition conf_line (conf : gmap string string) (line : string)
    : gmap string string :=
  let trimmed := trim line in
  if String.eqb trimmed "" || starts_with is_hash trimmed then conf
  else
    match split_spaces trimmed false with
    | key :: valueParts =>
        let value := Js.join " " valueParts in
        if negb (String.eqb key "") && negb (String.eqb value "")
        then conf_set (Chars.toLowerCase key) value conf
        else conf
    | [] => conf
    end.

(** The part of [parseProblemConf] after the file has been read. *)
Definition conf_of (content : string) : gmap string string :=
  fold_left conf_line (split_on newline content) ∅.

Definition parseProblemConf (confPath : string) : M (gmap string string) :=
  let* content := await (readFile confPath) in
  ret (conf_of content).

(** A word: at least one character, none of them white space. *)
Definition word (s : string) : Prop := s <> "" /\ no_space s = true.

(** The values of a setting as they stand in the line: each preceded by
    the white space that separates it from what comes before. *)
Fixpoint spaced (values : list (string * string)) : string :=
  match values with
  | [] => ""
  | (ws, value) :: more => ws +:+ value +:+ spaced more
  end.

Definition separated (values : list (string * string)) : Prop :=
  Forall (fun v => string_forall Chars.is_space (fst v) = true /\ fst v <> "" /\
                   word (snd v)) values.

(** ** [src/utils.js]: [findTestCases] *)

(** What [findTestCases] is built on: the directory listing of the file
    system and the collation of the runtime. *)
Class Host : Type := {
  (** [fs.readdir(dir)]: the names in [dir], in the order the system lists
      them *)
  readdir : string -> world -> outcome (list string);
  (** [a.localeCompare(b)] *)
  localeCompare : string -> string -> Z
}.

(** [s.slice(0, -n)] *)
Definition slice_end (s : string) (n : nat) : string :=
  substring 0 (String.length s - n) s.

(** A value of the map [testCases]: [{ input, output }], [output] being
    [null] until an answer file is found. *)
Record case_files : Type := mkCaseFiles {
  cf_input : string;
  cf_output : option string
}.

(** An element of [validCases]. *)
Record test_pair : Type := mkPair {
  baseName : string;
  pair_input : string;
  pair_output : string
}.

(** [testCases.set(k, v)]: a [Map] keeps its keys in insertion order, and a
    key that is set again keeps its place. *)
Fixpoint map_set (k : string) (v : case_files) (m : list (string * case_files))
    : list (string * case_files) :=
  match m with
  | [] => [(k, v)]
  | (k', v') :: rest =>
      if String.eqb k k' then (k, v) :: rest else (k', v') :: map_set k v rest
  end.

(** [if (testCases.has(k)) testCases.get(k).output = file] *)
Fixpoint set_output (k file : string) (m : list (string * case_files))
    : list (string * case_files) :=
  match m with
  | [] => []
  | (k', v') :: rest =>
      if String.eqb k k' then (k', mkCaseFiles (cf_input v') (Some file)) :: rest
      else (k', v') :: set_output k file rest
  end.

(** The first loop: the [.in] files. *)
Definition collect_inputs (files : list string) : list (string * case_files) :=
  fold_left (fun m file =>
               if endsWith file ".in"
               then map_set (slice_end file 3) (mkCaseFiles file None) m
               else m)
            files [].

(** The second loop: the [.ans] and [.out] files. *)
Definition collect_outputs (files : list string) (m : list (string * case_files))
    : list (string * case_files) :=
  fold_left (fun m file =>
               if endsWith file ".ans" || endsWith file ".out"
               then set_output (slice_end file 4) file m
               else m)
            files m.

(** The third loop: the entries that have both files. *)
Fixpoint validCases (m : list (string * case_files)) : list test_pair :=
  match m with
  | [] => []
  | (k, v) :: rest =>
      match cf_output v with
      | Some out =>
          if negb (String.eqb (cf_input v) "") && negb (String.eqb out "")
          then mkPair k (cf_input v) out :: validCases rest
          else validCases rest
      | None => validCases rest
      end
  end.

(** [Array.prototype.sort(cmp)]: the sort is stable, so that for a
    comparison that orders the elements consistently, as a collation does,
    the result is the one of this insertion sort. *)
Fixpoint insert_by {A} (cmp : A -> A -> Z) (x : A) (l : list A) : list A :=
  match l with
  | [] => [x]
  | y :: rest => if 0 <? cmp x y then y :: insert_by cmp x rest else x :: l
  end.

Definition sort_by {A} (cmp : A -> A -> Z) (l : list A) : list A :=
  fold_right (insert_by cmp) [] l.

Section FindTestCases.
Context {host : Host}.

(** The part of [findTestCases] after the directory has been listed. *)
Definition pair_files (files : list string) : list test_pair :=
  sort_by (fun a b => localeCompare (baseName a) (baseName b))
          (validCases (collect_outputs files (collect_inputs files))).

Definition findTestCases (dir : string) : M (list test_pair) :=
  let* files := await (fun w => (readdir dir w, w)) in
  ret (pair_files files).

End FindTestCases.

(** [file] is an answer file of the base name [k]. *)
Definition answers (k file : string) : bool :=
  String.eqb file (k +:+ ".ans") || String.eqb file (k +:+ ".out").

(** The answer file of [k] that is listed last. *)
Fixpoint answer_of (k : string) (files : list string) : option string :=
  match files with
  | [] => None
  | file :: rest =>
      match answer_of k rest with
      | Some out => Some out
      | None => if answers k file then Some file else None
      end
  end.

(** A listing of the sample problem's directory, in no particular order. *)
Definition sample_listing : list string :=
  ["b.out"; "b.in"; "a.in"; "notes.txt"; "b.ans"; "c.in"; "a.ans"].

Definition sample_host : Host :=
  {| readdir := fun _ _ => Ok sample_listing;
     localeCompare := fun a b => match String.compare a b with
                                 | Lt => -1 | Eq => 0 | Gt => 1
                                 end |}.

(** The answer file the second loop leaves in the entry [e] of the map. *)
Definition with_answer (files : list string) (e : string * case_files)
    : string * case_files :=
  (fst e,
   mkCaseFiles (cf_input (snd e))
     (match answer_of (fst e) files with
      | Some out => Some out
      | None => cf_output (snd e)
      end)).

(** [l] is in the order of [cmp]: no element has to come after a later one. *)
Fixpoint ordered {A} (cmp : A -> A -> Z) (l : list A) : Prop :=
  match l with
  | [] => True
  | x :: rest => Forall (fun y => cmp x y <= 0) rest /\ ordered cmp rest
  end.

(** ** [ProblemSetter]: setting a problem up from an upload without
    [config.yaml] *)

(** What [ProblemSetter] is built on besides the loader: the directory
    listing, the collation, and [YAML.dump] of js-yaml. *)
Class Setter : Type := {
  setter_host :: Host;
  YAML_dump : jsval -> outcome string
}.

(** [path.dirname(p)] of a path in normal form. *)
Fixpoint dirname_from (s seen : string) (dir : option string) : option string :=
  match s with
  | EmptyString => dir
  | String c s' =>
      if Ascii.eqb c "/"%char
      then dirname_from s' (seen +:+ String c "") (Some seen)
      else dirname_from s' (seen +:+ String c "") dir
  end.

Definition dirname (p : string) : string :=
  match dirname_from p "" None with
  | None => "."
  | Some EmptyString => "/"
  | Some dir => dir
  end.

(** [ensureDir(dirPath)] *)
Definition ensureDir (dirPath : string) : M unit := await (mkdir dirPath).

(** [fs.copyFile(src, dest)] *)
Definition fs_copyFile (src dest : string) (w : world) : outcome unit * world :=
  match fs_files w !! src with
  | Some data => (Ok tt, set_files (insert dest data) w)
  | None => (Throw (Error_ ("ENOENT: no such file or directory, copyfile '" +:+ src
                            +:+ "' -> '" +:+ dest +:+ "'")), w)
  end.

(** [ProblemSetter.copyFile(src, dest)] *)
Definition copyFile (src dest : string) : M unit :=
  ensureDir (dirname dest) ;;
  await (fs_copyFile src dest).

(** [conf.a || conf.b] on the parsed [problem.conf]. *)
Definition conf_or (a b : option string) : option string := or_string a b.

(** The limits and the mode [setFreeMode] takes from [problem.conf]. *)
Definition free_limits (conf : gmap string string) : string * string * string :=
  let mode := match conf !! "interaction_mode" with
              | Some v => if String.eqb v "on" then "interactive" else "default"
              | None => "default"
              end in
  let timeLimit := match conf_or (conf !! "time_limit") (conf !! "timelimit") with
                   | Some timeSec => timeSec +:+ "s"
                   | None => "2s"
                   end in
  let memoryLimit :=
    match conf_or (conf !! "memory_limit")
                  (conf_or (conf !! "memorylimit") (conf !! "memory")) with
    | Some memMB => memMB +:+ "m"
    | None => "512m"
    end in
  (timeLimit, memoryLimit, mode).

Definition checker_candidates : list string :=
  ["checker.cpp"; "checker.cc"; "chk.cpp"; "chk.cc"].

Definition interactor_candidates : list string :=
  ["interactor.cpp"; "interactor.cc"].

(** The loops over the candidates: the first name that exists in [dir]. *)
Fixpoint first_existing (dir : string) (names : list string) : M (option string) :=
  match names with
  | [] => ret None
  | fname :: rest =>
      let* found := await (fileExists (path_join dir fname)) in
      if found : bool then ret (Some fname) else first_existing dir rest
  end.

(** The first of [names] that is a file of [dir] in the world [w]. *)
Definition first_present (dir : string) (w : world) (names : list string)
    : option string :=
  List.find (fun fname => bool_decide (is_Some (fs_files w !! path_join dir fname)))
            names.

(** A name that may be [undefined]. *)
Definition opt_name (x : option string) : jsval :=
  match x with Some s => VStr s | None => VUndef end.

(** The configuration [setFreeMode] generates. *)
Definition free_config (mode timeLimit memoryLimit : string)
    (checker_name interactor_name : option string) (n : nat) : jsval :=
  VObj [("type", VStr mode);
        ("time_limit", VStr timeLimit);
        ("memory_limit", VStr memoryLimit);
        ("checker", opt_name checker_name);
        ("interactor", opt_name interactor_name);
        ("input_prefix", VStr "");
        ("output_prefix", VStr "");
        ("input_suffix", VStr ".in");
        ("output_suffix", VStr ".ans");
        ("subtasks", VArr [VObj [("score", VNum (Int 100));
                                 ("n_cases", VNum (Int (Z.of_nat n)))]])].

(** What [setFreeMode] returns. *)
Record free_result : Type := mkFreeResult {
  fr_mode : string;
  fr_targetDir : string;
  fr_testCases : Z;
  fr_timeLimit : string;
  fr_memoryLimit : string
}.

Section ProblemSetter.
Context {setter : Setter}.
Variables (dataDir tarDir : string).

(** The loop that copies and renames the test cases, from index [i] on. *)
Fixpoint copy_cases (testdataDir : string) (testCases : list test_pair) (i : Z)
    : M unit :=
  match testCases with
  | [] => ret tt
  | testCase :: rest =>
      let newIndex := i + 1 in
      copyFile (path_join dataDir (pair_input testCase))
               (path_join testdataDir (Js.dec newIndex +:+ ".in")) ;;
      copyFile (path_join dataDir (pair_output testCase))
               (path_join testdataDir (Js.dec newIndex +:+ ".ans")) ;;
      copy_cases testdataDir rest (i + 1)
  end.

(** The loop over [otherFiles]. *)
Fixpoint copy_others (otherFiles : list string) : M unit :=
  match otherFiles with
  | [] => ret tt
  | file :: rest =>
      let srcPath := path_join dataDir file in
      let* found := await (fileExists srcPath) in
      (if found : bool then copyFile srcPath (path_join tarDir file) else ret tt) ;;
      copy_others rest
  end.

(** [[...].filter(f => f)] on names that may be [undefined] *)
Definition defined_names (names : list (option string)) : list string :=
  omap (fun x => match x with
                 | Some s => if String.eqb s "" then None else Some s
                 | None => None
                 end) names.

Definition setFreeMode : M free_result :=
  let confPath := path_join dataDir "problem.conf" in
  let* has_conf := await (fileExists confPath) in
  let* '(timeLimit, memoryLimit, mode) :=
    (if has_conf : bool
     then let* conf := parseProblemConf confPath in ret (free_limits conf)
     else ret ("2s", "512m", "default")) in
  let* checker_name := first_existing dataDir checker_candidates in
  (if match checker_name with None => true | Some s => String.eqb s "" end
      && String.eqb mode "default"
   then throw (Error_ ("No checker source file found (expected one of: "
                       +:+ Js.join ", " checker_candidates +:+ ")"))
   else ret tt) ;;
  let* interactor_name := first_existing dataDir interactor_candidates in
  (if String.eqb mode "interactive"
      && match interactor_name with None => true | Some s => String.eqb s "" end
   then throw (Error_ ("Interactive mode requires an interactor source file (expected one of: "
                       +:+ Js.join ", " interactor_candidates +:+ ")"))
   else ret tt) ;;
  let* testCases := findTestCases dataDir in
  (if (length testCases =? 0)%nat
   then throw (Error_ "No matching test case pairs found")
   else ret tt) ;;
  let testdataDir := path_join tarDir "testdata" in
  ensureDir testdataDir ;;
  copy_cases testdataDir testCases 0 ;;
  let config := free_config mode timeLimit memoryLimit checker_name interactor_name
                  (length testCases) in
  let configPath := path_join tarDir "config.yaml" in
  let* text := lift (YAML_dump config) in
  await (writeFile configPath (VStr text)) ;;
  copy_others (defined_names [Some "checker.cpp"; Some "statement.txt";
                              checker_name; interactor_name]) ;;
  ret (mkFreeResult "free" tarDir (Z.of_nat (length testCases)) timeLimit memoryLimit).

End ProblemSetter.

(** The limits and the mode [setFreeMode] works with in the world [w]. *)
Definition limits_at (dataDir : string) (w : world) : string * string * string :=
  match fs_files w !! path_join dataDir "problem.conf" with
  | Some content => free_limits (conf_of content)
  | None => ("2s", "512m", "default")
  end.

(** The cases the loader generates for [n] numbered test cases. *)
Definition numbered_cases (n : nat) (timeLimit memoryLimit : string) : list case_item :=
  map (fun k => mkCase 0 (VStr (Js.dec k +:+ ".in")) (VStr (Js.dec k +:+ ".ans"))
                       (VStr timeLimit) (VStr memoryLimit))
      (seqZ 1 (Z.of_nat n)).

(** An upload with two complete test cases, a checker, an interactor and a
    [problem.conf]; a YAML writer and a YAML reader that know the
    configuration generated for it. *)
Definition upload_listing : list string :=
  ["b.out"; "b.in"; "a.in"; "notes.txt"; "b.ans"; "c.in"; "a.ans"; "chk.cc";
   "interactor.cc"; "problem.conf"].

Definition upload_files : gmap string string :=
  list_to_map
    [("upload/b.out", "old 4"); ("upload/b.in", "2 2"); ("upload/a.in", "1 2");
     ("upload/notes.txt", "two cases"); ("upload/b.ans", "4"); ("upload/c.in", "9");
     ("upload/a.ans", "3"); ("upload/chk.cc", "#include <testlib.h>");
     ("upload/interactor.cc", "int main() {}");
     ("upload/problem.conf", "time_limit 3")].

Definition upload_world : world := mkWorld upload_files ∅ ∅ [] 0 [] [].

Definition upload_host : Host :=
  {| readdir := fun _ _ => Ok upload_listing;
     localeCompare := fun a b => match String.compare a b with
                                 | Lt => -1 | Eq => 0 | Gt => 1
                                 end |}.

Definition sample_dump (config : jsval) : outcome string := Ok "generated".

Definition sample_setter : Setter :=
  {| setter_host := upload_host; YAML_dump := sample_dump |}.

Definition upload_config : jsval :=
  free_config "default" "3s" "512m" (Some "chk.cc") (Some "interactor.cc") 2.

Definition upload_engine : Engine :=
  sample_engine (fun txt => if String.eqb txt "generated" then Ok upload_config
                            else Throw (mkError "YAMLException" "bad indentation"))
                accepting_sandbox.

(** * Properties *)

(** ** Unit conversion *)

Example toNs_default_unit : toNs (VStr "2") = Int 2000000000.
Proof. reflexivity. Qed.

Example toNs_no_match : toNs (VStr "fast") = Int 0.
Proof. reflexivity. Qed.

Example toNs_rounds_half_up : toNs (VStr "0.0000000005") = Int 1.
Proof. reflexivity. Qed.

Example toBytes_kilo : toBytes (VStr "64 K") = Int 65536.
Proof. reflexivity. Qed.

Example toBytes_undefined : toBytes VUndef = Int 0.
Proof. reflexivity. Qed.

(** C9. The unit conversions satisfy the concrete equations of the
    specification: [toNs("1.5s") = 1500000000], [toNs("250ms") = 250000000],
    [toBytes("256m") = 256 * 2^20], [toBytes("1g") = 2^30],
    [toBytes("500") = 500]; and a numeric argument is returned unchanged by
    both functions.  (All five products are exact on doubles, so the exact
    decimal arithmetic of the embedding is the arithmetic of the program.) *)
Theorem unit_parsing :
  toNs (VStr "1.5s") = Int 1500000000 /\
  toNs (VStr "250ms") = Int 250000000 /\
  toBytes (VStr "256m") = Int (256 * 2 ^ 20) /\
  toBytes (VStr "1g") = Int (2 ^ 30) /\
  toBytes (VStr "500") = Int 500 /\
  (forall x : number, toNs (VNum x) = x /\ toBytes (VNum x) = x).
Proof.
  repeat split; reflexivity.
Qed.

(** ** Decimal spelling and [parseInt] *)

Section Decimal.
Import DecimalPos.Unsigned.

Lemma digits_value_string_of_uint (d d' : Decimal.uint) :
  Chars.digits_value (NilEmpty.string_of_uint d) (of_lu d') = of_lu (Decimal.revapp d d').
Proof.
  revert d'. induction d; intros d'; simpl; try reflexivity.
  all: rewrite <- IHd; f_equal; simpl of_lu; unfold Chars.digit; simpl; lia.
Qed.

Lemma digits_value_uint (d : Decimal.uint) :
  Chars.digits_value (NilEmpty.string_of_uint d) 0 = Pos.of_uint d.
Proof.
  rewrite of_uint_alt. apply (digits_value_string_of_uint d Decimal.Nil).
Qed.

(** The spelling of a positive number starts with a digit. *)
Lemma parse_unsigned (d : Decimal.uint) :
  d <> Decimal.Nil ->
  parseInt (NilEmpty.string_of_uint d) = Int (Z.of_N (Pos.of_uint d)) /\
  parseInt (String "-" (NilEmpty.string_of_uint d)) = Int (- Z.of_N (Pos.of_uint d)).
Proof.
  intros Hd. rewrite <- digits_value_uint.
  destruct d; try congruence; split; reflexivity.
Qed.

(** [parseInt(String(z), 10) = z] *)
Lemma parseInt_dec (z : Z) : parseInt (Js.dec z) = Int z.
Proof.
  destruct z as [|p|p]; [reflexivity| |].
  - unfold Js.dec; simpl.
    pose proof (to_uint_nonnil p) as Hn.
    unfold NilZero.string_of_uint.
    destruct (Pos.to_uint p) eqn:Hp; try congruence;
      rewrite (proj1 (parse_unsigned _ Hn)), <- Hp, of_to; reflexivity.
  - unfold Js.dec; simpl.
    pose proof (to_uint_nonnil p) as Hn.
    unfold NilZero.string_of_uint.
    destruct (Pos.to_uint p) eqn:Hp; try congruence;
      rewrite (proj2 (parse_unsigned _ Hn)), <- Hp, of_to; reflexivity.
Qed.

Lemma no_space_uint (d : Decimal.uint) : no_space (NilEmpty.string_of_uint d) = true.
Proof. induction d; simpl; auto. Qed.

Lemma no_space_dec (z : Z) : no_space (Js.dec z) = true.
Proof.
  destruct z as [|p|p]; [reflexivity| |]; unfold Js.dec; simpl;
    unfold NilZero.string_of_uint; destruct (Pos.to_uint p) eqn:Hp;
    try reflexivity; rewrite <- Hp; simpl; apply no_space_uint.
Qed.
End Decimal.

Lemma trimEnd_no_space (s : string) : no_space s = true -> trimEnd s = s.
Proof.
  induction s as [|c s IH]; simpl; [reflexivity|].
  intros [Hc Hs]%andb_prop. rewrite (IH Hs).
  destruct s; [|reflexivity].
  destruct (Chars.is_space c); [discriminate|reflexivity].
Qed.

Lemma drop_while_no_space (s : string) :
  no_space s = true -> Chars.drop_while Chars.is_space s = s.
Proof.
  destruct s as [|c s]; simpl; [reflexivity|].
  intros [Hc _]%andb_prop. destruct (Chars.is_space c); [discriminate|reflexivity].
Qed.

Lemma trim_dec (z : Z) : trim (Js.dec z) = Js.dec z.
Proof.
  unfold trim. rewrite drop_while_no_space, trimEnd_no_space; auto using no_space_dec.
Qed.

Example parseInt_prefix : parseInt " 42abc" = Int 42.
Proof. reflexivity. Qed.

Example parseInt_garbage : parseInt "abc" = NaN.
Proof. reflexivity. Qed.

Example dec_negative : Js.dec (-17) = "-17".
Proof. reflexivity. Qed.

(** ** Paths *)

Lemma last_char_app (a : string) (c : ascii) (b : string) :
  last_char (a +:+ String c b) = last_char (String c b).
Proof.
  induction a as [|x a IH]; [reflexivity|].
  change (String x a +:+ String c b) with (String x (a +:+ String c b)).
  simpl last_char at 1. rewrite IH.
  destruct a; reflexivity.
Qed.

Lemma last_char_path_join (a b : string) :
  b <> "" -> last_char (path_join a b) = last_char b.
Proof.
  intros Hb. unfold path_join.
  change ("/" +:+ b) with (String "/" b). rewrite last_char_app.
  destruct b; [congruence|reflexivity].
Qed.

(** The files [submit] and the workers write are not the counter file. *)
Lemma counterFile_not_in_subDir (sm : SubmissionManager) (subDir file : string) :
  file <> "" -> last_char file <> Some "t"%char ->
  path_join subDir file <> counterFile sm.
Proof.
  intros Hne Hl Heq. apply (f_equal last_char) in Heq.
  unfold counterFile in Heq. rewrite !last_char_path_join in Heq by congruence.
  simpl in Heq. congruence.
Qed.

(** ** Id allocation *)

Lemma nextSubmissionId_run (sm : SubmissionManager) (w : world) :
  nextSubmissionId sm w =
    (Ok (counter_value sm w + 1),
     set_files (insert (counterFile sm) (Js.dec (counter_value sm w + 1))) w,
     [w; w]).
Proof.
  unfold nextSubmissionId, counter_value, bind, try_catch, await, readFile, ret, writeFile.
  destruct (fs_files w !! counterFile sm) as [txt|]; simpl; reflexivity.
Qed.

Lemma counter_value_written (sm : SubmissionManager) (w : world) (z : Z) :
  fs_files w !! counterFile sm = Some (Js.dec z) -> counter_value sm w = z.
Proof.
  intros H. unfold counter_value. rewrite H, trim_dec, parseInt_dec. reflexivity.
Qed.

Lemma allocate_run (sm : SubmissionManager) (k : nat) (w : world) :
  value (allocate sm k w) = Ok (seqZ (counter_value sm w + 1) (Z.of_nat k)) /\
  counter_value sm (after (allocate sm k w)) = counter_value sm w + Z.of_nat k.
Proof.
  revert w. induction k as [|k IH]; intros w.
  - split; [reflexivity|]. unfold after; simpl. lia.
  - cbn [allocate]. unfold bind. rewrite nextSubmissionId_run.
    set (w1 := set_files _ w).
    assert (Hc : counter_value sm w1 = counter_value sm w + 1).
    { apply counter_value_written. unfold w1; simpl. apply lookup_insert_eq. }
    destruct (IH w1) as [Hv Ha]. unfold value, after in Hv, Ha.
    destruct (allocate sm k w1) as [[r w2] t]; simpl in Hv, Ha.
    subst r. unfold ret, value, after; simpl. split.
    + rewrite Hc. rewrite (seqZ_cons (counter_value sm w + 1)) by lia.
      do 3 f_equal; lia.
    + rewrite Ha. lia.
Qed.

Section Allocation.
Context {E : Engine}.
Import JudgeEngine.

Local Arguments Js.dec : simpl never.
Local Arguments path_join : simpl never.
Local Arguments Z.mul : simpl never.
Local Arguments Z.leb : simpl never.

(** A [submit] that returns has taken the next id and left it in the
    counter file. *)
Lemma submit_sid (pid lang : string) (code : jsval) (w : world) (sid : Z) :
  value (submit pid lang code w) = Ok sid ->
  sid = counter_value submissionManager w + 1 /\
  counter_value submissionManager (after (submit pid lang code w)) = sid.
Proof.
  unfold submit, bind. rewrite nextSubmissionId_run.
  unfold results_set, queue_push, modify, await, mkdir, gets, ret, writeFile,
    submissionPaths, value, after.
  simpl.
  destruct (1024 * 512 <=? _); simpl.
  - destruct code; simpl; intros H; inversion H; subst; clear H.
    split; [reflexivity|]. apply counter_value_written. simpl.
    rewrite !lookup_insert_ne by (apply counterFile_not_in_subDir; cbv; congruence).
    apply lookup_insert_eq.
  - intros H; inversion H; subst; clear H.
    split; [reflexivity|]. apply counter_value_written. simpl.
    rewrite !lookup_insert_ne by (apply counterFile_not_in_subDir; cbv; congruence).
    apply lookup_insert_eq.
Qed.

(** Every [submit] call takes the next id, whether it returns it or throws
    later: the counter file holds it afterwards. *)
Lemma submit_counter (pid lang : string) (code : jsval) (w : world) :
  fs_files (after (submit pid lang code w)) !! counterFile submissionManager
    = Some (Js.dec (counter_value submissionManager w + 1)).
Proof.
  unfold submit, bind. rewrite nextSubmissionId_run.
  unfold results_set, queue_push, modify, await, mkdir, gets, ret, writeFile,
    submissionPaths, value, after.
  simpl.
  destruct (1024 * 512 <=? _); simpl.
  - destruct code; simpl;
      rewrite ?lookup_insert_ne by (apply counterFile_not_in_subDir; cbv; congruence);
      apply lookup_insert_eq.
  - rewrite !lookup_insert_ne by (apply counterFile_not_in_subDir; cbv; congruence).
    apply lookup_insert_eq.
Qed.

Lemma after_submits_counter (calls : list (string * string * jsval)) (w : world) :
  counter_value submissionManager (after_submits calls w)
    = counter_value submissionManager w + Z.of_nat (length calls).
Proof.
  revert w. induction calls as [|[[pid lang] code] calls IH]; intros w.
  - simpl. lia.
  - cbn [after_submits length]. rewrite IH.
    rewrite (counter_value_written _ _ _ (submit_counter pid lang code w)). lia.
Qed.

(** At the spill threshold, [submit] writes the code to [source.code] after
    it has taken the id and enqueued the job: code that is not a string makes
    the call throw there. *)
Lemma submit_spill_run (pid lang : string) (code : jsval) (w : world) :
  1024 * 512 <= Z.of_nat (length (queue w)) ->
  value (submit pid lang code w)
    = match code with
      | VStr _ => Ok (counter_value submissionManager w + 1)
      | _ => Throw invalid_data
      end /\
  length (queue (after (submit pid lang code w))) = S (length (queue w)).
Proof.
  intros Hfull. apply Z.leb_le in Hfull.
  unfold submit, bind. rewrite nextSubmissionId_run.
  unfold results_set, queue_push, modify, await, mkdir, gets, ret, writeFile,
    submissionPaths, value, after.
  simpl. rewrite Hfull. simpl.
  destruct code; simpl; rewrite length_app; simpl; split; first [reflexivity|lia].
Qed.

End Allocation.

(** C6, as stated, fails: a [submit] call that throws after it has taken its
    id (at the spill threshold, with code that is not a string) leaves a gap
    between the ids of the successful calls before and after it. *)
Lemma failed_submit_takes_an_id :
  let E := sample_E in
  let A := JudgeEngine.submit "A" "cpp" (VStr "int main(){}") busy_world in
  let X := JudgeEngine.submit "A" "cpp" (VNum (Int 5)) (after A) in
  let B := JudgeEngine.submit "A" "cpp" (VStr "int main(){}") (after X) in
  value A = Ok 1 /\ value X = Throw invalid_data /\ value B = Ok 3.
Proof.
  intros E A X B.
  assert (Hfull : 1024 * 512 <= Z.of_nat (length (queue busy_world))).
  { unfold busy_world, set_queue. cbn [queue].
    rewrite length_replicate, Z2Nat.id; lia. }
  destruct (submit_spill_run "A" "cpp" (VStr "int main(){}") busy_world Hfull)
    as [HA HlenA].
  fold A in HA, HlenA.
  assert (HfullA : 1024 * 512 <= Z.of_nat (length (queue (after A)))) by lia.
  destruct (submit_spill_run "A" "cpp" (VNum (Int 5)) (after A) HfullA) as [HX HlenX].
  fold X in HX, HlenX.
  assert (HfullX : 1024 * 512 <= Z.of_nat (length (queue (after X)))) by lia.
  destruct (submit_spill_run "A" "cpp" (VStr "int main(){}") (after X) HfullX)
    as [HB _].
  fold B in HB.
  assert (H0 : counter_value submissionManager busy_world = 0) by reflexivity.
  assert (H1 : counter_value submissionManager (after A) = 1).
  { apply counter_value_written. unfold A. rewrite submit_counter, H0. reflexivity. }
  assert (H2 : counter_value submissionManager (after X) = 2).
  { apply counter_value_written. unfold X. rewrite submit_counter, H1. reflexivity. }
  rewrite HA, HX, HB, H0, H2. repeat split.
Qed.

(** C6, amended. Let [submit] call A return its id from a counter file that
    is absent or holds ASCII text, and let call B start in a world whose
    counter file is what [calls], a sequence of further [submit] calls run
    one after the other from the world A leaves, have left; the calls may
    return or throw.  Within the integers that are exact on doubles, B
    returns the id of A plus one plus the number of calls in between: the
    ids of A and B are consecutive when no call ran between them, and every
    call in between, failed or not, takes one id.  After [resetCounter] the
    ids allocated are 1, 2, ..., k, the first one being 1; an absent counter
    file counts as 0, and so does ASCII text that [parseInt] does not read
    as a number. *)
Theorem sid_allocation {E : Engine} (w w' : world)
    (pidA langA : string) (codeA : jsval) (calls : list (string * string * jsval))
    (pidB langB : string) (codeB : jsval) (sidA sidB : Z) :
  let sm := submissionManager in
  let A := JudgeEngine.submit pidA langA codeA w in
  plain_counter sm w ->
  value A = Ok sidA ->
  fs_files w' !! counterFile sm
    = fs_files (after_submits calls (after A)) !! counterFile sm ->
  value (JudgeEngine.submit pidB langB codeB w') = Ok sidB ->
  - 2 ^ 53 < sidA -> sidA + Z.of_nat (length calls) < 2 ^ 53 ->
  sidB = sidA + 1 + Z.of_nat (length calls)
  /\ (forall (sm : SubmissionManager) (w0 : world) (k : nat),
        Z.of_nat k < 2 ^ 53 ->
        value (allocate sm k (after (resetCounter sm w0))) = Ok (seqZ 1 (Z.of_nat k)))
  /\ (forall (sm : SubmissionManager) (w0 : world),
        value (nextSubmissionId sm (after (resetCounter sm w0))) = Ok 1)
  /\ (forall (sm : SubmissionManager) (w0 : world),
        fs_files w0 !! counterFile sm = None ->
        value (nextSubmissionId sm w0) = Ok 1)
  /\ (forall (sm : SubmissionManager) (w0 : world) (txt : string),
        fs_files w0 !! counterFile sm = Some txt ->
        ascii_only txt = true ->
        parseInt (trim txt) = NaN ->
        value (nextSubmissionId sm w0) = Ok 1).
Proof.
  intros sm A _ HA Hsame HB _ _. subst sm A.
  assert (Hreset : forall sm w0, counter_value sm (after (resetCounter sm w0)) = 0).
  { intros sm0 w0. apply (counter_value_written sm0 _ 0).
    unfold resetCounter, await, writeFile, after; simpl. apply lookup_insert_eq. }
  repeat split.
  - apply submit_sid in HA as [_ HA]. apply submit_sid in HB as [HB _].
    assert (Hc : counter_value submissionManager w'
                 = counter_value submissionManager
                     (after_submits calls (after (JudgeEngine.submit pidA langA codeA w)))).
    { unfold counter_value. rewrite Hsame. reflexivity. }
    rewrite Hc, after_submits_counter in HB. lia.
  - intros sm0 w0 k _. rewrite (proj1 (allocate_run sm0 k _)), Hreset. reflexivity.
  - intros sm0 w0. rewrite nextSubmissionId_run, Hreset. reflexivity.
  - intros sm0 w0 Hnone. rewrite nextSubmissionId_run.
    unfold counter_value. rewrite Hnone. reflexivity.
  - intros sm0 w0 txt Hsome _ Hnan. rewrite nextSubmissionId_run.
    unfold counter_value. rewrite Hsome, Hnan. reflexivity.
Qed.

Lemma sid_allocation_witness :
  let E := sample_engine no_yaml accepting_sandbox in
  value (JudgeEngine.submit "A" "cpp" (VStr "int main(){}") empty_world) = Ok 1 /\
  value (JudgeEngine.submit "B" "py" (VStr "print(1)")
           (after (JudgeEngine.submit "A" "cpp" (VStr "int main(){}") empty_world))) = Ok 2 /\
  2 = 1 + 1 + 0.
Proof.
  intros E.
  assert (HA : value (JudgeEngine.submit "A" "cpp" (VStr "int main(){}") empty_world) = Ok 1)
    by (vm_compute; reflexivity).
  assert (HB : value (JudgeEngine.submit "B" "py" (VStr "print(1)")
           (after (JudgeEngine.submit "A" "cpp" (VStr "int main(){}") empty_world))) = Ok 2)
    by (vm_compute; reflexivity).
  split; [exact HA|]. split; [exact HB|].
  exact (proj1 (sid_allocation empty_world
                  (after (JudgeEngine.submit "A" "cpp" (VStr "int main(){}") empty_world))
                  "A" "cpp" (VStr "int main(){}") []
                  "B" "py" (VStr "print(1)") 1 2 I HA eq_refl HB
                  ltac:(lia) ltac:(simpl; lia))).
Defined.

(** ** The verdict cache *)

(** C1, as stated, fails: reading a [Queued] entry removes it from the map,
    like any other entry. *)
Lemma queued_read_consumes :
  value (JudgeEngine.getResult (E := sample_E) 1 queued_world)
    = Ok (verdict_to_js Queued) /\
  results queued_world !! 1 = Some Queued /\
  results (after (JudgeEngine.getResult (E := sample_E) 1 queued_world)) !! 1 = None.
Proof. vm_compute. repeat split; reflexivity. Qed.

(** The run of [getResult]: from the cache when the entry is there, from the
    disk otherwise. *)
Lemma getResult_run {E : Engine} (w : world) (sid : Z) :
  JudgeEngine.getResult sid w =
    match results w !! sid with
    | Some v => (Ok (verdict_to_js v), set_results (delete sid) w, [])
    | None =>
        (Ok (match fs_files w !! result_json sid with
             | Some txt => match JSON_parse txt with Ok j => j | Throw _ => VNull end
             | None => VNull
             end), w, [w])
    end.
Proof.
  unfold JudgeEngine.getResult, result_json, bind, gets, modify, ret.
  destruct (results w !! sid) as [v|]; simpl; [reflexivity|].
  unfold try_catch, submissionPaths, bind, await, readFile, lift. simpl.
  destruct (fs_files w !! _) as [txt|]; simpl; [|reflexivity].
  destruct (JSON_parse txt); reflexivity.
Qed.

(** C1, amended. A read that finds an in-memory entry, whatever its state
    ([Queued], [Done] or [Error]), returns it and removes it from the map; a
    read that finds none leaves the world as it is and answers from
    [result.json], with [null] when the file is absent or does not parse. *)
Theorem getResult_consumes {E : Engine} (w : world) (sid : Z) :
  match results w !! sid with
  | Some v =>
      value (JudgeEngine.getResult sid w) = Ok (verdict_to_js v) /\
      after (JudgeEngine.getResult sid w) = set_results (delete sid) w /\
      results (after (JudgeEngine.getResult sid w)) !! sid = None
  | None =>
      after (JudgeEngine.getResult sid w) = w /\
      value (JudgeEngine.getResult sid w) =
        Ok (match fs_files w !! result_json sid with
            | Some txt => match JSON_parse txt with Ok j => j | Throw _ => VNull end
            | None => VNull
            end)
  end.
Proof.
  rewrite getResult_run.
  destruct (results w !! sid) as [v|]; unfold value, after; simpl.
  - repeat split. apply lookup_delete_eq.
  - split; reflexivity.
Qed.

(** Consume-once: after a read from the cache, the next read of the same id
    is answered from the disk. *)
Lemma getResult_second_read {E : Engine} (w : world) (sid : Z) (v : verdict) :
  results w !! sid = Some v ->
  let w1 := after (JudgeEngine.getResult sid w) in
  after (JudgeEngine.getResult sid w1) = w1 /\
  value (JudgeEngine.getResult sid w1) =
    Ok (match fs_files w !! result_json sid with
        | Some txt => match JSON_parse txt with Ok j => j | Throw _ => VNull end
        | None => VNull
        end).
Proof.
  intros Hv w1.
  assert (Hw : w1 = set_results (delete sid) w).
  { unfold w1. rewrite getResult_run, Hv. reflexivity. }
  rewrite getResult_run.
  replace (results w1 !! sid) with (@None verdict)
    by (rewrite Hw; simpl; symmetry; apply lookup_delete_eq).
  unfold value, after; simpl. split; [reflexivity|]. rewrite Hw. reflexivity.
Qed.

(** ** Intake: what a worker can see while [submit] runs *)

Section Intake.
Context {E : Engine}.
Import JudgeEngine.

Local Arguments Js.dec : simpl never.
Local Arguments path_join : simpl never.
Local Arguments Z.mul : simpl never.
Local Arguments Z.leb : simpl never.

(** C4, as stated, fails: the fifth suspension point of a [submit] on an idle
    engine shows the job in the queue, where a worker's [queue.shift()] takes
    it, while [meta.json] does not exist; the file is there once [submit] has
    returned. *)
Lemma job_visible_before_meta :
  exists w' : world,
    suspensions (submit (E := sample_E) "A" "cpp" (VStr "int main(){}") empty_world)
      !! 4%nat = Some w' /\
    queue w' = [mkJob 1 "A" "cpp" (VStr "int main(){}")] /\
    value (queue_shift w') = Ok (Some (mkJob 1 "A" "cpp" (VStr "int main(){}"))) /\
    fs_files w' !! "submissions/0/1/meta.json" = None /\
    is_Some (fs_files (after (submit (E := sample_E) "A" "cpp" (VStr "int main(){}")
                                empty_world))
               !! "submissions/0/1/meta.json").
Proof.
  eexists. split; [vm_compute; reflexivity|].
  repeat split; try (vm_compute; reflexivity).
  vm_compute. eexists. reflexivity.
Qed.

(** C4, amended. At every point at which [submit] is suspended, and when it
    has finished, either the job is not in the queue yet or it is the last
    entry and the bucket and submission directories exist; and there is a
    suspension point at which the job is in the queue while [meta.json] is
    still as it was before the call: the file is written after the job has
    been enqueued, not before. *)
Theorem submit_visibility (w : world) (pid lang : string) (code : jsval) :
  let sid := counter_value submissionManager w + 1 in
  let bucketDir := fst (submissionPaths submissionManager sid) in
  let subDir := snd (submissionPaths submissionManager sid) in
  let run := submit pid lang code w in
  (forall w' : world,
      w' ∈ suspensions run ++ [after run] ->
      queue w' = queue w \/
      ((exists c, queue w' = queue w ++ [mkJob sid pid lang c]) /\
       bucketDir ∈ fs_dirs w' /\ subDir ∈ fs_dirs w'))
  /\ (exists w' : world,
        w' ∈ suspensions run /\
        (exists c, queue w' = queue w ++ [mkJob sid pid lang c]) /\
        fs_files w' !! path_join subDir "meta.json"
          = fs_files w !! path_join subDir "meta.json").
Proof.
  intros sid bucketDir subDir run. subst run.
  unfold submit, bind. rewrite nextSubmissionId_run. fold sid.
  unfold results_set, queue_push, modify, await, mkdir, gets, ret, writeFile,
    suspensions, after.
  subst bucketDir subDir. unfold submissionPaths. simpl.
  assert (Hmeta : forall d,
    path_join d "meta.json" <> counterFile submissionManager)
    by (intros d; apply counterFile_not_in_subDir; cbv; congruence).
  destruct (1024 * 512 <=? _); [destruct code|]; simpl.
  all: split;
    [ intros w' H;
      repeat (apply elem_of_cons in H as [-> | H]);
      try (apply elem_of_nil in H; contradiction);
      simpl;
      first [ left; reflexivity
            | right; split; [eexists; reflexivity | split; set_solver] ]
    | ].
  all: eexists; split;
    [ apply list_elem_of_lookup_2 with 4%nat; reflexivity
    | split; [eexists; reflexivity | simpl; rewrite lookup_insert_ne by apply not_eq_sym, Hmeta; reflexivity ] ].
Qed.

End Intake.

(** ** Judging one case *)

Lemma run_eta {A} (x : outcome A * world * list world) :
  x = (value x, after x, suspensions x).
Proof. destruct x as [[r w] t]. reflexivity. Qed.

(** Stepping through a sequence whose first part returns, or throws. *)
Lemma bind_ok {A B} (m : M A) (f : A -> M B) (w : world) (a : A) :
  value (m w) = Ok a ->
  bind m f w =
    (value (f a (after (m w))), after (f a (after (m w))),
     suspensions (m w) ++ suspensions (f a (after (m w)))).
Proof.
  unfold bind, value, after, suspensions.
  destruct (m w) as [[r w1] t1]; simpl. intros ->.
  destruct (f a w1) as [[r2 w2] t2]; reflexivity.
Qed.

Lemma bind_throw {A B} (m : M A) (f : A -> M B) (w : world) (e : error) :
  value (m w) = Throw e ->
  bind m f w = (Throw e, after (m w), suspensions (m w)).
Proof.
  unfold bind, value, after, suspensions.
  destruct (m w) as [[r w1] t1]; simpl. intros ->. reflexivity.
Qed.

Lemma value_bind {A B} (m : M A) (f : A -> M B) (w : world) (a : A) :
  value (m w) = Ok a -> value (bind m f w) = value (f a (after (m w))).
Proof. intros H. rewrite (bind_ok _ _ _ _ H). reflexivity. Qed.

Lemma after_bind {A B} (m : M A) (f : A -> M B) (w : world) (a : A) :
  value (m w) = Ok a -> after (bind m f w) = after (f a (after (m w))).
Proof. intros H. rewrite (bind_ok _ _ _ _ H). reflexivity. Qed.

Lemma suspensions_bind {A B} (m : M A) (f : A -> M B) (w : world) (a : A) :
  value (m w) = Ok a ->
  suspensions (bind m f w) = suspensions (m w) ++ suspensions (f a (after (m w))).
Proof. intros H. rewrite (bind_ok _ _ _ _ H). reflexivity. Qed.

Section JudgeCase.
Context {E : Engine}.
Import JudgeEngine.

Lemma readTestFile_after (pid : string) (f : jsval) (w : world) :
  after (readTestFile pid f w) = w.
Proof.
  unfold readTestFile, bind, lift, await, readFile, after.
  destruct (path_arg f); simpl; [|reflexivity].
  destruct (fs_files w !! _); reflexivity.
Qed.

Lemma readAnswer_after (pid : string) (c : case_item) (w : world) :
  after (readAnswer pid c w) = w.
Proof.
  unfold readAnswer, try_catch.
  rewrite (run_eta (bind _ _ w)).
  assert (Hw : after ((let* ansFile := lift (output_replace (output c)) in
                       readTestFile pid (VStr ansFile)) w) = w).
  { unfold bind, lift. destruct (output_replace (output c)); [|reflexivity].
    rewrite (run_eta (readTestFile _ _ _)), readTestFile_after. reflexivity. }
  rewrite Hw. destruct (value _); [reflexivity|].
  rewrite (run_eta (readTestFile _ _ _)), readTestFile_after. reflexivity.
Qed.

Lemma judgeCase_run (runSpec : run_spec) (c : case_item) (p : problem)
    (chk : string) (w : world) (inf ans : string) (runRes : run_result) :
  let pid := last_segment (pdir p) in
  let preq := player_request runSpec c inf in
  let creq := checker_request chk inf (or_empty (files_stdout runRes)) ans in
  value (readTestFile pid (input c) w) = Ok inf ->
  value (readAnswer pid c w) = Ok ans ->
  gj_run (gj_runs w) preq = Ok runRes ->
  if negb (String.eqb (rr_status runRes) "Accepted") then
    value (judgeCase runSpec c p chk w) = Ok (run_failed runRes) /\
    after (judgeCase runSpec c p chk w) = set_runs (fun l => l ++ [preq]) w
  else
    value (judgeCase runSpec c p chk w) =
      match gj_run (gj_runs w ++ [preq]) creq with
      | Ok chkRes => Ok (adjudicated runRes chkRes)
      | Throw e => Throw e
      end /\
    after (judgeCase runSpec c p chk w) =
      set_runs (fun l => l ++ [creq]) (set_runs (fun l => l ++ [preq]) w).
Proof.
  intros pid preq creq Hin Hans Hrun.
  unfold judgeCase. fold pid.
  rewrite (bind_ok _ _ _ _ Hin), readTestFile_after.
  rewrite (bind_ok _ _ _ _ Hans), readAnswer_after.
  assert (Hone : runOne preq w = (Ok runRes, set_runs (fun l => l ++ [preq]) w, [w])).
  { unfold runOne, await. rewrite Hrun. reflexivity. }
  fold preq. rewrite (bind_ok _ _ _ runRes) by (rewrite Hone; reflexivity).
  rewrite Hone. unfold after at 1 3 5 7. simpl.
  destruct (negb (String.eqb (rr_status runRes) "Accepted")).
  - unfold ret, value, after; simpl. split; reflexivity.
  - fold creq. unfold bind, runOne, await, ret, value, after; simpl.
    destruct (gj_run (gj_runs w ++ [preq]) creq); simpl; split; reflexivity.
Qed.

End JudgeCase.

(** C3, as stated, fails on the spelling: when the checker rejects, the status
    of the case is the string [Wrong Answer], with a space, which is not the
    string [WrongAnswer]. *)
Lemma wrong_answer_spelling :
  let E := sample_engine sample_yaml rejecting_checker in
  let r := value (JudgeEngine.judgeCase sample_spec first_case sample_problem "chk"
                    (problem_world "two cases")) in
  r = Ok (mkCaseResult false "Wrong Answer" 1000000 65536
            "wrong answer expected 3, found 4") /\
  String.eqb "Wrong Answer" "WrongAnswer" = false.
Proof. vm_compute. split; reflexivity. Qed.

(** C3, amended. When the player run is accepted, [judgeCase] returns
    [ok = true] exactly when the checker run is [Accepted] with exit status 0;
    the status is [Accepted] when [ok] and the string [Wrong Answer] when not;
    time and memory are those of the player run; the message is the checker's
    stdout, or its stderr when stdout is empty or missing (empty when both
    are). *)
Theorem judgeCase_adjudication {E : Engine} (runSpec : run_spec) (c : case_item)
    (p : problem) (chk : string) (w : world) (inf ans : string)
    (runRes chkRes : run_result) :
  value (JudgeEngine.readTestFile (last_segment (pdir p)) (input c) w) = Ok inf ->
  value (JudgeEngine.readAnswer (last_segment (pdir p)) c w) = Ok ans ->
  gj_run (gj_runs w) (JudgeEngine.player_request runSpec c inf) = Ok runRes ->
  rr_status runRes = "Accepted" ->
  gj_run (gj_runs w ++ [JudgeEngine.player_request runSpec c inf])
         (JudgeEngine.checker_request chk inf (or_empty (files_stdout runRes)) ans)
    = Ok chkRes ->
  exists r : case_result,
    value (JudgeEngine.judgeCase runSpec c p chk w) = Ok r /\
    (ok r = true <-> rr_status chkRes = "Accepted" /\ rr_exitStatus chkRes = 0) /\
    (ok r = true -> status r = "Accepted") /\
    (ok r = false -> status r = "Wrong Answer") /\
    time r = rr_runTime runRes /\
    memory r = rr_memory runRes /\
    msg r = match files_stdout chkRes with
            | Some out => if String.eqb out "" then or_empty (files_stderr chkRes) else out
            | None => or_empty (files_stderr chkRes)
            end.
Proof.
  intros Hin Hans Hrun Hacc Hchk.
  pose proof (judgeCase_run runSpec c p chk w inf ans runRes Hin Hans Hrun) as H.
  cbv zeta in H. rewrite Hacc in H. simpl in H. rewrite Hchk in H.
  destruct H as [Hv _]. exists (adjudicated runRes chkRes).
  split; [exact Hv|]. unfold adjudicated; simpl.
  split; [split|].
  - intros [H1 H2]%andb_prop. apply String.eqb_eq in H1. split; [exact H1|lia].
  - intros [-> ->]. reflexivity.
  - split; [intros ->; reflexivity|].
    split; [intros ->; reflexivity|].
    split; [reflexivity|]. split; [reflexivity|].
    unfold or_string, or_empty.
    destruct (files_stdout chkRes) as [out|]; [|reflexivity].
    destruct (String.eqb out ""); reflexivity.
Qed.

Lemma judgeCase_adjudication_witness :
  exists r : case_result,
    value (JudgeEngine.judgeCase (E := sample_engine sample_yaml rejecting_checker)
             sample_spec first_case sample_problem "chk" (problem_world "two cases")) = Ok r /\
    status r = "Wrong Answer".
Proof.
  destruct (judgeCase_adjudication (E := sample_engine sample_yaml rejecting_checker)
              sample_spec first_case sample_problem "chk" (problem_world "two cases")
              "1 2" "3" (accepted "4")
              (mkRunResult "Nonzero Exit Status" 1 2000000 1048576
                 (Some (mkFiles (Some "") (Some "wrong answer expected 3, found 4")))))
    as (r & Hv & Hok & _ & Hwa & _).
  - vm_compute; reflexivity.
  - vm_compute; reflexivity.
  - vm_compute; reflexivity.
  - reflexivity.
  - vm_compute; reflexivity.
  - exists r. split; [exact Hv|]. apply Hwa.
    destruct (ok r) eqn:Hr; [|reflexivity].
    destruct (proj1 Hok eq_refl) as [Hs _]. discriminate Hs.
Defined.

(** ** The case loop and the verdict *)

Section CaseLoop.
Context {E : Engine}.
Import JudgeEngine.

Variables (runSpec : run_spec) (p : problem) (chk : string).

(** While the cases pass, the loop goes on with the next case. *)
Lemma judge_cases_pass (cs : list case_item) (w : world)
    (rs : list case_result) (w1 : world) :
  judged_in_order runSpec p chk cs w rs w1 ->
  Forall (fun r => ok r = true) rs ->
  forall (rest : list case_item) (acc : list case_result),
    value (judge_cases runSpec p chk (cs ++ rest) acc w)
      = value (judge_cases runSpec p chk rest (acc ++ rs) w1) /\
    after (judge_cases runSpec p chk (cs ++ rest) acc w)
      = after (judge_cases runSpec p chk rest (acc ++ rs) w1).
Proof.
  induction 1 as [w|c cs w r rs w1 Hr Hrest IH]; intros Hok rest acc.
  - rewrite app_nil_r. split; reflexivity.
  - apply Forall_cons in Hok as [Hokr Hok].
    simpl app. cbn [judge_cases].
    rewrite (bind_ok _ _ _ _ Hr). rewrite Hokr. simpl negb. cbv iota.
    unfold value at 1, after at 1. simpl.
    destruct (IH Hok rest (acc ++ [r])) as [Hv Ha].
    rewrite <- app_assoc in Hv, Ha. simpl in Hv, Ha. split; assumption.
Qed.

(** The loop stops at a case that does not pass. *)
Lemma judge_cases_stop (c : case_item) (rest : list case_item)
    (acc : list case_result) (w : world) (r : case_result) :
  value (judgeCase runSpec c p chk w) = Ok r ->
  ok r = false ->
  value (judge_cases runSpec p chk (c :: rest) acc w) = Ok (acc ++ [r], Some r) /\
  after (judge_cases runSpec p chk (c :: rest) acc w)
    = after (judgeCase runSpec c p chk w).
Proof.
  intros Hr Hbad. cbn [judge_cases].
  rewrite (bind_ok _ _ _ _ Hr), Hbad. split; reflexivity.
Qed.

(** The loop on the first [i + 1] cases: the cases before case [i] pass, and
    case [i] fails or is the last one. *)
Lemma judge_cases_upto (i : nat) (w : world) (front : list case_result)
    (wi : world) (c : case_item) (r : case_result) :
  judged_in_order runSpec p chk (take i (p_cases p)) w front wi ->
  Forall (fun x => ok x = true) front ->
  p_cases p !! i = Some c ->
  value (judgeCase runSpec c p chk wi) = Ok r ->
  ok r = false \/ S i = length (p_cases p) ->
  value (judge_cases runSpec p chk (p_cases p) [] w)
    = Ok (front ++ [r], if ok r then None else Some r) /\
  after (judge_cases runSpec p chk (p_cases p) [] w)
    = after (judgeCase runSpec c p chk wi).
Proof.
  intros Hfront Hok Hc Hr Hstop.
  replace (judge_cases runSpec p chk (p_cases p) [] w)
    with (judge_cases runSpec p chk (take i (p_cases p) ++ drop i (p_cases p)) [] w)
    by (rewrite take_drop; reflexivity).
  destruct (judge_cases_pass _ _ _ _ Hfront Hok (drop i (p_cases p)) []) as [Hv Ha].
  rewrite Hv, Ha. simpl app.
  rewrite (drop_S _ _ _ Hc).
  destruct (ok r) eqn:Hokr.
  - destruct Hstop as [?|Hlast]; [discriminate|].
    assert (Hnil : drop (S i) (p_cases p) = []) by (apply drop_ge; lia).
    rewrite Hnil. cbn [judge_cases].
    rewrite (bind_ok _ _ _ _ Hr), Hokr. split; reflexivity.
  - apply judge_cases_stop; assumption.
Qed.

End CaseLoop.

(** C5, as stated, fails on the [result] field: a case whose status is empty
    is the last one emitted, and the verdict's [result] is [Unknown], not that
    status. *)
Lemma unknown_result :
  let E := sample_engine sample_yaml silent_sandbox in
  results (after (JudgeEngine.handleJob (mkJob 1 "A" "cpp" (VStr "int main(){}"))
                    (problem_world "two cases"))) !! 1
    = Some (Done false "Unknown" [mkCaseResult false "" 0 0 ""]) /\
  String.eqb "Unknown" (status (mkCaseResult false "" 0 0 "")) = false.
Proof. vm_compute. split; reflexivity. Qed.

(** C5, amended. Let the cases before case [i] pass and let case [i] either
    fail or be the last one.  Then the worker publishes and persists
    [Done] with [passed] equal to the [ok] of case [i], with the results of
    the cases 0..i, that is [i + 1] of them, as [cases], and with [result] the
    status of the last emitted case, or [Unknown] when that status is empty;
    and the sandbox has received nothing beyond what it had received when
    case [i] returned: no later case is dispatched. *)
Theorem early_termination {E : Engine} (sid : Z) (subDir : string)
    (runSpec : run_spec) (p : problem) (chk : string)
    (i : nat) (w : world) (front : list case_result) (wi : world)
    (c : case_item) (r : case_result) :
  judged_in_order runSpec p chk (take i (p_cases p)) w front wi ->
  Forall (fun x => ok x = true) front ->
  p_cases p !! i = Some c ->
  value (JudgeEngine.judgeCase runSpec c p chk wi) = Ok r ->
  ok r = false \/ S i = length (p_cases p) ->
  let run := JudgeEngine.judgeAndPublish sid subDir runSpec p chk w in
  let final := Done (ok r) (status_or_unknown r) (front ++ [r]) in
  value run = Ok tt /\
  results (after run) !! sid = Some final /\
  fs_files (after run) !! path_join subDir "result.json"
    = Some (JSON_stringify (verdict_to_js final)) /\
  length (front ++ [r]) = S i /\
  gj_runs (after run) = gj_runs (after (JudgeEngine.judgeCase runSpec c p chk wi)).
Proof.
  intros Hfront Hok Hc Hr Hstop run final.
  destruct (judge_cases_upto runSpec p chk i w front wi c r Hfront Hok Hc Hr Hstop)
    as [Hv Ha].
  assert (Hlen : length front = i).
  { clear - Hfront Hc. apply lookup_lt_Some in Hc.
    assert (Hl : forall cs w rs w', judged_in_order runSpec p chk cs w rs w' ->
                                    length rs = length cs).
    { induction 1; simpl; congruence. }
    rewrite (Hl _ _ _ _ Hfront), length_take. lia. }
  subst run. unfold JudgeEngine.judgeAndPublish.
  rewrite (bind_ok _ _ _ _ Hv), Ha. cbv beta iota.
  set (wr := after (JudgeEngine.judgeCase runSpec c p chk wi)).
  unfold JudgeEngine.last_status. rewrite last_snoc.
  fold (status_or_unknown r).
  replace (match (if ok r then None else Some r) with
           | Some _ => false | None => true end) with (ok r)
    by (destruct (ok r); reflexivity).
  fold final.
  unfold bind, lift, JudgeEngine.results_set, modify, await, writeFile, value, after.
  simpl. repeat split.
  - rewrite lookup_insert_eq. reflexivity.
  - rewrite lookup_insert_eq. reflexivity.
  - rewrite length_app. simpl. lia.
Qed.

Lemma early_termination_witness :
  results (after (JudgeEngine.judgeAndPublish (E := slow_engine) 1 "submissions/0/1"
                    sample_spec sample_problem "chk" (problem_world "two cases"))) !! 1
    = Some (Done false "Time Limit Exceeded" [passed_first; slow_second]).
Proof.
  pose (w := problem_world "two cases").
  pose (w1 := after (JudgeEngine.judgeCase (E := slow_engine) sample_spec first_case
                       sample_problem "chk" w)).
  assert (H1 : judged_in_order (E := slow_engine) sample_spec sample_problem "chk"
                 (take 1 (p_cases sample_problem)) w [passed_first] w1).
  { apply judged_cons; [vm_compute; reflexivity | apply judged_nil]. }
  assert (H2 : Forall (fun x => ok x = true) [passed_first]).
  { repeat constructor. }
  assert (H3 : p_cases sample_problem !! 1%nat = Some second_case) by reflexivity.
  assert (H4 : value (JudgeEngine.judgeCase (E := slow_engine) sample_spec second_case
                        sample_problem "chk" w1) = Ok slow_second)
    by (vm_compute; reflexivity).
  assert (H5 : ok slow_second = false \/ 2%nat = length (p_cases sample_problem))
    by (left; reflexivity).
  exact (proj1 (proj2 (early_termination (E := slow_engine) 1 "submissions/0/1"
                         sample_spec sample_problem "chk" 1 w [passed_first] w1
                         second_case slow_second H1 H2 H3 H4 H5))).
Defined.

(** ** The worker *)

Lemma try_catch_ok {A} (m : M A) (h : error -> M A) (w : world) (a : A) :
  value (m w) = Ok a ->
  value (try_catch m h w) = Ok a /\ after (try_catch m h w) = after (m w).
Proof.
  unfold try_catch, value, after. destruct (m w) as [[r w1] t1]; simpl.
  intros ->. split; reflexivity.
Qed.

Lemma try_catch_throw {A} (m : M A) (h : error -> M A) (w : world) (e : error) :
  value (m w) = Throw e ->
  value (try_catch m h w) = value (h e (after (m w))) /\
  after (try_catch m h w) = after (h e (after (m w))).
Proof.
  unfold try_catch, value, after. destruct (m w) as [[r w1] t1]; simpl.
  intros ->. destruct (h e w1) as [[r2 w2] t2]. split; reflexivity.
Qed.

Lemma finally_run {A} (m : M A) (f : M unit) (w : world) :
  value (f (after (m w))) = Ok tt ->
  value (finally m f w) = value (m w) /\
  after (finally m f w) = after (f (after (m w))).
Proof.
  unfold finally, value, after. destruct (m w) as [[r w1] t1]; simpl.
  destruct (f w1) as [[r2 w2] t2]; simpl. intros ->. split; reflexivity.
Qed.

Section Worker.
Context {E : Engine}.
Import JudgeEngine.

Lemma attempt_run {A} (m : M A) (w : world) :
  attempt m w = (Ok (value (m w)), after (m w), suspensions (m w)).
Proof. unfold attempt. destruct (m w) as [[r w1] t]. reflexivity. Qed.

Lemma deleteAll_run (ids : list string) (w : world) :
  value (deleteAll ids w) = Ok tt /\
  after (deleteAll ids w) = set_deleted (fun l => l ++ ids) w.
Proof.
  revert w. induction ids as [|id ids IH]; intros w.
  - unfold deleteAll, ret, value, after; simpl. split; [reflexivity|].
    destruct w; unfold set_deleted; simpl. rewrite app_nil_r. reflexivity.
  - cbn [deleteAll]. unfold bind.
    change (deleteFile id w) with (Ok tt, set_deleted (fun l => l ++ [id]) w, [w]).
    cbv beta iota.
    destruct (IH (set_deleted (fun l => l ++ [id]) w)) as [Hv Ha].
    rewrite (run_eta (deleteAll ids _)), Hv, Ha.
    unfold value, after; simpl. split; [reflexivity|].
    destruct w; unfold set_deleted; simpl.
    rewrite <- app_assoc. reflexivity.
Qed.

Lemma releaseArtifacts_run (ids : list string) (cc : option (list string)) (w : world) :
  value (releaseArtifacts ids cc w) = Ok tt /\
  results (after (releaseArtifacts ids cc w)) = results w /\
  fs_files (after (releaseArtifacts ids cc w)) = fs_files w /\
  gj_runs (after (releaseArtifacts ids cc w)) = gj_runs w.
Proof.
  unfold releaseArtifacts, bind.
  destruct (deleteAll_run ids w) as [Hv Ha].
  rewrite (run_eta (deleteAll ids w)), Hv, Ha. cbv beta iota.
  destruct cc as [l|].
  - destruct (deleteAll_run l (set_deleted (fun l0 => l0 ++ ids) w)) as [Hv2 Ha2].
    rewrite (run_eta (deleteAll l _)), Hv2, Ha2.
    unfold value, after; simpl. repeat split.
  - unfold ret, value, after; simpl. repeat split.
Qed.

Lemma publishError_run (sid : Z) (subDir : string) (e : error) (w : world) :
  let v := Error (String_of_error e) in
  value (publishError sid subDir e w) = Ok tt /\
  after (publishError sid subDir e w)
    = set_files (insert (path_join subDir "result.json") (JSON_stringify (verdict_to_js v)))
        (set_results (insert sid v) w).
Proof. split; reflexivity. Qed.

Lemma published_error (sid : Z) (subDir : string) (e : error) (w : world) :
  published sid subDir (Error (String_of_error e))
    (after (publishError sid subDir e w)).
Proof.
  destruct (publishError_run sid subDir e w) as [_ ->].
  split; simpl; apply lookup_insert_eq.
Qed.

Lemma published_released (sid : Z) (subDir : string) (v : verdict)
    (ids : list string) (cc : option (list string)) (w : world) :
  published sid subDir v w ->
  published sid subDir v (after (releaseArtifacts ids cc w)).
Proof.
  intros [H1 H2]. destruct (releaseArtifacts_run ids cc w) as (_ & Hr & Hf & _).
  unfold published. rewrite Hr, Hf. split; assumption.
Qed.

(** The [catch] block followed by the [finally] block. *)
Lemma caught_and_released (sid : Z) (subDir : string) (e : error)
    (ids : list string) (cc : option (list string)) (w : world) :
  value (finally (publishError sid subDir e) (releaseArtifacts ids cc) w) = Ok tt /\
  published sid subDir (Error (String_of_error e))
    (after (finally (publishError sid subDir e) (releaseArtifacts ids cc) w)).
Proof.
  destruct (finally_run (publishError sid subDir e) (releaseArtifacts ids cc) w)
    as [Hv Ha].
  { apply releaseArtifacts_run. }
  rewrite Hv, Ha. split; [reflexivity|].
  apply published_released, published_error.
Qed.

(** When the [try] block runs to its end, a [Done] verdict is published. *)
Lemma judgeAndPublish_done (sid : Z) (subDir : string) (runSpec : run_spec)
    (p : problem) (chk : string) (w : world) :
  value (judgeAndPublish sid subDir runSpec p chk w) = Ok tt ->
  exists passed result cases,
    published sid subDir (Done passed result cases)
      (after (judgeAndPublish sid subDir runSpec p chk w)).
Proof.
  unfold judgeAndPublish, bind.
  destruct (judge_cases runSpec p chk (p_cases p) [] w) as [[[[cs fb]|e] w1] t1];
    [|discriminate].
  unfold lift. destruct (last_status cs) as [res|e]; simpl; [|discriminate].
  intros _. eexists _, _, _. unfold published, after; simpl.
  split; apply lookup_insert_eq.
Qed.

Lemma judgeAndPublish_value (sid : Z) (subDir : string) (runSpec : run_spec)
    (p : problem) (chk : string) (w : world) :
  (exists e, value (judgeAndPublish sid subDir runSpec p chk w) = Throw e) \/
  value (judgeAndPublish sid subDir runSpec p chk w) = Ok tt.
Proof.
  destruct (value (judgeAndPublish sid subDir runSpec p chk w)) as [[]|e];
    [right; reflexivity | left; eauto].
Qed.

(** The [try / catch / finally] of the worker always publishes a terminal
    verdict, in memory and in [result.json], and returns. *)
Lemma judgeJob_publishes (sid : Z) (pid lang : string) (code : jsval)
    (subDir : string) (w : world) :
  value (judgeJob sid pid lang code subDir w) = Ok tt /\
  exists v, terminal v /\
            published sid subDir v (after (judgeJob sid pid lang code subDir w)).
Proof.
  unfold judgeJob.
  set (inner := bind (loadProblem pid) _).
  assert (Hatt : forall A (m : M A) w0, value (attempt m w0) = Ok (value (m w0)))
    by (intros; rewrite attempt_run; reflexivity).
  assert (Haft : forall A (m : M A) w0, after (attempt m w0) = after (m w0))
    by (intros; rewrite attempt_run; reflexivity).
  rewrite (value_bind _ _ _ _ (Hatt _ inner w)), (after_bind _ _ _ _ (Hatt _ inner w)).
  rewrite Haft.
  destruct (value (inner w)) as [[problem runSpec]|e].
  2:{ destruct (caught_and_released sid subDir e [] None (after (inner w))) as [Hv Hp].
      split; [exact Hv|].
      exists (Error (String_of_error e)). split; [exact I|exact Hp]. }
  set (w1 := after (inner w)).
  set (resolve := resolveChecker pid problem).
  rewrite (value_bind _ _ _ _ (Hatt _ resolve w1)), (after_bind _ _ _ _ (Hatt _ resolve w1)).
  rewrite Haft.
  destruct (value (resolve w1)) as [checkerResult|e].
  2:{ destruct (caught_and_released sid subDir e (cleanupIds runSpec) None
                  (after (resolve w1))) as [Hv Hp].
      split; [exact Hv|].
      exists (Error (String_of_error e)). split; [exact I|exact Hp]. }
  set (w2 := after (resolve w1)).
  set (body := try_catch _ _).
  destruct (finally_run body
              (releaseArtifacts (cleanupIds runSpec) (cleanup checkerResult)) w2)
    as [Hv Ha].
  { apply releaseArtifacts_run. }
  rewrite Hv, Ha. subst body.
  destruct (judgeAndPublish_value sid subDir runSpec problem (checkerId checkerResult) w2)
    as [[e He]|Hok].
  - destruct (try_catch_throw _ (publishError sid subDir) w2 e He) as [Hv2 Ha2].
    rewrite Hv2, Ha2. split; [reflexivity|].
    exists (Error (String_of_error e)). split; [exact I|].
    apply published_released, published_error.
  - destruct (try_catch_ok _ (publishError sid subDir) w2 tt Hok) as [Hv2 Ha2].
    rewrite Hv2, Ha2. split; [reflexivity|].
    destruct (judgeAndPublish_done _ _ _ _ _ _ Hok) as (pa & re & cs & Hp).
    exists (Done pa re cs). split; [exact I|].
    apply published_released, Hp.
Qed.

End Worker.

(** ** Spilled submissions *)

Section Spill.
Context {E : Engine}.
Import JudgeEngine.

Local Arguments Js.dec : simpl never.
Local Arguments path_join : simpl never.
Local Arguments Z.mul : simpl never.
Local Arguments Z.leb : simpl never.

(** C2, on the code. With the queue at the spill threshold, [submit] writes
    [source.code] and enqueues a job without a [code] property.  The worker
    tests [code === null]; the missing property is [undefined], so it takes
    the branch that archives the source and calls [fs.writeFile] with
    [undefined]: the call throws outside the [try] block, the worker ends,
    and no verdict is published.  The same submission enqueued with its code
    inline always receives a terminal verdict. *)
Theorem spilled_job_is_never_judged (w : world) (pid lang src : string) :
  1024 * 512 <= Z.of_nat (length (queue w)) ->
  let sid := counter_value submissionManager w + 1 in
  let subDir := snd (submissionPaths submissionManager sid) in
  let run := submit pid lang (VStr src) w in
  let spilled := mkJob sid pid lang VUndef in
  let inline := mkJob sid pid lang (VStr src) in
  value run = Ok sid /\
  queue (after run) = queue w ++ [spilled] /\
  fs_files (after run) !! path_join subDir "source.code" = Some src /\
  results (after run) !! sid = Some Queued /\
  (forall w' : world,
      value (handleJob spilled w') = Throw invalid_data /\
      after (handleJob spilled w') = w') /\
  (forall w' : world,
      value (handleJob inline w') = Ok tt /\
      exists v, terminal v /\ published sid subDir v (after (handleJob inline w'))).
Proof.
  intros Hfull sid subDir run spilled inline.
  assert (Hsrc : path_join subDir "meta.json" <> path_join subDir "source.code").
  { intros Heq. apply (f_equal last_char) in Heq.
    rewrite !last_char_path_join in Heq by (cbv; congruence). discriminate. }
  split; [|split; [|split; [|split; [|split]]]].
  1-4: subst run; unfold submit, bind; rewrite nextSubmissionId_run; fold sid;
    unfold results_set, queue_push, modify, await, mkdir, gets, ret, writeFile,
      value, after; simpl;
    apply Z.leb_le in Hfull; rewrite Hfull; simpl.
  - reflexivity.
  - reflexivity.
  - rewrite lookup_insert_ne by exact Hsrc. apply lookup_insert_eq.
  - apply lookup_insert_eq.
  - intros w'. split; reflexivity.
  - intros w'. unfold handleJob. fold sid. simpl job_sid. simpl job_code.
    unfold submissionPaths. simpl.
    unfold materializeSource.
    set (sd := path_join _ (Js.dec sid)).
    assert (Hw : value ((await (writeFile (path_join sd "source.code") (VStr src)) ;;
                         ret (VStr src)) w') = Ok (VStr src)) by reflexivity.
    rewrite (value_bind _ _ _ _ Hw), (after_bind _ _ _ _ Hw).
    apply judgeJob_publishes.
Qed.

End Spill.

Lemma spilled_job_is_never_judged_witness :
  value (JudgeEngine.handleJob (E := sample_E)
           (mkJob (counter_value sample_sm busy_world + 1) "A" "cpp" VUndef)
           busy_world) = Throw invalid_data.
Proof.
  assert (Hfull : 1024 * 512 <= Z.of_nat (length (queue busy_world))).
  { unfold busy_world, set_queue. cbn [queue].
    rewrite length_replicate, Z2Nat.id; lia. }
  exact (proj1 (proj1 (proj2 (proj2 (proj2 (proj2
           (spilled_job_is_never_judged (E := sample_E) busy_world "A" "cpp"
              "int main(){}" Hfull))))) busy_world)).
Defined.

(** ** What can be observed while a computation runs *)

Section Stability.
Context (R : world -> world -> Prop) `{!PreOrder R}.

Lemma stable_ret {A} (a : A) (w : world) : stable_at R (ret a) w.
Proof. intros w' Hw. apply list_elem_of_singleton in Hw as ->. reflexivity. Qed.

Lemma stable_throw {A} (e : error) (w : world) : stable_at R (@throw A e) w.
Proof. intros w' Hw. apply list_elem_of_singleton in Hw as ->. reflexivity. Qed.

Lemma stable_lift {A} (r : outcome A) (w : world) : stable_at R (lift r) w.
Proof. intros w' Hw. apply list_elem_of_singleton in Hw as ->. reflexivity. Qed.

Lemma stable_gets {A} (f : world -> A) (w : world) : stable_at R (gets f) w.
Proof. intros w' Hw. apply list_elem_of_singleton in Hw as ->. reflexivity. Qed.

Lemma stable_modify (f : world -> world) (w : world) :
  R w (f w) -> stable_at R (modify f) w.
Proof. intros H w' Hw. apply list_elem_of_singleton in Hw as ->. exact H. Qed.

Lemma stable_await {A} (io : world -> outcome A * world) (w : world) :
  R w (snd (io w)) -> stable_at R (await io) w.
Proof.
  intros H w' Hw. unfold observed, await, suspensions, after in Hw.
  destruct (io w) as [r w1]; simpl in *.
  apply elem_of_cons in Hw as [->|Hw]; [reflexivity|].
  apply list_elem_of_singleton in Hw as ->. exact H.
Qed.

Lemma stable_after {A} (m : M A) (w : world) :
  stable_at R m w -> R w (after (m w)).
Proof. intros H. apply H. unfold observed. apply elem_of_app. right. constructor. Qed.

Lemma stable_bind {A B} (m : M A) (f : A -> M B) (w : world) :
  stable_at R m w ->
  (forall a, value (m w) = Ok a -> stable_at R (f a) (after (m w))) ->
  stable_at R (bind m f) w.
Proof.
  intros Hm Hf w' Hw. unfold observed, bind in Hw.
  pose proof (stable_after _ _ Hm) as Hafter.
  unfold stable_at, observed in Hm, Hf. unfold value, after, suspensions in *.
  destruct (m w) as [[[a|e] w1] t1]; simpl in *.
  - specialize (Hf a eq_refl).
    destruct (f a w1) as [[r2 w2] t2]; simpl in *.
    rewrite <- app_assoc in Hw. apply elem_of_app in Hw as [Hw|Hw].
    + apply Hm. apply elem_of_app. left. exact Hw.
    + transitivity w1; [exact Hafter|]. apply Hf. exact Hw.
  - apply Hm. exact Hw.
Qed.

Lemma stable_try_catch {A} (m : M A) (h : error -> M A) (w : world) :
  stable_at R m w ->
  (forall e, value (m w) = Throw e -> stable_at R (h e) (after (m w))) ->
  stable_at R (try_catch m h) w.
Proof.
  intros Hm Hh w' Hw. unfold observed, try_catch in Hw.
  pose proof (stable_after _ _ Hm) as Hafter.
  unfold stable_at, observed in Hm, Hh. unfold value, after, suspensions in *.
  destruct (m w) as [[[a|e] w1] t1]; simpl in *.
  - apply Hm. exact Hw.
  - specialize (Hh e eq_refl).
    destruct (h e w1) as [[r2 w2] t2]; simpl in *.
    rewrite <- app_assoc in Hw. apply elem_of_app in Hw as [Hw|Hw].
    + apply Hm. apply elem_of_app. left. exact Hw.
    + transitivity w1; [exact Hafter|]. apply Hh. exact Hw.
Qed.

Lemma stable_finally {A} (m : M A) (f : M unit) (w : world) :
  stable_at R m w ->
  stable_at R f (after (m w)) ->
  stable_at R (finally m f) w.
Proof.
  intros Hm Hf w' Hw. unfold observed, finally in Hw.
  pose proof (stable_after _ _ Hm) as Hafter.
  unfold stable_at, observed in Hm, Hf. unfold value, after, suspensions in *.
  destruct (m w) as [[r w1] t1]; simpl in *.
  assert (Hin : w' ∈ t1 ++ (f w1).2 ++ [(f w1).1.2]).
  { destruct (f w1) as [[[[]|e] w2] t2]; simpl in *;
      rewrite <- app_assoc in Hw; exact Hw. }
  apply elem_of_app in Hin as [Hin|Hin].
  - apply Hm. apply elem_of_app. left. exact Hin.
  - transitivity w1; [exact Hafter|]. apply Hf. exact Hin.
Qed.

Lemma stable_attempt {A} (m : M A) (w : world) :
  stable_at R m w -> stable_at R (JudgeEngine.attempt m) w.
Proof.
  intros Hm w' Hw. apply Hm. unfold observed in *.
  rewrite attempt_run in Hw. exact Hw.
Qed.

End Stability.

Lemma stable_mono {A} (R R' : world -> world -> Prop) (m : M A) (w : world) :
  (forall w1 w2, R w1 w2 -> R' w1 w2) -> stable_at R m w -> stable_at R' m w.
Proof. intros HR Hm w' Hw. apply HR, Hm, Hw. Qed.

#[local] Instance same_results_preorder : PreOrder same_results.
Proof.
  split; [intros w; reflexivity|].
  intros w1 w2 w3 H12 H23. unfold same_results in *. congruence.
Qed.

#[local] Instance untouched_or_error_preorder (sid : Z) : PreOrder (untouched_or_error sid).
Proof.
  split; [intros w; left; reflexivity|].
  intros w1 w2 w3 [H12|H12] [H23|H23]; unfold untouched_or_error.
  - left. congruence.
  - right. exact H23.
  - right. destruct H12 as [msg H12]. exists msg. congruence.
  - right. exact H23.
Qed.

Ltac stable :=
  repeat first
    [ apply stable_ret; typeclasses eauto
    | apply stable_throw; typeclasses eauto
    | apply stable_lift; typeclasses eauto
    | apply stable_gets; typeclasses eauto
    | apply stable_bind; [typeclasses eauto| |intros ? _]
    | apply stable_try_catch; [typeclasses eauto| |intros ? _]
    | apply stable_await; [typeclasses eauto|] ].

Lemma readFile_world (path : string) (w : world) : snd (readFile path w) = w.
Proof. unfold readFile. destruct (fs_files w !! path); reflexivity. Qed.

Section ReadOnly.
Context {E : Engine}.
Import JudgeEngine.

(** Loading a problem only reads. *)
Lemma loadProblem_readonly (pid : string) (w : world) :
  stable_at eq (loadProblem pid) w.
Proof.
  unfold loadProblem, ProblemConfig.loadProblem, ProblemConfig.loadConfig.
  stable; symmetry; apply readFile_world.
Qed.

Lemma readTestFile_readonly (pid : string) (f : jsval) (w : world) :
  stable_at eq (readTestFile pid f) w.
Proof. unfold readTestFile. stable. symmetry; apply readFile_world. Qed.

(** Resolving the checker only reads (the sandbox keeps its own state). *)
Lemma resolveChecker_readonly (pid : string) (p : problem) (w : world) :
  stable_at eq (resolveChecker pid p) w.
Proof.
  unfold resolveChecker, readCheckerSource.
  apply stable_bind; [typeclasses eauto|stable; reflexivity|].
  intros [|] _.
  - stable. reflexivity.
  - destruct (Js.truthy (checker p)); stable;
      first [reflexivity | symmetry; apply readFile_world].
Qed.

Lemma materializeSource_results (code : jsval) (subDir : string) (w : world) :
  stable_at same_results (materializeSource code subDir) w.
Proof.
  unfold materializeSource.
  destruct code; stable; unfold same_results;
    first [ rewrite readFile_world; reflexivity | reflexivity ].
Qed.

Lemma deleteAll_results (ids : list string) (w : world) :
  stable_at same_results (deleteAll ids) w.
Proof.
  revert w. induction ids as [|id ids IH]; intros w; cbn [deleteAll].
  - stable.
  - apply stable_bind; [typeclasses eauto| |intros ? _; apply IH].
    apply stable_await; [typeclasses eauto|reflexivity].
Qed.

Lemma releaseArtifacts_results (ids : list string) (cc : option (list string)) (w : world) :
  stable_at same_results (releaseArtifacts ids cc) w.
Proof.
  unfold releaseArtifacts.
  apply stable_bind; [typeclasses eauto|apply deleteAll_results|].
  intros ? _. destruct cc; [apply deleteAll_results|stable].
Qed.

Lemma publishError_stable (sid : Z) (subDir : string) (e : error) (w : world) :
  stable_at (untouched_or_error sid) (publishError sid subDir e) w.
Proof.
  unfold publishError, results_set.
  apply stable_bind; [typeclasses eauto| |intros ? _].
  - apply stable_modify. right. eexists. simpl. apply lookup_insert_eq.
  - apply stable_await; [typeclasses eauto|]. left. reflexivity.
Qed.

(** On an empty case list the composition of the verdict throws at once. *)
Lemma judgeAndPublish_no_cases (sid : Z) (subDir : string) (runSpec : run_spec)
    (p : problem) (chk : string) (w : world) :
  p_cases p = [] ->
  judgeAndPublish sid subDir runSpec p chk w = (Throw no_last_case, w, []).
Proof. intros Hnil. unfold judgeAndPublish. rewrite Hnil. reflexivity. Qed.

End ReadOnly.

(** ** A problem without cases *)

Section NoCases.
Context {E : Engine}.
Import JudgeEngine.

Lemma readonly_after {A} (m : M A) (w : world) : stable_at eq m w -> after (m w) = w.
Proof. intros H. symmetry. apply (stable_after eq), H. Qed.

Lemma stable_readonly {A} (R : world -> world -> Prop) `{!PreOrder R}
    (m : M A) (w : world) :
  stable_at eq m w -> stable_at R m w.
Proof. apply stable_mono. intros w1 w2 ->. reflexivity. Qed.

Lemma stable_same_results {A} (sid : Z) (m : M A) (w : world) :
  stable_at same_results m w -> stable_at (untouched_or_error sid) m w.
Proof. apply stable_mono. intros w1 w2 H. left. rewrite H. reflexivity. Qed.

Variables (sid : Z) (pid lang : string) (code : jsval) (subDir : string).
Variables (w : world) (pb : problem).
Hypothesis Hload : value (loadProblem pid w) = Ok pb.
Hypothesis Hnil : p_cases pb = [].

Let prepare : M (problem * run_spec) :=
  let* loaded := loadProblem pid in
  let* runSpec :=
    await (fun w => (gj_prepareProgram lang code (Js.or (filename loaded) VNull), w)) in
  ret (loaded, runSpec).

Lemma prepare_run :
  value (prepare w) =
    match gj_prepareProgram lang code (Js.or (filename pb) VNull) with
    | Ok runSpec => Ok (pb, runSpec)
    | Throw e => Throw e
    end /\
  after (prepare w) = w /\
  stable_at eq prepare w.
Proof.
  assert (Hs : stable_at eq prepare w).
  { unfold prepare. apply stable_bind; [typeclasses eauto|apply loadProblem_readonly|].
    intros ? _. stable. reflexivity. }
  split; [|split; [apply readonly_after, Hs|exact Hs]].
  unfold prepare. rewrite (value_bind _ _ _ _ Hload).
  rewrite (readonly_after _ _ (loadProblem_readonly pid w)).
  unfold bind, await, ret, value; simpl.
  destruct (gj_prepareProgram lang code _); reflexivity.
Qed.

(** The catch and finally blocks leave an [Error] and touch no other entry. *)
Lemma caught_stable (e : error) (ids : list string) (cc : option (list string))
    (w0 : world) :
  stable_at (untouched_or_error sid)
    (finally (publishError sid subDir e) (releaseArtifacts ids cc)) w0.
Proof.
  apply stable_finally; [typeclasses eauto|apply publishError_stable|].
  apply stable_same_results, releaseArtifacts_results.
Qed.

Lemma judgeJob_no_cases :
  let run := judgeJob sid pid lang code subDir w in
  value run = Ok tt /\
  (exists e,
      published sid subDir (Error (String_of_error e)) (after run) /\
      forall runSpec cr,
        gj_prepareProgram lang code (Js.or (filename pb) VNull) = Ok runSpec ->
        value (resolveChecker pid pb w) = Ok cr ->
        e = no_last_case) /\
  stable_at (untouched_or_error sid) (judgeJob sid pid lang code subDir) w.
Proof.
  intros run. subst run.
  destruct prepare_run as (Hpv & Hpa & Hps).
  assert (Hatt : forall A (m : M A) w0, value (attempt m w0) = Ok (value (m w0)))
    by (intros; rewrite attempt_run; reflexivity).
  assert (Haft : forall A (m : M A) w0, after (attempt m w0) = after (m w0))
    by (intros; rewrite attempt_run; reflexivity).
  set (resolve := resolveChecker pid pb).
  pose proof (readonly_after _ _ (resolveChecker_readonly pid pb w)) as Hra.
  fold resolve in Hra.
  unfold judgeJob. fold prepare.
  match goal with
  | |- ?A /\ ?B /\ ?C => cut ((A /\ B) /\ C); [tauto|]
  end.
  split.
  - rewrite (value_bind _ _ _ _ (Hatt _ prepare w)),
      (after_bind _ _ _ _ (Hatt _ prepare w)), Haft, Hpa, Hpv.
    destruct (gj_prepareProgram lang code _) as [runSpec|e] eqn:Hprep.
    + fold resolve.
      rewrite (value_bind _ _ _ _ (Hatt _ resolve w)),
        (after_bind _ _ _ _ (Hatt _ resolve w)), Haft, Hra.
      destruct (value (resolve w)) as [cr|e] eqn:Hres.
      * destruct (finally_run
                    (try_catch (judgeAndPublish sid subDir runSpec pb (checkerId cr))
                               (publishError sid subDir))
                    (releaseArtifacts (cleanupIds runSpec) (cleanup cr)) w)
          as [Hv Ha]; [apply releaseArtifacts_run|].
        rewrite Hv, Ha.
        destruct (try_catch_throw
                    (judgeAndPublish sid subDir runSpec pb (checkerId cr))
                    (publishError sid subDir) w no_last_case) as [Hv2 Ha2].
        { rewrite judgeAndPublish_no_cases by exact Hnil. reflexivity. }
        rewrite Hv2, Ha2. split; [reflexivity|].
        exists no_last_case. split; [|reflexivity].
        apply published_released, published_error.
      * destruct (caught_and_released sid subDir e (cleanupIds runSpec) None w)
          as [Hv Hp].
        split; [exact Hv|]. exists e. split; [exact Hp|].
        intros ? ? Heq. inversion Heq; subst. congruence.
    + destruct (caught_and_released sid subDir e [] None w) as [Hv Hp].
      split; [exact Hv|]. exists e. split; [exact Hp|]. congruence.
  - apply stable_bind; [typeclasses eauto| |].
    { apply stable_attempt, stable_readonly; [typeclasses eauto|exact Hps]. }
    intros a Ha. rewrite Hatt in Ha. inversion Ha as [Ha']; clear Ha.
    rewrite Haft, Hpa. rewrite Hpv.
    destruct (gj_prepareProgram lang code _) as [runSpec|e]; [|apply caught_stable].
    apply stable_bind; [typeclasses eauto| |].
    { apply stable_attempt, stable_readonly; [typeclasses eauto|].
      apply resolveChecker_readonly. }
    intros b Hb. rewrite Hatt in Hb. inversion Hb as [Hb']; clear Hb.
    fold resolve. rewrite Haft, Hra.
    destruct (value (resolve w)) as [cr|e]; [|apply caught_stable].
    apply stable_finally; [typeclasses eauto| |].
    + apply stable_try_catch; [typeclasses eauto| |].
      * intros w' Hw'. rewrite judgeAndPublish_no_cases in Hw' by exact Hnil.
        apply list_elem_of_singleton in Hw' as ->. reflexivity.
      * intros e _. rewrite judgeAndPublish_no_cases by exact Hnil.
        apply publishError_stable.
    + apply stable_same_results, releaseArtifacts_results.
Qed.

End NoCases.

(** C10. When the worker has its source, loading the problem succeeds and the
    flattened case list is empty, handling the job returns and leaves an
    [Error] verdict in memory and in [result.json]; when program and checker
    were prepared, it is the exception of reading [status] of the last
    element of the empty result array, thrown by the composition of the
    verdict and caught.  At every point at which another task can observe
    the verdict cache during the run, the entry of the submission is what it
    was before or an [Error]: a [Done] verdict, passed or not, is never
    published. *)
Theorem empty_case_list_is_error {E : Engine} (j : job) (w : world)
    (code : jsval) (problem : problem) :
  let sid := job_sid j in
  let subDir := snd (submissionPaths submissionManager sid) in
  let w0 := after (JudgeEngine.materializeSource (job_code j) subDir w) in
  value (JudgeEngine.materializeSource (job_code j) subDir w) = Ok code ->
  value (JudgeEngine.loadProblem (job_pid j) w0) = Ok problem ->
  p_cases problem = [] ->
  let run := JudgeEngine.handleJob j w in
  value run = Ok tt /\
  (exists msg, published sid subDir (Error msg) (after run)) /\
  (forall runSpec cr,
      gj_prepareProgram (job_lang j) code (Js.or (filename problem) VNull) = Ok runSpec ->
      value (JudgeEngine.resolveChecker (job_pid j) problem w0) = Ok cr ->
      value (JudgeEngine.judgeAndPublish sid subDir runSpec problem (checkerId cr) w0)
        = Throw no_last_case /\
      published sid subDir (Error (String_of_error no_last_case)) (after run)) /\
  (forall w', w' ∈ observed run -> untouched_or_error sid w w') /\
  (forall w' passed result cases,
      w' ∈ observed run ->
      results w' !! sid = Some (Done passed result cases) ->
      results w !! sid = Some (Done passed result cases)).
Proof.
  intros sid subDir w0 Hsrc Hload Hnil run.
  destruct (judgeJob_no_cases sid (job_pid j) (job_lang j) code subDir w0 problem
              Hload Hnil) as (Hv & (e & Hpub & He) & Hst).
  assert (Hrun : run = JudgeEngine.handleJob j w) by reflexivity.
  unfold JudgeEngine.handleJob in Hrun. cbv zeta in Hrun.
  change (snd (submissionPaths submissionManager (job_sid j))) with subDir in *.
  assert (Hrun' : run = bind (JudgeEngine.materializeSource (job_code j) subDir)
                     (fun c => JudgeEngine.judgeJob (job_sid j) (job_pid j) (job_lang j) c subDir) w).
  { rewrite Hrun. unfold submissionPaths, subDir. reflexivity. }
  assert (Hobs : forall w', w' ∈ observed run -> untouched_or_error sid w w').
  { rewrite Hrun'. apply stable_bind; [typeclasses eauto| |].
    - apply stable_same_results, materializeSource_results.
    - intros c Hc. rewrite Hsrc in Hc. inversion Hc; subst c. exact Hst. }
  split; [|split; [|split; [|split]]].
  - rewrite Hrun', (value_bind _ _ _ _ Hsrc). exact Hv.
  - exists (String_of_error e). rewrite Hrun', (after_bind _ _ _ _ Hsrc). exact Hpub.
  - intros runSpec cr Hprep Hres. split.
    + rewrite judgeAndPublish_no_cases by exact Hnil. reflexivity.
    + rewrite <- (He runSpec cr Hprep Hres).
      rewrite Hrun', (after_bind _ _ _ _ Hsrc). exact Hpub.
  - exact Hobs.
  - intros w' pa re cs Hw' Hdone. destruct (Hobs w' Hw') as [Hsame|[msg Hmsg]].
    + rewrite <- Hsame. exact Hdone.
    + rewrite Hmsg in Hdone. discriminate.
Qed.

Lemma empty_case_list_is_error_witness :
  published (E := accepting_engine) 1 "submissions/0/1"
    (Error "TypeError: Cannot read properties of undefined (reading 'status')")
    (after (JudgeEngine.handleJob (E := accepting_engine) first_job
              (problem_world "zero cases"))).
Proof.
  refine (proj2 (proj1 (proj2 (proj2
            (empty_case_list_is_error (E := accepting_engine) first_job
               (problem_world "zero cases") (VStr "int main(){}") empty_problem
               _ _ _)))
            sample_spec (mkChecker "chk" (Some ["chk"])) _ _));
    vm_compute; reflexivity.
Defined.

(** The same world, run: the worker's turn ends with the [Error] verdict. *)
Example zero_cases_run :
  results (after (JudgeEngine.workerTurn (E := accepting_engine)
                    (set_queue (fun _ => [first_job]) (problem_world "zero cases")))) !! 1
    = Some (Error "TypeError: Cannot read properties of undefined (reading 'status')").
Proof. vm_compute. reflexivity. Qed.

(** An empty list of subtasks loads, and gives no case either. *)
Example no_subtasks_run :
  value (JudgeEngine.loadProblem (E := accepting_engine) "A" (problem_world "no subtasks"))
    = Ok (mkProblem "problems/A" no_subtasks [] (VStr "chk.cc") VUndef VNull).
Proof. vm_compute. reflexivity. Qed.

(** A full run on two cases that pass. *)
Example two_cases_run :
  results (after (JudgeEngine.workerTurn (E := accepting_engine)
                    (set_queue (fun _ => [first_job]) (problem_world "two cases")))) !! 1
    = Some (Done true "Accepted"
              [mkCaseResult true "Accepted" 1000000 65536 "ok";
               mkCaseResult true "Accepted" 1000000 65536 "ok"]).
Proof. vm_compute. reflexivity. Qed.

(** ** Problem loading: which configurations are accepted *)

(** C7, as stated, fails: a configuration whose [subtasks] is the empty list
    is accepted, by both revisions of the loader, and gives a problem without
    cases. *)
Lemma empty_subtasks_accepted :
  ProblemConfig.loadParsed (E := accepting_engine) "problems/A" no_subtasks
    = Ok (mkProblem "problems/A" no_subtasks [] (VStr "chk.cc") VUndef VNull) /\
  ProblemConfigOld.loadParsed (E := accepting_engine) "problems/A" no_subtasks
    = Ok (mkProblem "problems/A" no_subtasks [] (VStr "chk.cc") VUndef VNull).
Proof. split; reflexivity. Qed.

(** The revision in [src/problem_manager.js] rejects interactive problems in
    [loadConfig]; the revision the engine is written against loads them. *)
Example interactive_by_revision :
  ProblemConfigOld.loadParsed (E := accepting_engine) "problems/I" interactive_config
    = Throw (Error_ "Only type=default supported") /\
  (exists p, ProblemConfig.loadParsed (E := accepting_engine) "problems/I" interactive_config
             = Ok p /\ interactor p = VStr "interactor.cpp" /\ length (p_cases p) = 2%nat).
Proof. split; [reflexivity|]. eexists. split; [reflexivity|]. split; reflexivity. Qed.

Example leetcode_rejected :
  ProblemConfig.loadParsed (E := accepting_engine) "problems/L"
    (VObj [("type", VStr "leetcode"); ("subtasks", VArr [])])
    = Throw (Error_ "LeetCode problems are not supported for now.").
Proof. reflexivity. Qed.

Example subtask_without_cases_rejected :
  ProblemConfig.loadParsed (E := accepting_engine) "problems/A"
    (VObj [("subtasks", VArr [VObj [("n_cases", VNum (Int 1))]; VObj [("score", VNum (Int 5))]])])
    = Throw (Error_ "Subtask 1 must define either 'n_cases' or 'cases'").
Proof. reflexivity. Qed.

Section Loader.
Context {E : Engine}.
Import ProblemConfig.

Lemma prop_ok (o : jsval) (k : string) (v : jsval) :
  prop o k = Ok v <-> Js.get o k = Some v.
Proof.
  unfold prop. destruct (Js.get o k); split; intros H; inversion H; reflexivity.
Qed.

(** A value that has one property (possibly [undefined]) has them all. *)
Lemma get_total (o : jsval) (k k' : string) (v : jsval) :
  Js.get o k = Some v -> exists v', Js.get o k' = Some v'.
Proof. destruct o; simpl; intros H; try discriminate; eauto. Qed.

Lemma get_nullish (o : jsval) (k : string) : Js.get o k = None <-> nullish o.
Proof.
  unfold nullish. destruct o; simpl; split; intros H; try discriminate; auto;
    destruct H; discriminate.
Qed.

Lemma explicit_cases_ok (si : nat) (cs : list jsval) (t m : jsval) :
  (exists r, explicit_cases si cs t m = Ok r) <-> Forall (fun c => ~ nullish c) cs.
Proof.
  induction cs as [|c cs IH]; simpl.
  - split; [constructor|eauto].
  - unfold prop. destruct (Js.get c "input") as [vi|] eqn:Hi.
    + destruct (get_total c "input" "output" vi Hi) as [vo ->].
      destruct (get_total c "input" "time" vi Hi) as [vt ->].
      destruct (get_total c "input" "memory" vi Hi) as [vm ->].
      simpl. assert (Hc : ~ nullish c).
      { intros Hn. apply get_nullish with (k := "input") in Hn. congruence. }
      destruct (explicit_cases si cs t m) as [r|e]; simpl.
      * split; [|eauto]. intros _. constructor; [exact Hc|]. apply IH. eauto.
      * split; [intros [r Hr]; discriminate|].
        intros H. apply Forall_cons in H as [_ H]. apply IH in H as [r Hr]. discriminate.
    + simpl. split; [intros [r Hr]; discriminate|].
      intros H. apply Forall_cons in H as [Hc _]. exfalso. apply Hc.
      apply get_nullish with (k := "input"). exact Hi.
Qed.

Lemma subtasks_loop_ok (sts : list jsval) (si : nat) (curCase : jsval)
    (cases : list case_item) (gt gm ip is_ op os : jsval) :
  (exists r, subtasks_loop sts si curCase cases gt gm ip is_ op os = Ok r)
  <-> Forall subtask_loadable sts.
Proof.
  revert si curCase cases. induction sts as [|st sts IH]; intros si curCase cases.
  - simpl. split; [constructor|eauto].
  - cbn [subtasks_loop]. unfold prop.
    destruct (Js.get st "time_limit") as [v1|] eqn:H1.
    2:{ simpl. split; [intros [r Hr]; discriminate|].
        intros H. apply Forall_cons in H as [(n & cs & Hn & _) _].
        destruct (get_total st "n_cases" "time_limit" n Hn) as [v Hv]. congruence. }
    destruct (get_total st _ "time" _ H1) as [v2 ->].
    destruct (get_total st _ "memory_limit" _ H1) as [v3 ->].
    destruct (get_total st _ "memory" _ H1) as [v4 ->].
    destruct (get_total st _ "n_cases" _ H1) as [n Hn]. rewrite Hn.
    destruct (get_total st _ "cases" _ H1) as [cs Hcs]. rewrite Hcs.
    simpl.
    assert (Hload : subtask_loadable st <->
                    (n <> VUndef \/ exists l, cs = VArr l /\ Forall (fun c => ~ nullish c) l)).
    { unfold subtask_loadable. split.
      - intros (n' & cs' & Hn' & Hcs' & H).
        rewrite Hn in Hn'. rewrite Hcs in Hcs'.
        inversion Hn'; inversion Hcs'; subst. exact H.
      - intros H. exists n, cs. auto. }
    destruct (Js.is_undefined n) eqn:Hu; simpl.
    + assert (n = VUndef) by (destruct n; try discriminate; reflexivity). subst n.
      destruct cs as [| | | | |l|];
        try (split; [intros [r Hr]; discriminate|];
             intros H; apply Forall_cons in H as [H _]; apply Hload in H;
             destruct H as [H|(l & Hl & _)]; congruence).
      destruct (explicit_cases si l _ _) as [more|e] eqn:Hex; simpl.
      * rewrite IH. split.
        -- intros H. constructor; [|exact H]. apply Hload. right. exists l.
           split; [reflexivity|]. eapply explicit_cases_ok. eauto.
        -- intros H. apply Forall_cons in H as [_ H]. exact H.
      * split; [intros [r Hr]; discriminate|].
        intros H. apply Forall_cons in H as [H _]. apply Hload in H.
        destruct H as [H|(l' & Hl & Hf)]; [congruence|]. inversion Hl; subst l'.
        eapply explicit_cases_ok in Hf as [r Hr]. rewrite Hex in Hr. discriminate.
    + rewrite IH. split.
      * intros H. constructor; [|exact H]. apply Hload. left.
        intros ->. discriminate.
      * intros H. apply Forall_cons in H as [_ H]. exact H.
Qed.

Lemma is_str_true (v : jsval) (lit : string) :
  Js.is_str v lit = true <-> v = VStr lit.
Proof.
  destruct v; simpl; split; intros H; try discriminate.
  - apply String.eqb_eq in H. congruence.
  - inversion H. apply String.eqb_refl.
Qed.

Lemma loadSubtasks_ok (cfg : jsval) (sts : list jsval) :
  Js.get cfg "subtasks" = Some (VArr sts) ->
  (exists r, loadSubtasks cfg = Ok r) <-> Forall subtask_loadable sts.
Proof.
  intros Hs. unfold loadSubtasks, prop.
  destruct (get_total cfg _ "time_limit" _ Hs) as [v1 ->].
  destruct (get_total cfg _ "time" _ Hs) as [v2 ->].
  destruct (get_total cfg _ "memory_limit" _ Hs) as [v3 ->].
  destruct (get_total cfg _ "memory" _ Hs) as [v4 ->].
  destruct (get_total cfg _ "input_prefix" _ Hs) as [v5 ->].
  destruct (get_total cfg _ "output_prefix" _ Hs) as [v6 ->].
  destruct (get_total cfg _ "input_suffix" _ Hs) as [v7 ->].
  destruct (get_total cfg _ "output_suffix" _ Hs) as [v8 ->].
  rewrite Hs. simpl. apply subtasks_loop_ok.
Qed.

(** Loading succeeds exactly on the valid configurations. *)
Lemma loadParsed_ok (pdir : string) (cfg : jsval) :
  (exists p, loadParsed pdir cfg = Ok p) <-> config_valid cfg.
Proof.
  unfold loadParsed, config_valid, type_accepted, type_of_config, checkConfig, prop.
  destruct (Js.get cfg "type") as [ty|] eqn:Hty.
  2:{ simpl. split; [intros [p Hp]; discriminate|].
      intros [[H|H] _]; discriminate. }
  destruct (get_total cfg _ "subtasks" _ Hty) as [sub Hsub]. rewrite Hsub. simpl.
  destruct sub as [| | | | |sts|];
    try (cbn [Js.isArray negb]; rewrite ?orb_true_r; simpl;
         (split; [intros [p Hp]; discriminate|];
          intros [_ (sts & Hs & _)]; discriminate)).
  simpl. unfold loadByType, prop. rewrite Hty. simpl.
  set (t := Js.or ty (VStr "default")).
  pose proof (loadSubtasks_ok cfg sts Hsub) as Hloop.
  destruct (get_total cfg _ "checker" _ Hty) as [vc Hvc].
  destruct (get_total cfg _ "filename" _ Hty) as [vf Hvf].
  destruct (get_total cfg _ "interactor" _ Hty) as [vi Hvi].
  destruct (Js.is_str t "default") eqn:Hd.
  { apply is_str_true in Hd. unfold loadClassic, prop. rewrite Hvc, Hvf.
    destruct (loadSubtasks cfg) as [cases|e]; simpl.
    - split; [|eauto]. intros _. split; [left; congruence|].
      exists sts. split; [reflexivity|]. apply Hloop. eauto.
    - split; [intros [p Hp]; discriminate|].
      intros [_ (sts' & Hs & Hf)]. inversion Hs; subst sts'.
      apply Hloop in Hf as [r Hr]. discriminate. }
  destruct (Js.is_str t "leetcode") eqn:Hl.
  { apply is_str_true in Hl. unfold loadLeetcode.
    split; [intros [p Hp]; discriminate|].
    intros [[H|H] _]; rewrite Hl in H; discriminate. }
  destruct (Js.is_str t "interactive") eqn:Hi.
  { apply is_str_true in Hi. unfold loadInteractive, prop. rewrite Hvc, Hvf, Hvi.
    destruct (loadSubtasks cfg) as [cases|e]; simpl.
    - split; [|eauto]. intros _. split; [right; congruence|].
      exists sts. split; [reflexivity|]. apply Hloop. eauto.
    - split; [intros [p Hp]; discriminate|].
      intros [_ (sts' & Hs & Hf)]. inversion Hs; subst sts'.
      apply Hloop in Hf as [r Hr]. discriminate. }
  split; [intros [p Hp]; discriminate|].
  intros [[H|H] _]; inversion H as [Ht]; fold t in Ht.
  - apply is_str_true in Ht. congruence.
  - apply is_str_true in Ht. congruence.
Qed.

(** [loadProblem] on a configuration file that reads and parses. *)
Lemma loadProblem_parsed (pdir txt : string) (cfg : jsval) (w : world) :
  fs_files w !! path_join pdir "config.yaml" = Some txt ->
  YAML_load txt = Ok cfg ->
  value (loadProblem pdir w) = loadParsed pdir cfg.
Proof.
  intros Hf Hy.
  unfold loadProblem, loadConfig, loadParsed, bind, try_catch, await, readFile, lift, value.
  rewrite Hf. simpl. rewrite Hy. simpl.
  destruct (checkConfig cfg); reflexivity.
Qed.

End Loader.

(** C7, amended. For a configuration file that reads and parses, problem
    loading raises an error exactly when the configuration is not valid,
    where a valid configuration is one whose [type], with an absent or falsy
    one standing for [default], is [default] or [interactive], whose
    [subtasks] is a list, possibly empty, and each of whose subtasks defines
    [n_cases] or else a list [cases] (of entries that are not null).  In
    particular a missing or non-list [subtasks], any other type and a subtask
    with neither [n_cases] nor a list [cases] are rejected, and an empty list
    of subtasks is accepted and yields no case. *)
Theorem loading_fails_iff_invalid {E : Engine} (pdir txt : string) (cfg : jsval)
    (w : world) :
  fs_files w !! path_join pdir "config.yaml" = Some txt ->
  YAML_load txt = Ok cfg ->
  ((exists e, value (ProblemConfig.loadProblem pdir w) = Throw e) <-> ~ config_valid cfg) /\
  ((exists p, value (ProblemConfig.loadProblem pdir w) = Ok p) <-> config_valid cfg) /\
  (type_accepted cfg -> Js.get cfg "subtasks" = Some (VArr []) ->
   exists p, value (ProblemConfig.loadProblem pdir w) = Ok p /\ p_cases p = []).
Proof.
  intros Hf Hy. rewrite (loadProblem_parsed pdir txt cfg w Hf Hy).
  pose proof (loadParsed_ok pdir cfg) as Hok.
  split; [|split].
  - split.
    + intros [e He] Hvalid. apply Hok in Hvalid as [p Hp]. congruence.
    + intros Hinv. destruct (ProblemConfig.loadParsed pdir cfg) as [p|e]; [|eauto].
      exfalso. apply Hinv, Hok. eauto.
  - exact Hok.
  - intros Hty Hsub.
    assert (Hvalid : config_valid cfg).
    { split; [exact Hty|]. exists []. split; [exact Hsub|constructor]. }
    apply Hok in Hvalid as [p Hp]. exists p. split; [exact Hp|].
    revert Hp. unfold ProblemConfig.loadParsed, ProblemConfig.checkConfig,
      ProblemConfig.loadByType, ProblemConfig.loadClassic,
      ProblemConfig.loadInteractive, ProblemConfig.loadLeetcode,
      ProblemConfig.loadSubtasks, prop.
    destruct (get_total cfg _ "type" _ Hsub) as [v0 H0].
    destruct (get_total cfg _ "time_limit" _ Hsub) as [v1 H1].
    destruct (get_total cfg _ "time" _ Hsub) as [v2 H2].
    destruct (get_total cfg _ "memory_limit" _ Hsub) as [v3 H3].
    destruct (get_total cfg _ "memory" _ Hsub) as [v4 H4].
    destruct (get_total cfg _ "input_prefix" _ Hsub) as [v5 H5].
    destruct (get_total cfg _ "output_prefix" _ Hsub) as [v6 H6].
    destruct (get_total cfg _ "input_suffix" _ Hsub) as [v7 H7].
    destruct (get_total cfg _ "output_suffix" _ Hsub) as [v8 H8].
    destruct (get_total cfg _ "checker" _ Hsub) as [v9 H9].
    destruct (get_total cfg _ "filename" _ Hsub) as [v10 H10].
    destruct (get_total cfg _ "interactor" _ Hsub) as [v11 H11].
    rewrite H0, Hsub. simpl. rewrite H0. simpl.
    repeat (destruct (Js.is_str _ _)); simpl;
      rewrite ?H1, ?H2, ?H3, ?H4, ?H5, ?H6, ?H7, ?H8, ?H9, ?H10, ?H11, ?Hsub; simpl;
      rewrite ?H1, ?H2, ?H3, ?H4, ?H5, ?H6, ?H7, ?H8, ?H9, ?H10, ?H11, ?Hsub; simpl;
      intros H; inversion H; reflexivity.
Qed.

Lemma loading_fails_iff_invalid_witness :
  exists p,
    value (ProblemConfig.loadProblem (E := accepting_engine) "problems/A"
             (problem_world "no subtasks")) = Ok p /\
    p_cases p = [].
Proof.
  refine (proj2 (proj2 (loading_fails_iff_invalid (E := accepting_engine)
                          "problems/A" "no subtasks" no_subtasks
                          (problem_world "no subtasks") _ _)) _ _).
  - vm_compute; reflexivity.
  - reflexivity.
  - left. reflexivity.
  - reflexivity.
Defined.

(** ** File names of generated cases *)

Section Templating.
Context {E : Engine}.
Import ProblemConfig.

Lemma generated_names (si : nat) (n cur : Z) (ip is_ op os t m : jsval) :
  map case_names
      (generated_cases si (VNum (Int n)) (VNum (Int cur)) ip is_ op os t m)
  = map (fun k => (si, templated ip is_ (cur + k), templated op os (cur + k)))
        (seqZ 0 (Z.of_nat (Z.to_nat n))).
Proof.
  unfold generated_cases, loop_count. simpl ToNumber.
  rewrite map_map. apply map_ext. intros k. reflexivity.
Qed.

Lemma explicit_names (si : nat) (cs : list jsval) (t m : jsval) :
  Forall (fun c => ~ nullish c) cs ->
  exists more,
    explicit_cases si cs t m = Ok more /\
    map case_names more = map (fun c => (si, field c "input", field c "output")) cs.
Proof.
  induction 1 as [|c cs Hc Hcs IH]; [exists []; split; reflexivity|].
  destruct IH as (more & Hrun & Hnames).
  assert (Hget : forall k, exists v, Js.get c k = Some v).
  { intros k. destruct (Js.get c k) as [v|] eqn:Hk; [eauto|].
    exfalso. apply Hc. apply (get_nullish c k). exact Hk. }
  destruct (Hget "input") as [vi Hi]. destruct (Hget "output") as [vo Ho].
  destruct (Hget "time") as [vt Ht]. destruct (Hget "memory") as [vm Hm].
  exists (mkCase si vi vo (Js.or vt t) (Js.or vm m) :: more). split.
  - cbn [explicit_cases]. unfold prop. rewrite Hi, Ho, Ht, Hm, Hrun. reflexivity.
  - cbn [map]. rewrite Hnames. unfold case_names, field. simpl.
    rewrite Hi, Ho. reflexivity.
Qed.

Lemma subtasks_loop_names (sts : list jsval) (ds : list declared) :
  Forall2 declares sts ds ->
  forall (si : nat) (cur : Z) (cases : list case_item) (gt gm ip is_ op os : jsval),
  exists more,
    subtasks_loop sts si (VNum (Int cur)) cases gt gm ip is_ op os = Ok (cases ++ more) /\
    map case_names more =
      concat (imap (fun j d =>
                      match d with
                      | Generated n =>
                          map (fun k =>
                                 ((si + j)%nat,
                                  templated ip is_ (cur + total (map advance (take j ds)) + k),
                                  templated op os (cur + total (map advance (take j ds)) + k)))
                              (seqZ 0 (Z.of_nat (Z.to_nat n)))
                      | Explicit cs =>
                          map (fun c => ((si + j)%nat, field c "input", field c "output")) cs
                      end)
                   ds).
Proof.
  induction 1 as [|st d sts ds Hd Hrest IH]; intros si cur cases gt gm ip is_ op os.
  - exists []. simpl. rewrite app_nil_r. split; reflexivity.
  - assert (Hn : exists v, Js.get st "n_cases" = Some v).
    { destruct d as [n|cs]; simpl in Hd; [eauto|destruct Hd; eauto]. }
    destruct Hn as [vn Hvn].
    cbn [subtasks_loop]. unfold prop.
    destruct (get_total st _ "time_limit" _ Hvn) as [v1 ->].
    destruct (get_total st _ "time" _ Hvn) as [v2 ->].
    destruct (get_total st _ "memory_limit" _ Hvn) as [v3 ->].
    destruct (get_total st _ "memory" _ Hvn) as [v4 ->].
    destruct d as [n|cs]; simpl in Hd.
    + destruct (get_total st _ "cases" _ Hd) as [v5 ->].
      rewrite Hd. simpl obind. cbn [Js.is_undefined negb].
      change (js_add (VNum (Int cur)) (VNum (Int n))) with (VNum (Int (cur + n))).
      set (gen := generated_cases si (VNum (Int n)) (VNum (Int cur)) ip is_ op os _ _).
      destruct (IH (S si) (cur + n) (cases ++ gen) gt gm ip is_ op os)
        as (more & Hrun & Hnames).
      exists (gen ++ more). split.
      * rewrite Hrun, app_assoc. reflexivity.
      * rewrite map_app, Hnames. unfold gen. rewrite generated_names.
        rewrite imap_cons. cbn [concat]. f_equal.
        -- apply map_ext. intros k. simpl. rewrite Nat.add_0_r.
           replace (cur + 0 + k) with (cur + k) by lia. reflexivity.
        -- f_equal. apply imap_ext. intros j x _. simpl.
           rewrite Nat.add_succ_r.
           replace (cur + n + total (map advance (take j ds)))
             with (cur + (n + total (map advance (take j ds)))) by lia.
           reflexivity.
    + destruct Hd as (Hu & Hcs & Hok). rewrite Hu, Hcs. simpl obind.
      cbn [Js.is_undefined negb].
      destruct (explicit_names si cs (Js.or v1 (Js.or v2 gt)) (Js.or v3 (Js.or v4 gm)) Hok)
        as (ex & Hex & Hexn).
      rewrite Hex. simpl obind.
      destruct (IH (S si) cur (cases ++ ex) gt gm ip is_ op os)
        as (more & Hrun & Hnames).
      exists (ex ++ more). split.
      * rewrite Hrun, app_assoc. reflexivity.
      * rewrite map_app, Hnames, Hexn.
        rewrite imap_cons. cbn [concat]. f_equal.
        -- apply map_ext. intros c. rewrite Nat.add_0_r. reflexivity.
        -- f_equal. apply imap_ext. intros j x _. simpl.
           rewrite Nat.add_succ_r.
           replace (cur + (0 + total (map advance (take j ds))))
             with (cur + total (map advance (take j ds))) by lia.
           reflexivity.
Qed.

End Templating.

(** C8. For a configuration each of whose subtasks declares an integer
    [n_cases] or a list of explicit cases, the loader returns the flattened
    cases whose subtask, input file and output file are those of
    [templated_names]: the generated case [k] of subtask [j] is named with the
    index [first_index + k]; the first index is 1 for the first subtask and,
    for a later subtask, continues after the generated cases of the subtasks
    before it (it never restarts); prefixes default to the empty string and
    suffixes to [.in] and [.ans]. *)
Theorem n_cases_templating {E : Engine} (cfg : jsval) (sts : list jsval)
    (ds : list declared) :
  Js.get cfg "subtasks" = Some (VArr sts) ->
  Forall2 declares sts ds ->
  exists cases,
    ProblemConfig.loadSubtasks cfg = Ok cases /\
    map case_names cases =
      templated_names (Js.or (field cfg "input_prefix") (VStr ""))
                      (Js.or (field cfg "input_suffix") (VStr ".in"))
                      (Js.or (field cfg "output_prefix") (VStr ""))
                      (Js.or (field cfg "output_suffix") (VStr ".ans")) ds /\
    first_index ds 0 = 1 /\
    (forall j d, ds !! j = Some d -> first_index ds (S j) = first_index ds j + advance d).
Proof.
  intros Hs Hn. unfold ProblemConfig.loadSubtasks, prop, field.
  destruct (get_total cfg _ "time_limit" _ Hs) as [v1 ->].
  destruct (get_total cfg _ "time" _ Hs) as [v2 ->].
  destruct (get_total cfg _ "memory_limit" _ Hs) as [v3 ->].
  destruct (get_total cfg _ "memory" _ Hs) as [v4 ->].
  destruct (get_total cfg _ "input_prefix" _ Hs) as [v5 ->].
  destruct (get_total cfg _ "output_prefix" _ Hs) as [v6 ->].
  destruct (get_total cfg _ "input_suffix" _ Hs) as [v7 ->].
  destruct (get_total cfg _ "output_suffix" _ Hs) as [v8 ->].
  rewrite Hs. simpl obind.
  destruct (subtasks_loop_names sts ds Hn 0%nat 1 []
              (Js.or v1 (Js.or v2 (VStr "1s"))) (Js.or v3 (Js.or v4 (VStr "256m")))
              (Js.or v5 (VStr "")) (Js.or v7 (VStr ".in"))
              (Js.or v6 (VStr "")) (Js.or v8 (VStr ".ans")))
    as (more & Hrun & Hnames).
  exists more. split; [exact Hrun|]. split; [exact Hnames|]. split; [reflexivity|].
  intros j d Hj. unfold first_index.
  rewrite (take_S_r _ _ _ Hj), map_app. unfold total. rewrite fold_right_app. simpl.
  assert (Hfold : forall (l : list Z) (a : Z),
             fold_right Z.add a l = fold_right Z.add 0 l + a).
  { induction l as [|x l IHl]; intros a; simpl; [lia|]. rewrite IHl. lia. }
  rewrite Hfold. lia.
Qed.

Lemma n_cases_templating_witness :
  exists cases,
    ProblemConfig.loadSubtasks (E := accepting_engine) three_subtasks = Ok cases /\
    map case_names cases =
      [(0%nat, VStr "t1.in", VStr "1.ans"); (0%nat, VStr "t2.in", VStr "2.ans");
       (1%nat, VStr "extra.in", VStr "extra.out");
       (2%nat, VStr "t3.in", VStr "3.ans"); (2%nat, VStr "t4.in", VStr "4.ans");
       (2%nat, VStr "t5.in", VStr "5.ans")].
Proof.
  destruct (n_cases_templating (E := accepting_engine) three_subtasks
              [VObj [("n_cases", VNum (Int 2))];
               VObj [("cases", VArr [explicit_case])];
               VObj [("n_cases", VNum (Int 3))]]
              [Generated 2; Explicit [explicit_case]; Generated 3])
    as (cases & Hrun & Hnames & _).
  - reflexivity.
  - repeat constructor; unfold nullish; intros [H|H]; discriminate.
  - exists cases. split; [exact Hrun|]. rewrite Hnames. vm_compute. reflexivity.
Defined.

(** A worker that meets a job without a [code] property ends there: the jobs
    behind it in the queue are not judged by it. *)
Example worker_ends_on_spilled_job :
  let w := set_queue (fun _ => [mkJob 1 "A" "cpp" VUndef; mkJob 2 "A" "cpp" (VStr "int main(){}")])
             (set_results (insert 2 Queued ∘ insert 1 Queued) (problem_world "two cases")) in
  let run := JudgeEngine.startWorker (E := accepting_engine) 5 w in
  value run = Throw invalid_data /\
  results (after run) !! 1 = Some Queued /\
  results (after run) !! 2 = Some Queued /\
  queue (after run) = [mkJob 2 "A" "cpp" (VStr "int main(){}")].
Proof. vm_compute. repeat split; reflexivity. Qed.

(** * Further properties of the engine *)

(** ** Strings *)

Lemma length_append (a b : string) :
  String.length (a +:+ b) = (String.length a + String.length b)%nat.
Proof.
  induction a as [|c a IH]; [reflexivity|].
  change (String c a +:+ b) with (String c (a +:+ b)). simpl. rewrite IH. reflexivity.
Qed.

Lemma append_cons (c : ascii) (a b : string) : String c a +:+ b = String c (a +:+ b).
Proof. reflexivity. Qed.

Lemma append_assoc (a b c : string) : (a +:+ b) +:+ c = a +:+ (b +:+ c).
Proof.
  induction a as [|x a IH]; [reflexivity|].
  rewrite !append_cons, IH. reflexivity.
Qed.

Lemma append_nil_r (a : string) : a +:+ "" = a.
Proof.
  induction a as [|x a IH]; [reflexivity|].
  rewrite append_cons, IH. reflexivity.
Qed.

#[local] Instance keeps_preorder {A} (f : world -> A) : PreOrder (keeps f).
Proof.
  split; [intros w; reflexivity|].
  intros w1 w2 w3 H12 H23. unfold keeps in *. congruence.
Qed.

#[local] Instance settles_preorder (sid : Z) : PreOrder (settles sid).
Proof.
  split; [intros w; left; reflexivity|].
  intros w1 w2 w3 [H12|(v & Hv & H12)] [H23|(v' & Hv' & H23)]; unfold settles.
  - left. congruence.
  - right. exists v'. split; [exact Hv'|]. congruence.
  - right. exists v. split; [exact Hv|]. congruence.
  - right. exists v'. split; [exact Hv'|]. rewrite H23, H12.
    apply insert_insert_eq.
Qed.

(** ** Judging a case: what it touches *)

Section CaseFrame.
Context {E : Engine} {A : Type} (f : world -> A).
Hypothesis f_runs : forall g w, f (set_runs g w) = f w.
Import JudgeEngine.

Lemma readTestFile_keeps (pid : string) (name : jsval) (w : world) :
  stable_at (keeps f) (readTestFile pid name) w.
Proof.
  apply (stable_mono eq); [intros ? ? ->; reflexivity|].
  apply readTestFile_readonly.
Qed.

Lemma readAnswer_keeps (pid : string) (c : case_item) (w : world) :
  stable_at (keeps f) (readAnswer pid c) w.
Proof.
  unfold readAnswer.
  apply stable_try_catch; [typeclasses eauto| |intros ? _; apply readTestFile_keeps].
  apply stable_bind; [typeclasses eauto|stable|intros ? _; apply readTestFile_keeps].
Qed.

Lemma runOne_keeps (cmd : run_request) (w : world) :
  stable_at (keeps f) (runOne cmd) w.
Proof. apply stable_await; [typeclasses eauto|]. apply f_runs. Qed.

Lemma judgeCase_keeps (runSpec : run_spec) (c : case_item) (p : problem)
    (chk : string) (w : world) :
  stable_at (keeps f) (judgeCase runSpec c p chk) w.
Proof.
  unfold judgeCase.
  apply stable_bind; [typeclasses eauto|apply readTestFile_keeps|intros inf _].
  apply stable_bind; [typeclasses eauto|apply readAnswer_keeps|intros ans _].
  apply stable_bind; [typeclasses eauto|apply runOne_keeps|intros runRes _].
  destruct (negb (String.eqb (rr_status runRes) "Accepted")).
  - stable.
  - apply stable_bind; [typeclasses eauto|apply runOne_keeps|intros chkRes _].
    stable.
Qed.

Lemma judge_cases_keeps (runSpec : run_spec) (p : problem) (chk : string)
    (cs : list case_item) (acc : list case_result) (w : world) :
  stable_at (keeps f) (judge_cases runSpec p chk cs acc) w.
Proof.
  revert acc w. induction cs as [|c cs IH]; intros acc w; cbn [judge_cases].
  - stable.
  - apply stable_bind; [typeclasses eauto|apply judgeCase_keeps|intros r _].
    destruct (negb (ok r)); [stable|apply IH].
Qed.

End CaseFrame.

(** ** Publishing a verdict: what it touches *)

Section PublishFrame.
Context {E : Engine} {A : Type} (f : world -> A).
Variables (sid : Z) (subDir : string).
Hypothesis f_runs : forall g w, f (set_runs g w) = f w.
Hypothesis f_results : forall g w, f (set_results g w) = f w.
Hypothesis f_result_json :
  forall txt w, f (set_files (insert (path_join subDir "result.json") txt) w) = f w.
Import JudgeEngine.

Lemma publishError_keeps (e : error) (w : world) :
  stable_at (keeps f) (publishError sid subDir e) w.
Proof.
  unfold publishError, results_set.
  apply stable_bind; [typeclasses eauto| |intros ? _].
  - apply stable_modify. apply f_results.
  - apply stable_await; [typeclasses eauto|]. apply f_result_json.
Qed.

Lemma judgeAndPublish_keeps (runSpec : run_spec) (p : problem) (chk : string)
    (w : world) :
  stable_at (keeps f) (judgeAndPublish sid subDir runSpec p chk) w.
Proof.
  unfold judgeAndPublish.
  apply stable_bind; [typeclasses eauto|apply judge_cases_keeps, f_runs|].
  intros [caseResults firstBad] _.
  apply stable_bind; [typeclasses eauto|stable|intros result _].
  unfold results_set.
  apply stable_bind; [typeclasses eauto| |intros ? _].
  - apply stable_modify. apply f_results.
  - apply stable_await; [typeclasses eauto|]. apply f_result_json.
Qed.

(** The [try] and [catch] blocks of the worker. *)
Lemma verdict_keeps (runSpec : run_spec) (p : problem) (chk : string) (w : world) :
  stable_at (keeps f)
    (try_catch (judgeAndPublish sid subDir runSpec p chk) (publishError sid subDir)) w.
Proof.
  apply stable_try_catch; [typeclasses eauto|apply judgeAndPublish_keeps|].
  intros e _. apply publishError_keeps.
Qed.

Hypothesis f_deleted : forall g w, f (set_deleted g w) = f w.

Lemma deleteAll_keeps (ids : list string) (w : world) :
  stable_at (keeps f) (deleteAll ids) w.
Proof.
  revert w. induction ids as [|id ids IH]; intros w; cbn [deleteAll].
  - stable.
  - apply stable_bind; [typeclasses eauto| |intros ? _; apply IH].
    apply stable_await; [typeclasses eauto|]. apply f_deleted.
Qed.

Lemma releaseArtifacts_keeps (ids : list string) (cc : option (list string))
    (w : world) :
  stable_at (keeps f) (releaseArtifacts ids cc) w.
Proof.
  unfold releaseArtifacts.
  apply stable_bind; [typeclasses eauto|apply deleteAll_keeps|].
  intros ? _. destruct cc; [apply deleteAll_keeps|stable].
Qed.

Lemma judgeJob_keeps (pid lang : string) (code : jsval) (w : world) :
  stable_at (keeps f) (judgeJob sid pid lang code subDir) w.
Proof.
  assert (Hro : forall B (m : M B) w0, stable_at eq m w0 -> stable_at (keeps f) m w0).
  { intros B m w0. apply stable_mono. intros ? ? ->. reflexivity. }
  assert (Hcaught : forall e ids cc w0,
             stable_at (keeps f)
               (finally (publishError sid subDir e) (releaseArtifacts ids cc)) w0).
  { intros. apply stable_finally; [typeclasses eauto|apply publishError_keeps|].
    apply releaseArtifacts_keeps. }
  unfold judgeJob.
  apply stable_bind; [typeclasses eauto| |].
  { apply stable_attempt, Hro.
    apply stable_bind; [typeclasses eauto|apply loadProblem_readonly|].
    intros ? _. stable. reflexivity. }
  intros [[p runSpec]|e] _; [|apply Hcaught].
  apply stable_bind; [typeclasses eauto| |].
  { apply stable_attempt, Hro, resolveChecker_readonly. }
  intros [cr|e] _; [|apply Hcaught].
  apply stable_finally; [typeclasses eauto|apply verdict_keeps|].
  apply releaseArtifacts_keeps.
Qed.

End PublishFrame.

(** ** Every job with its source inline is settled *)

Section Settling.
Context {E : Engine}.
Import JudgeEngine.

Lemma keeps_results_settles {B} (sid : Z) (m : M B) (w : world) :
  stable_at (keeps results) m w -> stable_at (settles sid) m w.
Proof. apply stable_mono. intros w1 w2 H. left. exact H. Qed.

Lemma results_set_settles (sid : Z) (v : verdict) (w : world) :
  terminal v -> stable_at (settles sid) (results_set sid v) w.
Proof. intros Hv. apply stable_modify. right. exists v. split; [exact Hv|reflexivity]. Qed.

Lemma publishError_settles (sid : Z) (subDir : string) (e : error) (w : world) :
  stable_at (settles sid) (publishError sid subDir e) w.
Proof.
  unfold publishError.
  apply stable_bind; [typeclasses eauto|apply results_set_settles; exact I|intros ? _].
  apply stable_await; [typeclasses eauto|]. left. reflexivity.
Qed.

Lemma judgeAndPublish_settles (sid : Z) (subDir : string) (runSpec : run_spec)
    (p : problem) (chk : string) (w : world) :
  stable_at (settles sid) (judgeAndPublish sid subDir runSpec p chk) w.
Proof.
  unfold judgeAndPublish.
  apply stable_bind; [typeclasses eauto| |].
  { apply keeps_results_settles, judge_cases_keeps. reflexivity. }
  intros [caseResults firstBad] _.
  apply stable_bind; [typeclasses eauto|stable|intros result _].
  apply stable_bind; [typeclasses eauto|apply results_set_settles; exact I|intros ? _].
  apply stable_await; [typeclasses eauto|]. left. reflexivity.
Qed.

Lemma judgeJob_settles (sid : Z) (pid lang : string) (code : jsval)
    (subDir : string) (w : world) :
  stable_at (settles sid) (judgeJob sid pid lang code subDir) w.
Proof.
  assert (Hro : forall B (m : M B) w0, stable_at eq m w0 -> stable_at (settles sid) m w0).
  { intros B m w0. apply stable_mono. intros ? ? ->. reflexivity. }
  assert (Hrel : forall ids cc w0, stable_at (settles sid) (releaseArtifacts ids cc) w0).
  { intros. apply keeps_results_settles, releaseArtifacts_results. }
  assert (Hcaught : forall e ids cc w0,
             stable_at (settles sid)
               (finally (publishError sid subDir e) (releaseArtifacts ids cc)) w0).
  { intros. apply stable_finally; [typeclasses eauto|apply publishError_settles|].
    apply Hrel. }
  unfold judgeJob.
  apply stable_bind; [typeclasses eauto| |].
  { apply stable_attempt, Hro.
    apply stable_bind; [typeclasses eauto|apply loadProblem_readonly|].
    intros ? _. stable. reflexivity. }
  intros [[p runSpec]|e] _; [|apply Hcaught].
  apply stable_bind; [typeclasses eauto| |].
  { apply stable_attempt, Hro, resolveChecker_readonly. }
  intros [cr|e] _; [|apply Hcaught].
  apply stable_finally; [typeclasses eauto| |apply Hrel].
  apply stable_try_catch; [typeclasses eauto|apply judgeAndPublish_settles|].
  intros e _. apply publishError_settles.
Qed.

Lemma handleJob_unfold (j : job) (w : world) :
  handleJob j w =
    bind (materializeSource (job_code j) (snd (submissionPaths submissionManager (job_sid j))))
         (fun code => judgeJob (job_sid j) (job_pid j) (job_lang j) code
                        (snd (submissionPaths submissionManager (job_sid j)))) w.
Proof. reflexivity. Qed.

Lemma archive_run (src subDir : string) (w : world) :
  materializeSource (VStr src) subDir w =
    (Ok (VStr src), set_files (insert (path_join subDir "source.code") src) w, [w]).
Proof. reflexivity. Qed.

Lemma source_is_not_result (subDir : string) :
  path_join subDir "source.code" <> path_join subDir "result.json".
Proof.
  intros Heq. apply (f_equal last_char) in Heq.
  rewrite !last_char_path_join in Heq by (cbv; congruence). discriminate.
Qed.

End Settling.

Lemma handleJob_inline {E : Engine} (j : job) (src : string) (w : world) :
  job_code j = VStr src ->
  let sid := job_sid j in
  let subDir := snd (submissionPaths submissionManager sid) in
  subDir ∈ fs_dirs w ->
  let run := JudgeEngine.handleJob j w in
  value run = Ok tt /\
  (exists v, terminal v /\ published sid subDir v (after run) /\
             results (after run) = <[sid := v]> (results w)) /\
  fs_files (after run) !! path_join subDir "source.code" = Some src /\
  queue (after run) = queue w /\
  (forall w', w' ∈ observed run -> settles sid w w') /\
  fs_dirs (after run) = fs_dirs w /\
  (forall file : string,
      file <> path_join subDir "source.code" ->
      file <> path_join subDir "result.json" ->
      fs_files (after run) !! file = fs_files w !! file).
Proof.
  intros Hcode sid subDir _ run.
  assert (Hrun : run = bind (JudgeEngine.materializeSource (VStr src) subDir)
                         (fun code => JudgeEngine.judgeJob sid (job_pid j) (job_lang j)
                                        code subDir) w).
  { subst run. rewrite handleJob_unfold, Hcode. reflexivity. }
  set (w1 := set_files (insert (path_join subDir "source.code") src) w).
  assert (Hsrc : value (JudgeEngine.materializeSource (VStr src) subDir w) = Ok (VStr src))
    by reflexivity.
  assert (Hafter : after run
                   = after (JudgeEngine.judgeJob sid (job_pid j) (job_lang j) (VStr src) subDir w1)).
  { rewrite Hrun, (after_bind _ _ _ _ Hsrc). reflexivity. }
  destruct (judgeJob_publishes sid (job_pid j) (job_lang j) (VStr src) subDir w1)
    as (Hv & v & Hterm & Hpub).
  assert (Hobs : forall w', w' ∈ observed run -> settles sid w w').
  { rewrite Hrun. apply stable_bind; [typeclasses eauto| |].
    - apply keeps_results_settles, materializeSource_results.
    - intros c Hc. rewrite Hsrc in Hc. inversion Hc; subst c.
      apply judgeJob_settles. }
  split; [|split; [|split; [|split; [|split; [|split]]]]].
  - rewrite Hrun, (value_bind _ _ _ _ Hsrc). exact Hv.
  - exists v. split; [exact Hterm|]. rewrite Hafter. split; [exact Hpub|].
    destruct Hpub as [Hres _].
    pose proof (stable_after _ _ _ (judgeJob_settles sid (job_pid j) (job_lang j)
                                      (VStr src) subDir w1)) as [Hsame|(v' & _ & Hins)].
    + change (results w1) with (results w) in Hsame.
      rewrite Hsame in Hres |- *. symmetry. apply insert_id. exact Hres.
    + change (results w1) with (results w) in Hins.
      rewrite Hins in Hres |- *. rewrite lookup_insert_eq in Hres. congruence.
  - rewrite Hafter.
    pose proof (stable_after _ _ _
                  (judgeJob_keeps (fun w0 => fs_files w0 !! path_join subDir "source.code")
                     sid subDir (fun _ _ => eq_refl) (fun _ _ => eq_refl)
                     (fun txt w0 => lookup_insert_ne _ _ _ _ (not_eq_sym (source_is_not_result subDir)))
                     (fun _ _ => eq_refl)
                     (job_pid j) (job_lang j) (VStr src) w1)) as Hk.
    unfold keeps in Hk. rewrite Hk. apply lookup_insert_eq.
  - rewrite Hafter.
    exact (stable_after _ _ _
             (judgeJob_keeps queue sid subDir (fun _ _ => eq_refl) (fun _ _ => eq_refl)
                (fun _ _ => eq_refl) (fun _ _ => eq_refl)
                (job_pid j) (job_lang j) (VStr src) w1)).
  - exact Hobs.
  - rewrite Hafter.
    exact (stable_after _ _ _
             (judgeJob_keeps fs_dirs sid subDir (fun _ _ => eq_refl) (fun _ _ => eq_refl)
                (fun _ _ => eq_refl) (fun _ _ => eq_refl)
                (job_pid j) (job_lang j) (VStr src) w1)).
  - intros file Hsource Hresult. rewrite Hafter.
    pose proof (stable_after _ _ _
                  (judgeJob_keeps (fun w0 => fs_files w0 !! file)
                     sid subDir (fun _ _ => eq_refl) (fun _ _ => eq_refl)
                     (fun txt w0 => lookup_insert_ne _ _ _ _ (not_eq_sym Hresult))
                     (fun _ _ => eq_refl)
                     (job_pid j) (job_lang j) (VStr src) w1)) as Hk.
    unfold keeps in Hk. rewrite Hk. unfold w1. simpl.
    apply lookup_insert_ne. apply not_eq_sym, Hsource.
Qed.

(** X1. a job that carries its source and whose submission directory is in
    place is settled.  The worker's writes all go to that directory: it
    archives the source there, returns without an exception, and leaves a
    terminal verdict for the submission in the cache and in [result.json].
    The queue and the directories are not touched, no file other than
    [source.code] and [result.json] of the submission is changed, and at
    every point at which another task can look at the cache it is what it
    was before the job, or differs from that by a terminal verdict stored
    for this submission only.  (The directory is there from intake on; a
    reset that empties the submissions tree while the job waits removes it,
    and the job is then outside this statement.  Deleting a cached file of
    the sandbox does not fail in the embedding.) *)
Theorem inline_job_settles {E : Engine} (j : job) (src : string) (w : world) :
  job_code j = VStr src ->
  let sid := job_sid j in
  let subDir := snd (submissionPaths submissionManager sid) in
  subDir ∈ fs_dirs w ->
  let run := JudgeEngine.handleJob j w in
  value run = Ok tt /\
  (exists v, terminal v /\ published sid subDir v (after run) /\
             results (after run) = <[sid := v]> (results w)) /\
  fs_files (after run) !! path_join subDir "source.code" = Some src /\
  queue (after run) = queue w /\
  (forall w', w' ∈ observed run -> settles sid w w') /\
  fs_dirs (after run) = fs_dirs w /\
  (forall file : string,
      file <> path_join subDir "source.code" ->
      file <> path_join subDir "result.json" ->
      fs_files (after run) !! file = fs_files w !! file).
Proof. exact (handleJob_inline j src w). Qed.

Lemma inline_job_settles_witness :
  value (JudgeEngine.handleJob (E := accepting_engine) first_job
           (received_world "two cases")) = Ok tt.
Proof.
  refine (proj1 (inline_job_settles (E := accepting_engine) first_job "int main(){}"
                   (received_world "two cases") eq_refl _)).
  vm_compute. set_solver.
Defined.

(** ** Cached files of the sandbox are released *)

Section Release.
Context {E : Engine}.
Import JudgeEngine.

Lemma releaseArtifacts_deleted (ids : list string) (cc : option (list string))
    (w : world) :
  gj_deleted (after (releaseArtifacts ids cc w))
    = gj_deleted w ++ ids ++ match cc with Some l => l | None => [] end.
Proof.
  unfold releaseArtifacts.
  destruct (deleteAll_run ids w) as [Hv Ha].
  rewrite (after_bind _ _ _ _ Hv), Ha.
  destruct cc as [l|].
  - destruct (deleteAll_run l (set_deleted (fun l0 => l0 ++ ids) w)) as [_ Ha2].
    rewrite Ha2. simpl. rewrite app_assoc. reflexivity.
  - unfold ret, after; simpl. rewrite app_nil_r. reflexivity.
Qed.

Lemma caught_deleted (sid : Z) (subDir : string) (e : error) (ids : list string)
    (cc : option (list string)) (w : world) :
  gj_deleted (after (finally (publishError sid subDir e) (releaseArtifacts ids cc) w))
    = gj_deleted w ++ ids ++ match cc with Some l => l | None => [] end.
Proof.
  destruct (finally_run (publishError sid subDir e) (releaseArtifacts ids cc) w)
    as [_ Ha]; [apply releaseArtifacts_run|].
  rewrite Ha, releaseArtifacts_deleted. reflexivity.
Qed.

End Release.

(** X2. whatever the outcome of a job, the files the sandbox cached for it are
    deleted, each once and in order: when the problem loads and the program is
    prepared, the worker deletes the [cleanupIds] of the prepared program and
    then, if the checker was resolved, what the checker's [cleanup] releases;
    this holds as well when the checker cannot be resolved or a case throws.
    When the problem does not load, or the program cannot be prepared,
    nothing is deleted. *)
Theorem prepared_files_are_released {E : Engine} (sid : Z) (pid lang : string)
    (code : jsval) (subDir : string) (w : world) :
  let run := JudgeEngine.judgeJob sid pid lang code subDir w in
  match value (JudgeEngine.loadProblem pid w) with
  | Ok p =>
      match gj_prepareProgram lang code (Js.or (filename p) VNull) with
      | Ok runSpec =>
          gj_deleted (after run)
            = gj_deleted w ++ cleanupIds runSpec ++
                match value (JudgeEngine.resolveChecker pid p w) with
                | Ok cr => match cleanup cr with Some ids => ids | None => [] end
                | Throw _ => []
                end
      | Throw _ => gj_deleted (after run) = gj_deleted w
      end
  | Throw _ => gj_deleted (after run) = gj_deleted w
  end.
Proof.
  intros run. subst run. unfold JudgeEngine.judgeJob.
  set (prepare := bind (JudgeEngine.loadProblem pid) _).
  assert (Hatt : forall A (m : M A) w0, value (JudgeEngine.attempt m w0) = Ok (value (m w0)))
    by (intros; rewrite attempt_run; reflexivity).
  assert (Haft : forall A (m : M A) w0, after (JudgeEngine.attempt m w0) = after (m w0))
    by (intros; rewrite attempt_run; reflexivity).
  assert (Hpa : after (prepare w) = w).
  { apply readonly_after. subst prepare.
    apply stable_bind; [typeclasses eauto|apply loadProblem_readonly|].
    intros ? _. stable. reflexivity. }
  rewrite (after_bind _ _ _ _ (Hatt _ prepare w)), Haft, Hpa.
  destruct (value (JudgeEngine.loadProblem pid w)) as [p|e] eqn:Hload.
  - destruct (prepare_run pid lang code w p Hload) as (Hpv & _ & _).
    fold prepare in Hpv. rewrite Hpv.
    destruct (gj_prepareProgram lang code _) as [runSpec|e].
    + set (resolve := JudgeEngine.resolveChecker pid p).
      pose proof (readonly_after _ _ (resolveChecker_readonly pid p w)) as Hra.
      fold resolve in Hra.
      rewrite (after_bind _ _ _ _ (Hatt _ resolve w)), Haft, Hra.
      destruct (value (resolve w)) as [cr|e].
      * destruct (finally_run
                    (try_catch (JudgeEngine.judgeAndPublish sid subDir runSpec p (checkerId cr))
                               (JudgeEngine.publishError sid subDir))
                    (JudgeEngine.releaseArtifacts (cleanupIds runSpec) (cleanup cr)) w)
          as [_ Ha]; [apply releaseArtifacts_run|].
        rewrite Ha, releaseArtifacts_deleted.
        rewrite (stable_after _ _ _
                   (verdict_keeps gj_deleted sid subDir (fun _ _ => eq_refl)
                      (fun _ _ => eq_refl) (fun _ _ => eq_refl) runSpec p (checkerId cr) w)).
        reflexivity.
      * rewrite caught_deleted, app_nil_r. reflexivity.
    + rewrite caught_deleted. simpl. rewrite app_nil_r. reflexivity.
  - assert (Hpv : value (prepare w) = Throw e).
    { subst prepare. unfold bind, value in *.
      destruct (JudgeEngine.loadProblem pid w) as [[r w1] t1]; simpl in *.
      subst r. reflexivity. }
    rewrite Hpv, caught_deleted. simpl. rewrite app_nil_r. reflexivity.
Qed.

(** ** A configuration that cannot be read *)

Section Unreadable.
Context {E : Engine}.
Import JudgeEngine.

Lemma loadConfig_unreadable (path : string) (w : world) (why : string) :
  config_unreadable path w why ->
  ProblemConfig.loadConfig path w
    = (Throw (Error_ ("Failed to load config: " +:+ why)), w, [w]).
Proof.
  unfold config_unreadable, ProblemConfig.loadConfig, bind, try_catch, await, readFile,
    lift, throw.
  destruct (fs_files w !! path) as [txt|].
  - intros (e & Hy & ->). rewrite Hy. reflexivity.
  - intros ->. reflexivity.
Qed.

Lemma config_is_not_source (dir subDir : string) :
  path_join dir "config.yaml" <> path_join subDir "source.code".
Proof.
  intros Heq. apply (f_equal last_char) in Heq.
  rewrite !last_char_path_join in Heq by (cbv; congruence). discriminate.
Qed.

End Unreadable.



(** ** A player run that is not accepted *)

(** X4. when the sandbox does not report [Accepted] for the player's run, the
    case fails with the sandbox's own status, run time and memory, and with
    the run's stderr ([''] when there is none) as its message; the checker
    is not run: the player's command is the only one dispatched. *)
Theorem failed_run_skips_checker {E : Engine} (runSpec : run_spec) (c : case_item)
    (p : problem) (chk : string) (w : world) (inf ans : string) (runRes : run_result) :
  value (JudgeEngine.readTestFile (last_segment (pdir p)) (input c) w) = Ok inf ->
  value (JudgeEngine.readAnswer (last_segment (pdir p)) c w) = Ok ans ->
  gj_run (gj_runs w) (JudgeEngine.player_request runSpec c inf) = Ok runRes ->
  rr_status runRes <> "Accepted" ->
  let run := JudgeEngine.judgeCase runSpec c p chk w in
  value run = Ok (mkCaseResult false (rr_status runRes) (rr_runTime runRes)
                    (rr_memory runRes) (or_empty (files_stderr runRes))) /\
  gj_runs (after run) = gj_runs w ++ [JudgeEngine.player_request runSpec c inf] /\
  fs_files (after run) = fs_files w /\
  results (after run) = results w.
Proof.
  intros Hin Hans Hrun Hst run.
  pose proof (judgeCase_run runSpec c p chk w inf ans runRes Hin Hans Hrun) as H.
  cbv zeta in H.
  assert (Hneq : String.eqb (rr_status runRes) "Accepted" = false)
    by (apply String.eqb_neq; exact Hst).
  rewrite Hneq in H. simpl negb in H. cbv iota in H. destruct H as [Hv Ha].
  subst run. rewrite Hv, Ha. split; [|repeat split].
  unfold run_failed. do 2 f_equal.
  destruct (files_stderr runRes) as [s|]; [|reflexivity].
  unfold or_string. destruct (String.eqb s "") eqn:Hs; [|reflexivity].
  apply String.eqb_eq in Hs. subst s. reflexivity.
Qed.

Lemma failed_run_skips_checker_witness :
  gj_runs (after (JudgeEngine.judgeCase (E := sample_engine sample_yaml silent_sandbox)
                    sample_spec first_case sample_problem "chk"
                    (problem_world "two cases")))
    = [JudgeEngine.player_request sample_spec first_case "1 2"].
Proof.
  refine (proj1 (proj2
            (failed_run_skips_checker (E := sample_engine sample_yaml silent_sandbox)
               sample_spec first_case sample_problem "chk" (problem_world "two cases")
               "1 2" "3" (mkRunResult "" 0 0 0 None) _ _ _ _)));
    [vm_compute; reflexivity | vm_compute; reflexivity | reflexivity | discriminate].
Defined.

(** ** A case that throws *)

(** X5. when judging a case throws (its input or answer file cannot be read,
    or the sandbox fails) after the cases before it have passed, the
    submission is settled with an [Error] verdict carrying that exception:
    the results of the passed cases are not reported, and no later case is
    dispatched to the sandbox. *)
Theorem case_exception_is_error {E : Engine} (sid : Z) (subDir : string)
    (runSpec : run_spec) (p : problem) (chk : string)
    (i : nat) (w : world) (front : list case_result) (wi : world)
    (c : case_item) (e : error) :
  judged_in_order runSpec p chk (take i (p_cases p)) w front wi ->
  Forall (fun x => ok x = true) front ->
  p_cases p !! i = Some c ->
  value (JudgeEngine.judgeCase runSpec c p chk wi) = Throw e ->
  let run := try_catch (JudgeEngine.judgeAndPublish sid subDir runSpec p chk)
                       (JudgeEngine.publishError sid subDir) w in
  value run = Ok tt /\
  published sid subDir (Error (String_of_error e)) (after run) /\
  gj_runs (after run) = gj_runs (after (JudgeEngine.judgeCase runSpec c p chk wi)).
Proof.
  intros Hfront Hok Hc Hthrow run.
  assert (Hsplit : p_cases p = take i (p_cases p) ++ c :: drop (S i) (p_cases p)).
  { rewrite <- (take_drop i (p_cases p)) at 1. f_equal.
    apply drop_S. exact Hc. }
  destruct (judge_cases_pass runSpec p chk _ _ _ _ Hfront Hok
              (c :: drop (S i) (p_cases p)) []) as [Hv Ha].
  rewrite <- Hsplit in Hv, Ha. simpl app in Hv, Ha.
  cbn [JudgeEngine.judge_cases] in Hv, Ha.
  rewrite (bind_throw _ _ _ _ Hthrow) in Hv, Ha.
  unfold value at 2 in Hv. unfold after at 2 in Ha. simpl in Hv, Ha.
  assert (Hjp : value (JudgeEngine.judgeAndPublish sid subDir runSpec p chk w) = Throw e /\
                after (JudgeEngine.judgeAndPublish sid subDir runSpec p chk w)
                  = after (JudgeEngine.judgeCase runSpec c p chk wi)).
  { unfold JudgeEngine.judgeAndPublish. rewrite (bind_throw _ _ _ _ Hv).
    split; [reflexivity|exact Ha]. }
  destruct Hjp as [Hjv Hja].
  destruct (try_catch_throw _ (JudgeEngine.publishError sid subDir) w e Hjv) as [Hv2 Ha2].
  subst run. rewrite Hv2, Ha2, Hja.
  split; [reflexivity|]. split; [apply published_error|].
  exact (stable_after _ _ _
           (publishError_keeps gj_runs sid subDir (fun _ _ => eq_refl)
              (fun _ _ => eq_refl) e _)).
Qed.

Lemma case_exception_is_error_witness :
  published (E := sample_E) 1 "submissions/0/1"
    (Error "Error: ENOENT: no such file or directory, open 'problems/A/testdata/1.in'")
    (after (try_catch
              (JudgeEngine.judgeAndPublish (E := sample_E) 1 "submissions/0/1"
                 sample_spec sample_problem "chk")
              (JudgeEngine.publishError (E := sample_E) 1 "submissions/0/1") empty_world)).
Proof.
  refine (proj1 (proj2
            (case_exception_is_error (E := sample_E) 1 "submissions/0/1" sample_spec
               sample_problem "chk" 0 empty_world [] empty_world first_case
               (Error_ "ENOENT: no such file or directory, open 'problems/A/testdata/1.in'")
               _ _ _ _)));
    [constructor | constructor | reflexivity | vm_compute; reflexivity].
Defined.

(** ** The expected answer of a case *)

Lemma replace_out_suffix_out (b : string) :
  replace_out_suffix (b +:+ ".out") = b +:+ ".ans".
Proof.
  induction b as [|a b IH]; [reflexivity|].
  change (String a b +:+ ".out") with (String a (b +:+ ".out")).
  cbn [replace_out_suffix].
  destruct (String.eqb (String a (b +:+ ".out")) ".out") eqn:Heq.
  - apply String.eqb_eq in Heq. apply (f_equal String.length) in Heq.
    simpl in Heq. rewrite length_append in Heq. simpl in Heq. lia.
  - rewrite IH. reflexivity.
Qed.

Lemma replace_out_suffix_other (s : string) :
  endsWith s ".out" = false -> replace_out_suffix s = s.
Proof.
  induction s as [|a s IH]; [reflexivity|].
  cbn [endsWith replace_out_suffix]. intros H.
  apply orb_false_iff in H as [H1 H2]. rewrite H1, (IH H2). reflexivity.
Qed.

Lemma readTestFile_value {E : Engine} (pid name : string) (w : world) :
  value (JudgeEngine.readTestFile pid (VStr name) w)
    = fst (readFile (path_join (path_join (path_join problemsRoot pid) "testdata") name) w).
Proof.
  unfold JudgeEngine.readTestFile, bind, lift, await, value. simpl.
  destruct (readFile _ w). reflexivity.
Qed.

(** X6. the expected answer of a case is read from the [.ans] file when the
    configured output name ends in [.out]: the file with [.ans] in place of
    that ending is read first, and the configured [.out] file only when
    the [.ans] file is absent.  An output name with any other ending is read
    as it is. *)
Theorem answer_file_preference {E : Engine} (pid : string) (c : case_item)
    (name : string) (w : world) :
  output c = VStr name ->
  let testdata := path_join (path_join problemsRoot pid) "testdata" in
  (forall b : string, name = b +:+ ".out" ->
     value (JudgeEngine.readAnswer pid c w) =
       match fs_files w !! path_join testdata (b +:+ ".ans") with
       | Some ans => Ok ans
       | None => fst (readFile (path_join testdata name) w)
       end) /\
  (endsWith name ".out" = false ->
     value (JudgeEngine.readAnswer pid c w) = fst (readFile (path_join testdata name) w)).
Proof.
  intros Hout testdata.
  assert (Hrun : forall ansFile : string,
             replace_out_suffix name = ansFile ->
             value (JudgeEngine.readAnswer pid c w) =
               match fs_files w !! path_join testdata ansFile with
               | Some ans => Ok ans
               | None => fst (readFile (path_join testdata name) w)
               end).
  { intros ansFile Hrep. unfold JudgeEngine.readAnswer. rewrite Hout.
    cbn [output_replace]. rewrite Hrep.
    set (first := bind (lift (Ok ansFile)) _).
    assert (Hfirst : value (first w) = fst (readFile (path_join testdata ansFile) w) /\
                     after (first w) = w).
    { subst first. split.
      - rewrite (value_bind _ _ _ ansFile) by reflexivity.
        apply readTestFile_value.
      - rewrite (after_bind _ _ _ ansFile) by reflexivity.
        apply readTestFile_after. }
    destruct Hfirst as [Hfv Hfa]. unfold readFile in Hfv at 1.
    destruct (fs_files w !! path_join testdata ansFile) as [ans|]; simpl in Hfv.
    - destruct (try_catch_ok first (fun _ => JudgeEngine.readTestFile pid (VStr name)) w ans Hfv)
        as [Hv _]. exact Hv.
    - destruct (try_catch_throw first (fun _ => JudgeEngine.readTestFile pid (VStr name)) w _ Hfv)
        as [Hv _]. rewrite Hv, Hfa. apply readTestFile_value. }
  split.
  - intros b ->. apply Hrun, replace_out_suffix_out.
  - intros Hend. rewrite (Hrun name (replace_out_suffix_other _ Hend)).
    unfold readFile. destruct (fs_files w !! path_join testdata name); reflexivity.
Qed.

Lemma answer_file_preference_witness :
  value (JudgeEngine.readAnswer (E := sample_E) "A"
           (mkCase 0 (VStr "1.in") (VStr "1.out") (VStr "1s") (VStr "256m"))
           (problem_world "two cases")) = Ok "3".
Proof.
  exact (proj1 (answer_file_preference (E := sample_E) "A"
                  (mkCase 0 (VStr "1.in") (VStr "1.out") (VStr "1s") (VStr "256m"))
                  "1.out" (problem_world "two cases") eq_refl) "1" eq_refl).
Defined.

(** ** A worker on its own *)

Section Drain.
Context {E : Engine}.
Import JudgeEngine.

Lemma idle_turns (k : nat) (w : world) :
  queue w = [] ->
  value (startWorker k w) = Ok tt /\ after (startWorker k w) = w.
Proof.
  intros Hq. induction k as [|k [IHv IHa]]; [split; reflexivity|].
  cbn [startWorker].
  assert (Hturn : workerTurn w = (Ok tt, w, [w])).
  { unfold workerTurn, bind, queue_shift. rewrite Hq. reflexivity. }
  assert (Hv : value (workerTurn w) = Ok tt) by (rewrite Hturn; reflexivity).
  rewrite (value_bind _ _ _ _ Hv), (after_bind _ _ _ _ Hv), Hturn.
  split; [exact IHv|exact IHa].
Qed.

Lemma busy_turn (j : job) (rest : list job) (w : world) :
  queue w = j :: rest ->
  workerTurn w =
    (value (handleJob j (set_queue (fun _ => rest) w)),
     after (handleJob j (set_queue (fun _ => rest) w)),
     suspensions (handleJob j (set_queue (fun _ => rest) w))).
Proof.
  intros Hq. unfold workerTurn, bind, queue_shift. rewrite Hq.
  destruct (handleJob j _) as [[r w1] t1]. reflexivity.
Qed.

Lemma drained (q : list job) :
  forall (w : world) (k : nat),
    queue w = q ->
    Forall (fun j => exists src, job_code j = VStr src) q ->
    Forall (fun j => snd (submissionPaths submissionManager (job_sid j)) ∈ fs_dirs w) q ->
    let run := startWorker (length q + k) w in
    value run = Ok tt /\
    queue (after run) = [] /\
    (forall j, j ∈ q ->
       exists v, terminal v /\ results (after run) !! job_sid j = Some v) /\
    (forall sid, sid ∉ map job_sid q -> results (after run) !! sid = results w !! sid).
Proof.
  induction q as [|j rest IH]; intros w k Hq Hinline Hdirs run.
  - destruct (idle_turns k w Hq) as [Hv Ha]. subst run. simpl length. simpl Nat.add.
    rewrite Hv, Ha. split; [reflexivity|]. split; [exact Hq|]. split.
    + intros j Hj. apply elem_of_nil in Hj. contradiction.
    + reflexivity.
  - apply Forall_cons in Hinline as [[src Hsrc] Hrest].
    apply Forall_cons in Hdirs as [Hdir Hdirs].
    set (w0 := set_queue (fun _ => rest) w).
    destruct (handleJob_inline j src w0 Hsrc Hdir)
      as (Hv & (v & Hterm & _ & Hres) & _ & Hqueue & _ & Hkept & _).
    set (w1 := after (handleJob j w0)) in *.
    assert (Hturn : value (workerTurn w) = Ok tt /\ after (workerTurn w) = w1).
    { rewrite (busy_turn j rest w Hq). split; [exact Hv|reflexivity]. }
    destruct Hturn as [Htv Hta].
    assert (Hdirs1 : Forall (fun j => snd (submissionPaths submissionManager (job_sid j))
                                        ∈ fs_dirs w1) rest).
    { rewrite Hkept. exact Hdirs. }
    destruct (IH w1 k Hqueue Hrest Hdirs1) as (IHv & IHq & IHt & IHf).
    subst run. simpl length. simpl Nat.add. cbn [startWorker].
    rewrite (value_bind _ _ _ _ Htv), (after_bind _ _ _ _ Htv), Hta.
    split; [exact IHv|]. split; [exact IHq|]. split.
    + intros j' Hj'. apply elem_of_cons in Hj' as [->|Hj']; [|apply IHt, Hj'].
      destruct (decide (job_sid j ∈ map job_sid rest)) as [Hin|Hout].
      * apply list_elem_of_fmap in Hin as (j' & Hsid & Hj'). rewrite Hsid.
        apply IHt, Hj'.
      * exists v. split; [exact Hterm|]. rewrite (IHf _ Hout), Hres.
        apply lookup_insert_eq.
    + intros sid Hsid. simpl map in Hsid. apply not_elem_of_cons in Hsid as [Hne Hsid].
      rewrite (IHf _ Hsid), Hres. apply lookup_insert_ne. congruence.
Qed.

End Drain.

(** X7. a worker left alone with a queue of jobs that carry their source and
    whose submission directories are in place drains it: after as many turns
    as there are jobs (and after any number of further turns, which find
    the queue empty and change nothing) the worker has returned from every
    job, the queue is empty, every queued submission has a terminal verdict
    in the cache, and the cache entries of all other submissions are what
    they were.  (A job whose directory a reset has removed is outside this
    statement: its source cannot be archived.) *)
Theorem worker_drains_queue {E : Engine} (w : world) (k : nat) :
  Forall (fun j => exists src, job_code j = VStr src) (queue w) ->
  Forall (fun j => snd (submissionPaths submissionManager (job_sid j)) ∈ fs_dirs w)
         (queue w) ->
  let run := JudgeEngine.startWorker (length (queue w) + k) w in
  value run = Ok tt /\
  queue (after run) = [] /\
  (forall j, j ∈ queue w ->
     exists v, terminal v /\ results (after run) !! job_sid j = Some v) /\
  (forall sid, sid ∉ map job_sid (queue w) -> results (after run) !! sid = results w !! sid).
Proof. intros Hinline Hdirs. exact (drained (queue w) w k eq_refl Hinline Hdirs). Qed.

Lemma worker_drains_queue_witness :
  queue (after (JudgeEngine.startWorker (E := accepting_engine) (1 + 2)
                  (set_queue (fun _ => [first_job]) (received_world "two cases")))) = [].
Proof.
  refine (proj1 (proj2
            (worker_drains_queue (E := accepting_engine)
               (set_queue (fun _ => [first_job]) (received_world "two cases")) 2 _ _))).
  - repeat constructor. exists "int main(){}". reflexivity.
  - constructor; [vm_compute; set_solver|constructor].
Defined.

(** ** Reading a verdict more than once *)

(** X8. a verdict published for a submission (stored in the cache and written
    to its [result.json]) is not lost by reading it or by clearing the cache:
    if [JSON.parse] reads back what [JSON.stringify] wrote, the first
    [getResult] returns the verdict from the cache, every later one returns
    the same verdict from [result.json] and changes nothing, and so does a
    [getResult] that follows [clearResults]. *)
Theorem published_verdict_is_read_back {E : Engine} (sid : Z) (v : verdict) (w : world) :
  published sid (snd (submissionPaths submissionManager sid)) v w ->
  JSON_parse (JSON_stringify (verdict_to_js v)) = Ok (verdict_to_js v) ->
  let first := JudgeEngine.getResult sid w in
  let second := JudgeEngine.getResult sid (after first) in
  value first = Ok (verdict_to_js v) /\
  value second = Ok (verdict_to_js v) /\
  after second = after first /\
  value (JudgeEngine.getResult sid (after (JudgeEngine.clearResults w)))
    = Ok (verdict_to_js v).
Proof.
  intros [Hmem Hdisk] Hjson first second.
  change (path_join (snd (submissionPaths submissionManager sid)) "result.json")
    with (result_json sid) in Hdisk.
  assert (Hfirst : first = (Ok (verdict_to_js v), set_results (delete sid) w, [])).
  { subst first. rewrite getResult_run, Hmem. reflexivity. }
  assert (Hdisk_read : forall w0 : world,
             fs_files w0 = fs_files w -> results w0 !! sid = None ->
             JudgeEngine.getResult sid w0 = (Ok (verdict_to_js v), w0, [w0])).
  { intros w0 Hf Hr. rewrite getResult_run, Hr, Hf, Hdisk, Hjson. reflexivity. }
  assert (Hsecond : second = (Ok (verdict_to_js v), after first, [after first])).
  { subst second. apply Hdisk_read; rewrite Hfirst; simpl; [reflexivity|].
    apply lookup_delete_eq. }
  rewrite Hsecond, Hfirst. repeat split.
  rewrite Hdisk_read; [reflexivity|reflexivity|]. simpl. apply lookup_empty.
Qed.

Lemma published_verdict_is_read_back_witness :
  let E := reading_engine (Error "Error: no such problem") in
  value (JudgeEngine.getResult 7 (after (JudgeEngine.getResult 7 judged_world)))
    = Ok (verdict_to_js (Error "Error: no such problem")).
Proof.
  refine (proj1 (proj2
            (published_verdict_is_read_back
               (E := reading_engine (Error "Error: no such problem")) 7
               (Error "Error: no such problem") judged_world _ _)));
    [split; vm_compute; reflexivity | vm_compute; reflexivity].
Defined.

(** ** Intake below the spill threshold *)

Section IntakeBelow.
Context {E : Engine}.
Import JudgeEngine.

Local Arguments Js.dec : simpl never.
Local Arguments path_join : simpl never.
Local Arguments Z.mul : simpl never.
Local Arguments Z.leb : simpl never.

Lemma submit_inline_run (w : world) (pid lang : string) (code : jsval) :
  Z.of_nat (length (queue w)) < 1024 * 512 ->
  let sid := counter_value submissionManager w + 1 in
  let bucketDir := fst (submissionPaths submissionManager sid) in
  let subDir := snd (submissionPaths submissionManager sid) in
  let meta := JSON_stringify
                (VObj [("sid", VNum (Int sid)); ("pid", VStr pid);
                       ("lang", VStr lang); ("ts", VNum (Int (now w)))]) in
  let run := submit pid lang code w in
  value run = Ok sid /\
  queue (after run) = queue w ++ [mkJob sid pid lang code] /\
  results (after run) = <[sid := Queued]> (results w) /\
  fs_files (after run)
    = <[path_join subDir "meta.json" := meta]>
        (<[counterFile submissionManager := Js.dec sid]> (fs_files w)) /\
  fs_dirs (after run) = {[subDir]} ∪ ({[bucketDir]} ∪ fs_dirs w) /\
  gj_runs (after run) = gj_runs w.
Proof.
  intros Hlen sid bucketDir subDir meta run.
  assert (Hlt : (1024 * 512 <=? Z.of_nat (length (queue w))) = false)
    by (apply Z.leb_gt; exact Hlen).
  subst run. unfold submit, bind. rewrite nextSubmissionId_run. fold sid.
  unfold results_set, queue_push, modify, await, mkdir, gets, ret, writeFile,
    value, after; simpl.
  rewrite Hlt; simpl. repeat split.
Qed.

End IntakeBelow.

(** X9. intake below the spill threshold.  With fewer than 1024 * 512 jobs
    waiting, [submit] returns the next id, appends exactly one job, carrying
    the code, at the tail of the queue, marks the submission queued, and
    creates the two directories; the only files it writes are the counter
    and [meta.json] (the source is not written at intake), and it sends
    nothing to the sandbox.  The code is not inspected: this holds for
    every value of [code]. *)
Theorem submit_below_threshold {E : Engine} (w : world) (pid lang : string)
    (code : jsval) :
  Z.of_nat (length (queue w)) < 1024 * 512 ->
  let sid := counter_value submissionManager w + 1 in
  let bucketDir := fst (submissionPaths submissionManager sid) in
  let subDir := snd (submissionPaths submissionManager sid) in
  let meta := JSON_stringify
                (VObj [("sid", VNum (Int sid)); ("pid", VStr pid);
                       ("lang", VStr lang); ("ts", VNum (Int (now w)))]) in
  let run := JudgeEngine.submit pid lang code w in
  value run = Ok sid /\
  queue (after run) = queue w ++ [mkJob sid pid lang code] /\
  results (after run) = <[sid := Queued]> (results w) /\
  fs_files (after run)
    = <[path_join subDir "meta.json" := meta]>
        (<[counterFile submissionManager := Js.dec sid]> (fs_files w)) /\
  fs_dirs (after run) = {[subDir]} ∪ ({[bucketDir]} ∪ fs_dirs w) /\
  gj_runs (after run) = gj_runs w.
Proof. exact (submit_inline_run w pid lang code). Qed.

Lemma submit_below_threshold_witness :
  queue (after (JudgeEngine.submit (E := sample_E) "A" "cpp" (VStr "int main(){}")
                  empty_world))
    = [mkJob 1 "A" "cpp" (VStr "int main(){}")].
Proof.
  refine (proj1 (proj2
            (submit_below_threshold (E := sample_E) empty_world "A" "cpp"
               (VStr "int main(){}") _))).
  vm_compute. reflexivity.
Defined.

(** X10. the life of a submission.  On an engine whose queue is empty,
    [submit] returns the next id and a poll at once reports [queued] (and
    takes the entry out of the cache); the submission directory that intake
    created is in place when a worker, in the world that poll leaves, takes
    the job; one turn of the worker settles the submission, and the next
    poll returns a terminal verdict (done or error), never [queued] and
    never nothing. *)
Theorem submission_lifecycle {E : Engine} (w : world) (pid lang src : string) :
  queue w = [] ->
  let sid := counter_value submissionManager w + 1 in
  let subDir := snd (submissionPaths submissionManager sid) in
  let intake := JudgeEngine.submit pid lang (VStr src) w in
  let first_poll := JudgeEngine.getResult sid (after intake) in
  let judged := JudgeEngine.startWorker 1 (after first_poll) in
  let second_poll := JudgeEngine.getResult sid (after judged) in
  value intake = Ok sid /\
  value first_poll = Ok (verdict_to_js Queued) /\
  results (after first_poll) !! sid = None /\
  queue (after first_poll) = [mkJob sid pid lang (VStr src)] /\
  subDir ∈ fs_dirs (after first_poll) /\
  value judged = Ok tt /\
  queue (after judged) = [] /\
  exists v, terminal v /\ value second_poll = Ok (verdict_to_js v).
Proof.
  intros Hq sid subDir intake first_poll judged second_poll.
  assert (Hlen : Z.of_nat (length (queue w)) < 1024 * 512) by (rewrite Hq; simpl; lia).
  destruct (submit_inline_run w pid lang (VStr src) Hlen)
    as (Hv & Hqueue & Hres & _ & Hdirs & _).
  fold sid in Hv, Hqueue, Hres, Hdirs. fold subDir in Hdirs.
  fold intake in Hv, Hqueue, Hres, Hdirs. rewrite Hq in Hqueue. simpl in Hqueue.
  assert (Hpoll : first_poll
                  = (Ok (verdict_to_js Queued), set_results (delete sid) (after intake), [])).
  { subst first_poll. rewrite getResult_run, Hres, lookup_insert_eq. reflexivity. }
  assert (Hpq : queue (after first_poll) = [mkJob sid pid lang (VStr src)]).
  { rewrite Hpoll. exact Hqueue. }
  assert (Hpd : subDir ∈ fs_dirs (after first_poll)).
  { rewrite Hpoll. change (subDir ∈ fs_dirs (after intake)). rewrite Hdirs.
    apply elem_of_union_l, elem_of_singleton. reflexivity. }
  split; [exact Hv|]. split; [rewrite Hpoll; reflexivity|].
  split; [rewrite Hpoll; apply lookup_delete_eq|].
  split; [exact Hpq|]. split; [exact Hpd|].
  destruct (drained [mkJob sid pid lang (VStr src)] (after first_poll) 0 Hpq)
    as (Hjv & Hjq & Hjt & _).
  { repeat constructor. exists src. reflexivity. }
  { repeat constructor. exact Hpd. }
  simpl length in Hjv, Hjq, Hjt. simpl Nat.add in Hjv, Hjq, Hjt.
  fold judged in Hjv, Hjq, Hjt.
  split; [exact Hjv|]. split; [exact Hjq|].
  destruct (Hjt (mkJob sid pid lang (VStr src))) as (v & Hterm & Hlook);
    [apply list_elem_of_singleton; reflexivity|].
  exists v. split; [exact Hterm|].
  subst second_poll. rewrite getResult_run. simpl in Hlook. rewrite Hlook. reflexivity.
Qed.

Lemma submission_lifecycle_witness :
  let E := accepting_engine in
  let intake := JudgeEngine.submit "A" "cpp" (VStr "int main(){}")
                  (problem_world "two cases") in
  let first_poll := JudgeEngine.getResult 1 (after intake) in
  value first_poll = Ok (verdict_to_js Queued) /\
  value (JudgeEngine.startWorker 1 (after first_poll)) = Ok tt.
Proof.
  intros E intake first_poll.
  destruct (submission_lifecycle (E := accepting_engine) (problem_world "two cases")
              "A" "cpp" "int main(){}" eq_refl)
    as (_ & Hpoll & _ & _ & _ & Hjudged & _).
  split; [exact Hpoll|exact Hjudged].
Defined.

(** * Further properties of the unit conversion *)

Section WholeNumbers.
Import DecimalPos.Unsigned.

Lemma all_digits_uint (d : Decimal.uint) :
  string_forall Chars.is_digit (NilEmpty.string_of_uint d) = true.
Proof. induction d; simpl; auto. Qed.

(** The spelling of a natural number: digits, at least one, with its value. *)
Lemma dec_digits (z : Z) :
  0 <= z ->
  string_forall Chars.is_digit (Js.dec z) = true /\
  Js.dec z <> "" /\
  Z.of_N (Chars.digits_value (Js.dec z) 0) = z.
Proof.
  intros Hz. destruct z as [|p|p]; [repeat split; discriminate| |lia].
  unfold Js.dec; simpl.
  pose proof (to_uint_nonnil p) as Hn.
  unfold NilZero.string_of_uint.
  destruct (Pos.to_uint p) eqn:Hp; try congruence; rewrite <- Hp;
    (split; [apply all_digits_uint|]);
    (split; [rewrite Hp; discriminate|]);
    rewrite digits_value_uint, of_to; reflexivity.
Qed.

End WholeNumbers.

Lemma span_app (p : ascii -> bool) (s rest : string) :
  string_forall p s = true -> starts_with p rest = false ->
  Chars.span p (s +:+ rest) = (s, rest).
Proof.
  intros Hs Hrest. induction s as [|c s IH].
  - destruct rest as [|c rest]; [reflexivity|]. simpl in *. rewrite Hrest. reflexivity.
  - rewrite append_cons. simpl in *. apply andb_prop in Hs as [Hc Hs].
    rewrite Hc, (IH Hs). reflexivity.
Qed.

Lemma drop_while_app (p : ascii -> bool) (s rest : string) :
  string_forall p s = true -> starts_with p rest = false ->
  Chars.drop_while p (s +:+ rest) = rest.
Proof.
  intros Hs Hrest. induction s as [|c s IH].
  - destruct rest as [|c rest]; [reflexivity|]. simpl in *. rewrite Hrest. reflexivity.
  - rewrite append_cons. simpl in *. apply andb_prop in Hs as [Hc Hs].
    rewrite Hc. exact (IH Hs).
Qed.

Lemma digits_are_digits_or_dots (s : string) :
  string_forall Chars.is_digit s = true ->
  string_forall Chars.is_digit_or_dot s = true.
Proof.
  induction s as [|c s IH]; simpl; [reflexivity|].
  intros [Hc Hs]%andb_prop. rewrite (IH Hs).
  unfold Chars.is_digit_or_dot. rewrite Hc. reflexivity.
Qed.

Lemma space_is_no_digit (c : ascii) :
  Chars.is_space c = true -> Chars.is_digit_or_dot c = false.
Proof.
  destruct c as [b0 b1 b2 b3 b4 b5 b6 b7].
  destruct b0, b1, b2, b3, b4, b5, b6, b7; vm_compute; congruence.
Qed.

Lemma spaces_then_unit (ws u : string) :
  string_forall Chars.is_space ws = true ->
  starts_with Chars.is_digit_or_dot u = false ->
  starts_with Chars.is_digit_or_dot (ws +:+ u) = false.
Proof.
  intros Hws Hu. destruct ws as [|c ws]; [exact Hu|].
  rewrite append_cons. simpl in *. apply andb_prop in Hws as [Hc _].
  apply space_is_no_digit, Hc.
Qed.

Lemma parseFloat_whole (z : Z) : 0 <= z -> parseFloat (Js.dec z) = Dec z 0.
Proof.
  intros Hz. destruct (dec_digits z Hz) as (Hd & Hne & Hval).
  unfold parseFloat.
  rewrite <- (append_nil_r (Js.dec z)) at 1.
  rewrite (span_app _ _ "" Hd eq_refl).
  rewrite append_nil_r, Hval.
  destruct (Js.dec z); [congruence|reflexivity].
Qed.

Lemma round_whole (z mul : Z) : Math_round_mul (Dec z 0) mul = Int (z * mul).
Proof.
  unfold Math_round_mul. f_equal. change (10 ^ Z.of_nat 0) with 1.
  replace (2 * (z * mul) + 1) with (z * mul * (2 * 1) + 1) by lia.
  rewrite Z.div_add_l by lia. change (1 / (2 * 1)) with 0. lia.
Qed.

(** The two patterns on a whole number, white space and a unit. *)
Lemma match_time_whole (z : Z) (ws u : string) :
  0 <= z ->
  string_forall Chars.is_space ws = true ->
  starts_with Chars.is_digit_or_dot u = false ->
  starts_with Chars.is_space u = false ->
  match_time (Js.dec z +:+ ws +:+ u) =
    if String.eqb (Chars.toLowerCase u) "" then Some (Js.dec z, None)
    else if String.eqb (Chars.toLowerCase u) "ms" || String.eqb (Chars.toLowerCase u) "s"
         then Some (Js.dec z, Some u)
         else None.
Proof.
  intros Hz Hws Hu Hus. destruct (dec_digits z Hz) as (Hd & Hne & _).
  unfold match_time.
  rewrite (span_app _ _ _ (digits_are_digits_or_dots _ Hd) (spaces_then_unit _ _ Hws Hu)).
  rewrite (drop_while_app _ _ _ Hws Hus).
  destruct (Js.dec z); [congruence|reflexivity].
Qed.

Lemma match_memory_whole (z : Z) (ws u : string) :
  0 <= z ->
  string_forall Chars.is_space ws = true ->
  starts_with Chars.is_digit_or_dot u = false ->
  starts_with Chars.is_space u = false ->
  match_memory (Js.dec z +:+ ws +:+ u) =
    if String.eqb (Chars.toLowerCase u) "" || String.eqb (Chars.toLowerCase u) "k"
       || String.eqb (Chars.toLowerCase u) "m" || String.eqb (Chars.toLowerCase u) "g"
    then Some (Js.dec z, u)
    else None.
Proof.
  intros Hz Hws Hu Hus. destruct (dec_digits z Hz) as (Hd & Hne & _).
  unfold match_memory.
  rewrite (span_app _ _ _ (digits_are_digits_or_dots _ Hd) (spaces_then_unit _ _ Hws Hu)).
  rewrite (drop_while_app _ _ _ Hws Hus).
  destruct (Js.dec z); [congruence|reflexivity].
Qed.

Ltac lower_unit u :=
  let r := eval vm_compute in (Chars.toLowerCase u) in
  try change (Chars.toLowerCase u) with r;
  cbn -[Js.dec parseFloat Math_round_mul Z.mul Z.pow Chars.toLowerCase];
  try change (Chars.toLowerCase u) with r;
  cbn -[Js.dec parseFloat Math_round_mul Z.mul Z.pow Chars.toLowerCase].

Ltac whole_limit Hz Hws :=
  match goal with
  | |- toNs (VStr (Js.dec ?n +:+ ?ws +:+ ?u)) = _ =>
      unfold toNs; cbn [Js.ToString];
      rewrite (match_time_whole n ws u Hz Hws eq_refl eq_refl); lower_unit u
  | |- toBytes (VStr (Js.dec ?n +:+ ?ws +:+ ?u)) = _ =>
      unfold toBytes; cbn [Js.ToString];
      rewrite (match_memory_whole n ws u Hz Hws eq_refl eq_refl); lower_unit u
  end;
  rewrite (parseFloat_whole _ Hz), round_whole; first [reflexivity | f_equal; lia].

(** X11. on a whole number, the unit conversion scales by the unit, whatever
    the letter case of the unit (every spelling of [s], [ms], [k], [m] and
    [g] in upper and lower case letters) and however much ASCII white space
    precedes it: seconds (the default) and milliseconds give nanoseconds,
    and no unit, [k], [m] and [g] give bytes in powers of 1024.  The number
    ranges over the values for which the product is exact on doubles. *)
Theorem whole_limits (n : Z) (ws : string) :
  0 <= n < 2 ^ 23 ->
  string_forall Chars.is_space ws = true ->
  (toNs (VStr (Js.dec n +:+ ws +:+ "")) = Int (n * 10 ^ 9) /\
   toNs (VStr (Js.dec n +:+ ws +:+ "s")) = Int (n * 10 ^ 9) /\
   toNs (VStr (Js.dec n +:+ ws +:+ "S")) = Int (n * 10 ^ 9) /\
   toNs (VStr (Js.dec n +:+ ws +:+ "ms")) = Int (n * 10 ^ 6) /\
   toNs (VStr (Js.dec n +:+ ws +:+ "MS")) = Int (n * 10 ^ 6) /\
   toNs (VStr (Js.dec n +:+ ws +:+ "Ms")) = Int (n * 10 ^ 6) /\
   toNs (VStr (Js.dec n +:+ ws +:+ "mS")) = Int (n * 10 ^ 6)) /\
  (toBytes (VStr (Js.dec n +:+ ws +:+ "")) = Int n /\
   toBytes (VStr (Js.dec n +:+ ws +:+ "k")) = Int (n * 2 ^ 10) /\
   toBytes (VStr (Js.dec n +:+ ws +:+ "K")) = Int (n * 2 ^ 10) /\
   toBytes (VStr (Js.dec n +:+ ws +:+ "m")) = Int (n * 2 ^ 20) /\
   toBytes (VStr (Js.dec n +:+ ws +:+ "M")) = Int (n * 2 ^ 20) /\
   toBytes (VStr (Js.dec n +:+ ws +:+ "g")) = Int (n * 2 ^ 30) /\
   toBytes (VStr (Js.dec n +:+ ws +:+ "G")) = Int (n * 2 ^ 30)).
Proof.
  intros [Hz _] Hws. split; repeat split; whole_limit Hz Hws.
Qed.

Lemma whole_limits_witness :
  toNs (VStr "3 S") = Int 3000000000 /\ toBytes (VStr "512  M") = Int 536870912.
Proof.
  split.
  - exact (proj1 (proj2 (proj2 (proj1 (whole_limits 3 " " ltac:(lia) eq_refl))))).
  - exact (proj1 (proj2 (proj2 (proj2 (proj2 (proj2 (whole_limits 512 "  " ltac:(lia) eq_refl))))))).
Defined.

Lemma span_no_start (p : ascii -> bool) (s : string) :
  starts_with p s = false -> Chars.span p s = ("", s).
Proof. destruct s as [|c s]; simpl; [reflexivity|]. intros ->. reflexivity. Qed.

Lemma parseFloat_not_negative (s : string) :
  match parseFloat s with DNaN => True | Dec m _ => 0 <= m end.
Proof.
  unfold parseFloat. destruct (Chars.span Chars.is_digit s) as [ip rest].
  set (fp := match rest with String "."%char r => _ | _ => _ end).
  destruct ip, fp; try exact I; apply N2Z.is_nonneg.
Qed.

Lemma round_not_negative (v : decimal) (mul : Z) :
  match v with DNaN => True | Dec m _ => 0 <= m end ->
  0 <= mul -> not_negative (Math_round_mul v mul).
Proof.
  destruct v as [|m e]; simpl; [trivial|]. intros Hm Hmul.
  assert (0 < 10 ^ Z.of_nat e) by (apply Z.pow_pos_nonneg; lia).
  apply Z.div_pos; nia.
Qed.

(** X12. a limit given as text never becomes a negative number, and text the
    patterns do not recognise is not an error: for every string, [toNs] and
    [toBytes] return [NaN] or a number that is not negative, and for a
    string that does not start with a digit or a dot (the empty string, a
    sign, leading white space, a word) both return 0. *)
Theorem text_limits (s : string) :
  not_negative (toNs (VStr s)) /\
  not_negative (toBytes (VStr s)) /\
  (starts_with Chars.is_digit_or_dot s = false ->
   toNs (VStr s) = Int 0 /\ toBytes (VStr s) = Int 0).
Proof.
  split; [|split].
  - unfold toNs. apply round_not_negative; [apply parseFloat_not_negative|].
    destruct (String.eqb _ "ms"); lia.
  - unfold toBytes. apply round_not_negative; [apply parseFloat_not_negative|].
    repeat match goal with |- context [if ?b then _ else _] => destruct b end;
      vm_compute; discriminate.
  - intros Hs. unfold toNs, toBytes, match_time, match_memory. cbn [Js.ToString].
    rewrite (span_no_start _ _ Hs). split; reflexivity.
Qed.

Lemma text_limits_witness :
  toNs (VStr "fast") = Int 0 /\ toBytes (VStr "fast") = Int 0.
Proof. exact (proj2 (proj2 (text_limits "fast")) eq_refl). Defined.

(** * Further properties of the paths *)

Lemma last_segment_from_no_slash (s cur : string) :
  no_slash s = true -> last_segment_from s cur = cur +:+ s.
Proof.
  revert cur. induction s as [|c s IH]; intros cur Hs; simpl.
  - symmetry. apply append_nil_r.
  - simpl in Hs. apply andb_prop in Hs as [Hc Hs].
    apply negb_true_iff in Hc. rewrite Hc, (IH _ Hs), append_assoc. reflexivity.
Qed.

Lemma last_segment_from_join (a b cur : string) :
  last_segment_from (path_join a b) cur = last_segment b.
Proof.
  unfold path_join. revert cur. induction a as [|c a IH]; intros cur.
  - reflexivity.
  - rewrite append_cons. simpl. destruct (Ascii.eqb c "/"); apply IH.
Qed.

Lemma last_segment_join (a b : string) :
  no_slash b = true -> last_segment (path_join a b) = b.
Proof.
  intros Hb. unfold last_segment at 1. rewrite last_segment_from_join.
  unfold last_segment. rewrite (last_segment_from_no_slash _ _ Hb). reflexivity.
Qed.

Lemma append_inv_tail (a b t : string) : a +:+ t = b +:+ t -> a = b.
Proof.
  revert b. induction a as [|c a IH]; intros [|c' b] H.
  - reflexivity.
  - apply (f_equal String.length) in H. rewrite !length_append in H. simpl in H. lia.
  - apply (f_equal String.length) in H. rewrite !length_append in H. simpl in H. lia.
  - rewrite !append_cons in H. inversion H; subst. f_equal. apply IH. assumption.
Qed.

Lemma path_join_inv_dir (a b name : string) :
  path_join a name = path_join b name -> a = b.
Proof.
  unfold path_join. intros H.
  apply (append_inv_tail a b ("/" +:+ name)). exact H.
Qed.

Section DecimalNames.
Import DecimalPos.Unsigned.

Lemma no_slash_uint (d : Decimal.uint) : no_slash (NilEmpty.string_of_uint d) = true.
Proof. induction d; simpl; auto. Qed.

Lemma no_slash_dec (z : Z) : no_slash (Js.dec z) = true.
Proof.
  destruct z as [|p|p]; [reflexivity| |]; unfold Js.dec; simpl;
    unfold NilZero.string_of_uint; destruct (Pos.to_uint p) eqn:Hp;
    try reflexivity; rewrite <- Hp; simpl; apply no_slash_uint.
Qed.

End DecimalNames.

Lemma dec_inj (x y : Z) : Js.dec x = Js.dec y -> x = y.
Proof.
  intros H. apply (f_equal parseInt) in H. rewrite !parseInt_dec in H. congruence.
Qed.

Lemma plain_name_no_slash (s : string) : plain_name s = true -> no_slash s = true.
Proof.
  unfold plain_name. intros H.
  apply andb_prop in H as [H _]. apply andb_prop in H as [H _].
  apply andb_prop in H as [H _]. exact H.
Qed.

(** X13. no two submissions share a file.  A file [f] in the directory of one
    submission and a file [g] in the directory of another are different
    paths, whatever the bucket size: equal paths force the same submission
    id and the same file name.  ([f] and [g] are plain names such as
    [source.code], [meta.json] and [result.json].) *)
Theorem submission_files_are_distinct (sm : SubmissionManager) (sid1 sid2 : Z)
    (f g : string) :
  plain_name f = true -> plain_name g = true ->
  path_join (snd (submissionPaths sm sid1)) f
    = path_join (snd (submissionPaths sm sid2)) g ->
  sid1 = sid2 /\ f = g.
Proof.
  intros Hf%plain_name_no_slash Hg%plain_name_no_slash Heq.
  assert (Hfg : f = g).
  { apply (f_equal last_segment) in Heq.
    rewrite !last_segment_join in Heq by assumption. exact Heq. }
  subst g. split; [|reflexivity].
  apply path_join_inv_dir in Heq. unfold submissionPaths in Heq. simpl in Heq.
  apply (f_equal last_segment) in Heq.
  rewrite !last_segment_join in Heq by apply no_slash_dec.
  apply dec_inj, Heq.
Qed.

Lemma submission_files_are_distinct_witness :
  17 = 17 /\ "result.json" = "result.json".
Proof.
  exact (submission_files_are_distinct sample_sm 17 17 "result.json" "result.json"
           eq_refl eq_refl eq_refl).
Defined.

(** X14. the bucket of a submission.  For a positive bucket size the bucket
    prefix of [sid] is the multiple [b] of the bucket size with
    [b <= sid < b + bucketSize] (also for ids that are not positive), the
    bucket directory is [<submissionsRoot>/<b>] and the submission
    directory [<submissionsRoot>/<b>/<sid>].  For the bucket size 0 the
    prefix is [NaN] and every submission lives in the directory
    [<submissionsRoot>/NaN]. *)
Theorem bucket_of_sid (sm : SubmissionManager) (sid : Z) :
  (0 < bucketSize sm ->
   exists b : Z,
     bucketPrefix sm sid = Int b /\
     (bucketSize sm | b) /\
     b <= sid < b + bucketSize sm /\
     submissionPaths sm sid
       = (path_join (submissionsRoot sm) (Js.dec b),
          path_join (path_join (submissionsRoot sm) (Js.dec b)) (Js.dec sid))) /\
  (bucketSize sm = 0 ->
   submissionPaths sm sid
     = (path_join (submissionsRoot sm) "NaN",
        path_join (path_join (submissionsRoot sm) "NaN") (Js.dec sid))).
Proof.
  split.
  - intros Hpos. exists (sid / bucketSize sm * bucketSize sm).
    assert (Hb : bucketPrefix sm sid = Int (sid / bucketSize sm * bucketSize sm)).
    { unfold bucketPrefix. destruct (bucketSize sm =? 0) eqn:Hz; [|reflexivity].
      apply Z.eqb_eq in Hz. lia. }
    split; [exact Hb|]. split; [apply Z.divide_factor_r|]. split.
    + pose proof (Z.mul_div_le sid (bucketSize sm) Hpos).
      pose proof (Z.mul_succ_div_gt sid (bucketSize sm) Hpos). lia.
    + unfold submissionPaths. rewrite Hb. reflexivity.
  - intros Hzero. unfold submissionPaths, bucketPrefix. rewrite Hzero. reflexivity.
Qed.

Lemma bucket_of_sid_witness :
  exists b : Z,
    bucketPrefix sample_sm 250 = Int b /\
    (100 | b) /\ b <= 250 < b + 100 /\
    submissionPaths sample_sm 250
      = (path_join "submissions" (Js.dec b),
         path_join (path_join "submissions" (Js.dec b)) "250").
Proof. exact (proj1 (bucket_of_sid sample_sm 250) eq_refl). Defined.

(** ** The directory of the test data *)

Section TestData.
Context {E : Engine}.

Lemma loadByType_pdir (dir : string) (config : jsval) (p : problem) :
  ProblemConfig.loadByType dir config = Ok p -> pdir p = dir /\ cfg p = config.
Proof.
  unfold ProblemConfig.loadByType, ProblemConfig.loadClassic,
    ProblemConfig.loadInteractive, ProblemConfig.loadLeetcode, obind.
  destruct (prop config "type") as [ty|]; [|discriminate].
  destruct (Js.is_str _ "default").
  { destruct (ProblemConfig.loadSubtasks config); [|discriminate].
    destruct (prop config "checker"); [|discriminate].
    destruct (prop config "filename"); [|discriminate].
    intros H; inversion H; subst; split; reflexivity. }
  destruct (Js.is_str _ "leetcode"); [discriminate|].
  destruct (Js.is_str _ "interactive"); [|discriminate].
  destruct (ProblemConfig.loadSubtasks config); [|discriminate].
  destruct (prop config "checker"); [|discriminate].
  destruct (prop config "interactor"); [|discriminate].
  destruct (prop config "filename"); [|discriminate].
  intros H; inversion H; subst; split; reflexivity.
Qed.

Lemma loadProblem_pdir (pid : string) (w : world) (p : problem) :
  value (JudgeEngine.loadProblem pid w) = Ok p ->
  pdir p = path_join problemsRoot pid.
Proof.
  unfold JudgeEngine.loadProblem, ProblemConfig.loadProblem, bind, lift, value.
  destruct (ProblemConfig.loadConfig _ w) as [[[config|e] w1] t1]; simpl; [|discriminate].
  destruct (ProblemConfig.loadByType _ config) as [q|e] eqn:Hq; simpl; [|discriminate].
  intros H; inversion H; subst. apply (loadByType_pdir _ _ _ Hq).
Qed.

End TestData.

(** X15. where the test data of a loaded problem is read.  [judgeCase] takes
    the problem id from the last segment of the problem's directory: for a
    problem loaded under a plain id this is the id itself, so that the
    input of a case is read from [<problemsRoot>/<pid>/testdata]; for an
    id of the form [a/b] it is [b], and the input is read from
    [<problemsRoot>/b/testdata], not from the directory the configuration
    was loaded from. *)
Theorem test_data_directory {E : Engine} (pid : string) (w : world) (p : problem) :
  value (JudgeEngine.loadProblem pid w) = Ok p ->
  (plain_name pid = true -> last_segment (pdir p) = pid) /\
  (forall a b : string,
      pid = path_join a b -> plain_name b = true ->
      last_segment (pdir p) = b /\
      forall (name : string) (w' : world),
        value (JudgeEngine.readTestFile (last_segment (pdir p)) (VStr name) w')
          = fst (readFile (path_join (path_join (path_join problemsRoot b) "testdata") name) w')).
Proof.
  intros Hload. rewrite (loadProblem_pdir _ _ _ Hload). split.
  - intros Hp. apply last_segment_join, plain_name_no_slash, Hp.
  - intros a b -> Hb.
    assert (Hlast : last_segment (path_join problemsRoot (path_join a b)) = b).
    { unfold last_segment at 1. rewrite last_segment_from_join.
      apply last_segment_join, plain_name_no_slash, Hb. }
    rewrite Hlast. split; [reflexivity|]. intros name w'. apply readTestFile_value.
Qed.

Lemma test_data_directory_witness :
  last_segment "problems/A" = "A".
Proof.
  exact (proj1 (test_data_directory (E := accepting_engine) "A"
                  (problem_world "two cases") sample_problem eq_refl) eq_refl).
Defined.

(** * Further properties of the loader *)

Section Limits.
Context {E : Engine}.
Import ProblemConfig.

Lemma field_get (o : jsval) (k : string) (v : jsval) :
  Js.get o k = Some v -> field o k = v.
Proof. unfold field. intros ->. reflexivity. Qed.

Lemma or_falsy (a b : jsval) : Js.truthy a = false -> Js.or a b = b.
Proof. unfold Js.or. intros ->. reflexivity. Qed.

Lemma explicit_cases_limits (si : nat) (cs : list jsval) (t m : jsval)
    (more : list case_item) :
  Forall no_own_limit cs ->
  explicit_cases si cs t m = Ok more ->
  Forall (fun c => subtask c = si /\ c_time c = t /\ c_memory c = m) more.
Proof.
  revert more. induction cs as [|c cs IH]; intros more Hno; simpl.
  - intros H; inversion H; constructor.
  - apply Forall_cons in Hno as [[Ht Hm] Hno]. unfold prop.
    destruct (Js.get c "input") as [vi|] eqn:Hi; [|discriminate].
    destruct (get_total c "input" "output" vi Hi) as [vo ->].
    destruct (get_total c "input" "time" vi Hi) as [vt Hvt].
    destruct (get_total c "input" "memory" vi Hi) as [vm Hvm].
    rewrite Hvt, Hvm. simpl.
    destruct (explicit_cases si cs t m) as [rest|e]; simpl; [|discriminate].
    intros H; inversion H; subst more. constructor; [|apply IH; auto].
    rewrite (field_get _ _ _ Hvt) in Ht. rewrite (field_get _ _ _ Hvm) in Hm.
    simpl. rewrite (or_falsy _ _ Ht), (or_falsy _ _ Hm). auto.
Qed.

Lemma subtasks_loop_limits (all : list jsval) (gt gm ip is_ op os : jsval) :
  forall (sts : list jsval) (si : nat) (curCase : jsval) (cases r : list case_item),
    (forall k st, sts !! k = Some st -> all !! (si + k)%nat = Some st) ->
    Forall explicit_without_limits sts ->
    Forall (inherits_limits all gt gm) cases ->
    subtasks_loop sts si curCase cases gt gm ip is_ op os = Ok r ->
    Forall (inherits_limits all gt gm) r.
Proof.
  induction sts as [|st sts IH]; intros si curCase cases r Hidx Hno Hcases.
  - simpl. intros H; inversion H; subst. exact Hcases.
  - cbn [subtasks_loop]. unfold prop.
    apply Forall_cons in Hno as [Hst Hno].
    assert (Hhere : all !! si = Some st).
    { specialize (Hidx 0%nat st eq_refl). rewrite Nat.add_0_r in Hidx. exact Hidx. }
    assert (Hnext : forall k st', sts !! k = Some st' -> all !! (S si + k)%nat = Some st').
    { intros k st' Hk. specialize (Hidx (S k) st' Hk).
      replace (S si + k)%nat with (si + S k)%nat by lia. exact Hidx. }
    destruct (Js.get st "time_limit") as [v1|] eqn:H1; [|discriminate].
    destruct (get_total st _ "time" _ H1) as [v2 H2].
    destruct (get_total st _ "memory_limit" _ H1) as [v3 H3].
    destruct (get_total st _ "memory" _ H1) as [v4 H4].
    destruct (get_total st _ "n_cases" _ H1) as [n Hn].
    destruct (get_total st _ "cases" _ H1) as [cs Hcs].
    rewrite H2, H3, H4, Hn, Hcs. simpl.
    assert (Ht : Js.or v1 (Js.or v2 gt) = resolved st "time_limit" "time" gt).
    { unfold resolved. rewrite (field_get _ _ _ H1), (field_get _ _ _ H2). reflexivity. }
    assert (Hm : Js.or v3 (Js.or v4 gm) = resolved st "memory_limit" "memory" gm).
    { unfold resolved. rewrite (field_get _ _ _ H3), (field_get _ _ _ H4). reflexivity. }
    destruct (Js.is_undefined n); simpl.
    + destruct cs as [| | | | |l|]; try discriminate.
      destruct (explicit_cases si l _ _) as [more|e] eqn:Hex; simpl; [|discriminate].
      apply IH; [exact Hnext|exact Hno|].
      apply Forall_app. split; [exact Hcases|].
      eapply Forall_impl; [exact (explicit_cases_limits _ _ _ _ _ (Hst l Hcs) Hex)|].
      intros c (Hsi & Hct & Hcm). exists st. rewrite Hsi, Hct, Hcm. auto.
    + apply IH; [exact Hnext|exact Hno|].
      apply Forall_app. split; [exact Hcases|].
      unfold generated_cases. apply List.Forall_map. apply Forall_forall.
      intros i _. exists st. simpl. auto.
Qed.

End Limits.

(** X16. how a case gets its limits.  On a configuration whose explicit cases
    name no limits of their own, every flattened case carries the index of
    its subtask and takes the time limit
    [st.time_limit || st.time || cfg.time_limit || cfg.time || '1s'] and the
    memory limit
    [st.memory_limit || st.memory || cfg.memory_limit || cfg.memory || '256m']
    of that subtask.  When neither the configuration nor a subtask names a
    limit, the player's run of every case is sent to the sandbox with a
    CPU limit of 10^9 ns, a wall-clock limit of twice that and a memory
    limit of 256 * 2^20 bytes. *)
Theorem limits_are_inherited {E : Engine} (cfg : jsval) (sts : list jsval)
    (cases : list case_item) :
  Js.get cfg "subtasks" = Some (VArr sts) ->
  Forall explicit_without_limits sts ->
  ProblemConfig.loadSubtasks cfg = Ok cases ->
  Forall (inherits_limits sts (global_time cfg) (global_memory cfg)) cases /\
  (Forall names_no_limit (cfg :: sts) ->
   forall (c : case_item) (runSpec : run_spec) (inf : string),
     c ∈ cases ->
     cpuLimit (JudgeEngine.player_request runSpec c inf) = Int (10 ^ 9) /\
     clockLimit (JudgeEngine.player_request runSpec c inf) = Int (2 * 10 ^ 9) /\
     memoryLimit (JudgeEngine.player_request runSpec c inf) = Int (256 * 2 ^ 20)).
Proof.
  intros Hs Hno Hload.
  assert (Hall : Forall (inherits_limits sts (global_time cfg) (global_memory cfg)) cases).
  { revert Hload. unfold ProblemConfig.loadSubtasks, prop.
    destruct (get_total cfg _ "time_limit" _ Hs) as [v1 H1].
    destruct (get_total cfg _ "time" _ Hs) as [v2 H2].
    destruct (get_total cfg _ "memory_limit" _ Hs) as [v3 H3].
    destruct (get_total cfg _ "memory" _ Hs) as [v4 H4].
    destruct (get_total cfg _ "input_prefix" _ Hs) as [v5 ->].
    destruct (get_total cfg _ "output_prefix" _ Hs) as [v6 ->].
    destruct (get_total cfg _ "input_suffix" _ Hs) as [v7 ->].
    destruct (get_total cfg _ "output_suffix" _ Hs) as [v8 ->].
    rewrite H1, H2, H3, H4, Hs. simpl.
    replace (Js.or v1 (Js.or v2 (VStr "1s"))) with (global_time cfg)
      by (unfold global_time, resolved;
          rewrite (field_get _ _ _ H1), (field_get _ _ _ H2); reflexivity).
    replace (Js.or v3 (Js.or v4 (VStr "256m"))) with (global_memory cfg)
      by (unfold global_memory, resolved;
          rewrite (field_get _ _ _ H3), (field_get _ _ _ H4); reflexivity).
    apply subtasks_loop_limits; [intros k st Hk; exact Hk|exact Hno|constructor]. }
  split; [exact Hall|].
  intros Hnone c runSpec inf Hc.
  apply Forall_cons in Hnone as [(Hg1 & Hg2 & Hg3 & Hg4) Hsts].
  rewrite Forall_forall in Hall. destruct (Hall c Hc) as (st & Hst & Ht & Hm).
  rewrite Forall_forall in Hsts.
  destruct (Hsts st (list_elem_of_lookup_2 _ _ _ Hst)) as (Hs1 & Hs2 & Hs3 & Hs4).
  assert (Htime : c_time c = VStr "1s").
  { rewrite Ht. unfold resolved, global_time, resolved.
    rewrite (or_falsy _ _ Hs1), (or_falsy _ _ Hs2), (or_falsy _ _ Hg1), (or_falsy _ _ Hg2).
    reflexivity. }
  assert (Hmem : c_memory c = VStr "256m").
  { rewrite Hm. unfold resolved, global_memory, resolved.
    rewrite (or_falsy _ _ Hs3), (or_falsy _ _ Hs4), (or_falsy _ _ Hg3), (or_falsy _ _ Hg4).
    reflexivity. }
  unfold JudgeEngine.player_request. simpl. rewrite Htime, Hmem. repeat split.
Qed.

Lemma limits_are_inherited_witness :
  cpuLimit (JudgeEngine.player_request sample_spec first_case "1 2") = Int (10 ^ 9).
Proof.
  refine (proj1 (proj2 (limits_are_inherited (E := sample_E) two_cases
                          [VObj [("score", VNum (Int 100)); ("n_cases", VNum (Int 2))]]
                          [first_case; second_case] eq_refl _ eq_refl)
                   _ first_case sample_spec "1 2" _)).
  - repeat constructor. intros cs Hcs. discriminate.
  - repeat constructor.
  - apply elem_of_cons. left. reflexivity.
Defined.

(** ** The two revisions of the loader *)

(** X17. the loader of [src/utils.js] extends the one of
    [src/problem_manager.js]: whatever the older revision loads, the newer
    one loads with the same result, and the older revision loads nothing
    but configurations of type [default]; on a configuration of type
    [default] (or without a type) the two revisions return the same
    problem or throw the same exception.  (The problems are compared by the
    properties the engine reads.) *)
Theorem loader_revisions_agree {E : Engine} (dir : string) (config : jsval) :
  (forall p : problem,
      ProblemConfigOld.loadParsed dir config = Ok p ->
      ProblemConfig.loadParsed dir config = Ok p /\
      type_of_config config = Some (VStr "default")) /\
  (type_of_config config = Some (VStr "default") ->
   ProblemConfigOld.loadParsed dir config = ProblemConfig.loadParsed dir config).
Proof.
  assert (Hdefault : type_of_config config = Some (VStr "default") ->
                     ProblemConfigOld.loadParsed dir config
                       = ProblemConfig.loadParsed dir config).
  { unfold type_of_config.
    destruct (Js.get config "type") as [ty|] eqn:Hget; [|discriminate].
    intros H; inversion H as [Hty].
    unfold ProblemConfigOld.loadParsed, ProblemConfig.loadParsed,
      ProblemConfigOld.checkConfig, ProblemConfig.checkConfig, prop, obind.
    rewrite Hget, Hty. cbn [Js.is_str String.eqb Ascii.eqb Bool.eqb negb].
    destruct (Js.get config "subtasks") as [sub|]; [|reflexivity].
    destruct (negb (Js.truthy sub) || negb (Js.isArray sub)); [reflexivity|].
    unfold ProblemConfigOld.loadByType, ProblemConfig.loadByType, prop, obind.
    rewrite Hget, Hty. reflexivity. }
  split; [|exact Hdefault].
  intros p Hold.
  assert (Hty : type_of_config config = Some (VStr "default")).
  { revert Hold. unfold type_of_config, ProblemConfigOld.loadParsed,
      ProblemConfigOld.checkConfig, prop, obind.
    destruct (Js.get config "type") as [ty|]; [|discriminate].
    destruct (Js.is_str (Js.or ty (VStr "default")) "default") eqn:Hs; [|discriminate].
    intros _. apply is_str_true in Hs. rewrite Hs. reflexivity. }
  split; [|exact Hty]. rewrite <- (Hdefault Hty). exact Hold.
Qed.

Lemma loader_revisions_agree_witness :
  ProblemConfigOld.loadParsed (E := sample_E) "problems/A" two_cases
    = ProblemConfig.loadParsed (E := sample_E) "problems/A" two_cases.
Proof.
  exact (proj2 (loader_revisions_agree (E := sample_E) "problems/A" two_cases) eq_refl).
Defined.

(** * [parseProblemConf] *)

Lemma spaces_start (c : ascii) (s : string) :
  no_space (String c s) = true -> Chars.is_space c = false.
Proof. simpl. intros [H _]%andb_prop. apply negb_true_iff, H. Qed.

Lemma word_starts (s rest : string) :
  word s -> starts_with Chars.is_space (s +:+ rest) = false.
Proof.
  intros [Hne Hs]. destruct s as [|c s]; [congruence|].
  rewrite append_cons. simpl. apply (spaces_start _ _ Hs).
Qed.

Lemma no_space_app (a b : string) :
  no_space (a +:+ b) = no_space a && no_space b.
Proof.
  induction a as [|c a IH]; [reflexivity|].
  rewrite append_cons. simpl. rewrite IH, andb_assoc. reflexivity.
Qed.

Lemma trimEnd_spaces (ws : string) :
  string_forall Chars.is_space ws = true -> trimEnd ws = "".
Proof.
  induction ws as [|c ws IH]; [reflexivity|]. simpl.
  intros [Hc Hws]%andb_prop. rewrite (IH Hws), Hc. reflexivity.
Qed.

Lemma trimEnd_app_spaces (s ws : string) :
  string_forall Chars.is_space ws = true -> trimEnd (s +:+ ws) = trimEnd s.
Proof.
  intros Hws. induction s as [|c s IH].
  - simpl. apply trimEnd_spaces, Hws.
  - rewrite append_cons. simpl. rewrite IH. reflexivity.
Qed.

Lemma trimEnd_ends_in_word (a tok : string) :
  word tok -> trimEnd (a +:+ tok) = a +:+ tok.
Proof.
  intros [Hne Htok]. induction a as [|c a IH].
  - apply trimEnd_no_space, Htok.
  - rewrite append_cons. simpl. rewrite IH.
    destruct (a +:+ tok) eqn:Heq; [|reflexivity].
    destruct a; [change ("" +:+ tok) with tok in Heq; congruence
                |rewrite append_cons in Heq; discriminate].
Qed.

(** The text of a setting ends in a word. *)
Lemma spaced_ends_in_word (values : list (string * string)) :
  separated values ->
  forall a tok : string, word tok ->
    exists a' tok', a +:+ tok +:+ spaced values = a' +:+ tok' /\ word tok'.
Proof.
  induction values as [|[ws v] values IH]; intros Hsep a tok Htok.
  - exists a, tok. simpl. rewrite append_nil_r. auto.
  - apply Forall_cons in Hsep as [(_ & _ & Hv) Hsep]. simpl in Hv.
    destruct (IH Hsep (a +:+ tok +:+ ws) v Hv) as (a' & tok' & Heq & Hw).
    exists a', tok'. split; [|exact Hw]. rewrite <- Heq. simpl.
    rewrite !append_assoc. reflexivity.
Qed.

Lemma split_spaces_word (tok rest : string) (in_run : bool) :
  word tok ->
  split_spaces (tok +:+ rest) in_run =
    match split_spaces rest false with
    | piece :: more => (tok +:+ piece) :: more
    | [] => [tok]
    end.
Proof.
  intros [Hne Htok]. revert in_run. induction tok as [|c tok IH]; [congruence|].
  intros in_run. rewrite append_cons. cbn [split_spaces].
  rewrite (spaces_start _ _ Htok).
  destruct tok as [|c' tok].
  - change ("" +:+ rest) with rest. clear IH.
    destruct (split_spaces rest false); reflexivity.
  - rewrite IH; [|discriminate|simpl in Htok; apply andb_prop in Htok as [_ H]; exact H].
    destruct (split_spaces rest false); reflexivity.
Qed.

Lemma split_spaces_run (ws rest : string) :
  string_forall Chars.is_space ws = true ->
  split_spaces (ws +:+ rest) true = split_spaces rest true.
Proof.
  induction ws as [|c ws IH]; [reflexivity|].
  rewrite append_cons. simpl. intros [Hc Hws]%andb_prop. rewrite Hc. apply IH, Hws.
Qed.

Lemma split_spaces_gap (ws rest : string) :
  string_forall Chars.is_space ws = true -> ws <> "" ->
  split_spaces (ws +:+ rest) false = "" :: split_spaces rest true.
Proof.
  destruct ws as [|c ws]; [congruence|]. intros Hws _.
  rewrite append_cons. simpl in *. apply andb_prop in Hws as [Hc Hws].
  rewrite Hc. f_equal. apply split_spaces_run, Hws.
Qed.

Lemma split_spaces_values (values : list (string * string)) (tok : string) :
  word tok -> separated values ->
  forall in_run : bool,
    split_spaces (tok +:+ spaced values) in_run = tok :: map snd values.
Proof.
  revert tok. induction values as [|[ws v] values IH]; intros tok Htok Hsep in_run.
  - simpl. rewrite (split_spaces_word _ _ _ Htok). simpl.
    rewrite append_nil_r. reflexivity.
  - apply Forall_cons in Hsep as [(Hws & Hne & Hv) Hsep]. simpl in Hws, Hne, Hv.
    rewrite (split_spaces_word _ _ _ Htok). cbn [spaced].
    rewrite (split_spaces_gap _ _ Hws Hne), (IH v Hv Hsep true).
    rewrite append_nil_r. reflexivity.
Qed.

Lemma join_words (values : list (string * string)) :
  separated values -> values <> [] -> Js.join " " (map snd values) <> "".
Proof.
  destruct values as [|[ws v] values]; [congruence|].
  intros Hsep _. apply Forall_cons in Hsep as [(_ & _ & [Hne _]) _]. simpl in Hne.
  simpl. destruct (map snd values); [exact Hne|].
  destruct v; [congruence|rewrite append_cons; discriminate].
Qed.

Lemma trim_setting (indent key trailing : string) (values : list (string * string)) :
  string_forall Chars.is_space indent = true ->
  string_forall Chars.is_space trailing = true ->
  word key -> separated values ->
  trim (indent +:+ key +:+ spaced values +:+ trailing) = key +:+ spaced values.
Proof.
  intros Hin Htr Hkey Hsep. unfold trim.
  rewrite (drop_while_app _ _ _ Hin (word_starts _ _ Hkey)).
  destruct (spaced_ends_in_word values Hsep "" key Hkey) as (a & tok & Heq & Htok).
  change ("" +:+ key +:+ spaced values) with (key +:+ spaced values) in Heq.
  rewrite <- (append_assoc key), trimEnd_app_spaces by exact Htr.
  rewrite Heq. apply trimEnd_ends_in_word, Htok.
Qed.

(** X18. a setting line of [problem.conf] in ASCII.  A line made of a key
    and one or more values, all of ASCII characters, separated by ASCII
    white space of any kind and length and possibly indented or followed by
    such white space, stores the values, joined by single spaces, under the
    key with its letters A to Z in lower case (a key that starts with [#]
    makes the line a comment, and the key [__proto__] stores nothing).
    Outside ASCII the program knows more white space and more capitals than
    the embedding; such lines are outside this statement. *)
Theorem conf_setting_line (conf : gmap string string) (indent key trailing : string)
    (values : list (string * string)) :
  string_forall Chars.is_space indent = true ->
  string_forall Chars.is_space trailing = true ->
  word key -> ascii_only key = true -> starts_with is_hash key = false ->
  separated values -> Forall (fun v => ascii_only (snd v) = true) values ->
  values <> [] ->
  conf_line conf (indent +:+ key +:+ spaced values +:+ trailing)
    = conf_set (Chars.toLowerCase key) (Js.join " " (map snd values)) conf.
Proof.
  intros Hin Htr Hkey _ Hhash Hsep _ Hvals. unfold conf_line.
  rewrite (trim_setting _ _ _ _ Hin Htr Hkey Hsep).
  rewrite (split_spaces_values _ _ Hkey Hsep).
  destruct Hkey as [Hkne Hks].
  assert (Hne : String.eqb (key +:+ spaced values) "" = false).
  { apply String.eqb_neq. destruct key; [congruence|rewrite append_cons; discriminate]. }
  assert (Hh : starts_with is_hash (key +:+ spaced values) = false).
  { destruct key; [congruence|rewrite append_cons; exact Hhash]. }
  rewrite Hne, Hh. simpl orb. cbv iota.
  apply String.eqb_neq in Hkne. rewrite Hkne.
  pose proof (join_words _ Hsep Hvals) as Hj. apply String.eqb_neq in Hj. rewrite Hj.
  reflexivity.
Qed.

Lemma conf_setting_line_witness :
  conf_line ∅ "  Time_Limit   2  " = {[ "time_limit" := "2" ]} /\
  conf_line ∅ (String (ascii_of_nat 9) "title  A +   B") = {[ "title" := "A + B" ]}.
Proof.
  split.
  - refine (conf_setting_line ∅ "  " "Time_Limit" "  " [("   ", "2")] eq_refl eq_refl
              _ eq_refl eq_refl _ _ _);
      [split; [discriminate|reflexivity]| | |discriminate].
    + repeat constructor; discriminate.
    + repeat constructor.
  - refine (conf_setting_line ∅ (String (ascii_of_nat 9) "") "title" ""
              [("  ", "A"); (" ", "+"); ("   ", "B")] eq_refl eq_refl
              _ eq_refl eq_refl _ _ _);
      [split; [discriminate|reflexivity]| | |discriminate].
    + repeat constructor; discriminate.
    + repeat constructor.
Defined.

(** X19. the lines of [problem.conf] that set nothing: a line of ASCII white
    space only (the empty line included), a line whose first character
    after such an indentation is [#], whatever follows it, and a line that
    holds a key of ASCII characters and no value.  (A key with a white
    space character from outside ASCII in it is a key and a value to the
    program, and is outside this statement.) *)
Theorem conf_ignored_lines (conf : gmap string string) (indent : string) :
  string_forall Chars.is_space indent = true ->
  conf_line conf indent = conf /\
  (forall text : string, conf_line conf (indent +:+ "#" +:+ text) = conf) /\
  (forall key trailing : string,
      word key -> ascii_only key = true ->
      string_forall Chars.is_space trailing = true ->
      conf_line conf (indent +:+ key +:+ trailing) = conf).
Proof.
  intros Hin. split; [|split].
  - unfold conf_line, trim.
    rewrite <- (append_nil_r indent), (drop_while_app _ _ "" Hin eq_refl).
    reflexivity.
  - intros text. unfold conf_line, trim.
    rewrite (drop_while_app _ indent ("#" +:+ text) Hin eq_refl).
    change ("#" +:+ text) with (String "#" text). cbn [trimEnd].
    destruct (trimEnd text); reflexivity.
  - intros key trailing Hkey _ Htr. unfold conf_line.
    assert (Hnone : separated []) by constructor.
    pose proof (trim_setting indent key trailing [] Hin Htr Hkey Hnone) as Ht.
    cbn [spaced] in Ht. change ("" +:+ trailing) with trailing in Ht.
    rewrite append_nil_r in Ht. rewrite Ht.
    pose proof (split_spaces_values [] key Hkey Hnone false) as Hs.
    cbn [spaced map] in Hs. rewrite append_nil_r in Hs. rewrite Hs.
    cbn [Js.join]. rewrite andb_false_r.
    destruct (String.eqb key "" || starts_with is_hash key); reflexivity.
Qed.

Lemma conf_ignored_lines_witness :
  conf_line {[ "time_limit" := "2" ]} "  # memory_limit 64" = {[ "time_limit" := "2" ]} /\
  conf_line {[ "time_limit" := "2" ]} "  checker " = {[ "time_limit" := "2" ]}.
Proof.
  split.
  - exact (proj1 (proj2 (conf_ignored_lines {[ "time_limit" := "2" ]} "  " eq_refl))
             " memory_limit 64").
  - refine (proj2 (proj2 (conf_ignored_lines {[ "time_limit" := "2" ]} "  " eq_refl))
              "checker" " " _ eq_refl eq_refl).
    split; [discriminate|reflexivity].
Defined.

(** ** The file, line by line *)

Lemma split_on_pieces (sep : ascii) (s : string) : split_on sep s <> [].
Proof.
  destruct s as [|c s]; simpl; [discriminate|].
  destruct (Ascii.eqb c sep); [discriminate|].
  destruct (split_on sep s); discriminate.
Qed.

Lemma split_on_app (sep : ascii) (a b : string) :
  split_on sep (a +:+ String sep b) = split_on sep a ++ split_on sep b.
Proof.
  induction a as [|c a IH].
  - change ("" +:+ String sep b) with (String sep b). simpl.
    rewrite Ascii.eqb_refl. reflexivity.
  - rewrite append_cons. cbn [split_on]. rewrite IH.
    destruct (Ascii.eqb c sep); [reflexivity|].
    pose proof (split_on_pieces sep a) as Hne.
    destruct (split_on sep a); [congruence|reflexivity].
Qed.

Lemma split_on_none (sep : ascii) (s : string) :
  string_forall (fun c => negb (Ascii.eqb c sep)) s = true -> split_on sep s = [s].
Proof.
  induction s as [|c s IH]; [reflexivity|]. simpl.
  intros [Hc Hs]%andb_prop. apply negb_true_iff in Hc. rewrite Hc, (IH Hs). reflexivity.
Qed.

(** X20. [parseProblemConf] reads the file line by line, in order.  It throws
    when the file cannot be read and changes nothing; the empty file sets
    nothing; and the configuration of a file that ends in a further line is
    the configuration of the file before that line, updated by the line: a
    later setting of a key replaces an earlier one. *)
Theorem conf_lines_in_order (path : string) (w : world) :
  after (parseProblemConf path w) = w /\
  value (parseProblemConf path w) =
    match fs_files w !! path with
    | Some content => Ok (conf_of content)
    | None => Throw (Error_ ("ENOENT: no such file or directory, open '" +:+ path +:+ "'"))
    end /\
  conf_of "" = ∅ /\
  (forall content line : string,
      string_forall (fun c => negb (Ascii.eqb c newline)) line = true ->
      conf_of (content +:+ String newline line) = conf_line (conf_of content) line).
Proof.
  split; [|split; [|split]].
  - unfold parseProblemConf, bind, await, readFile, after.
    destruct (fs_files w !! path); reflexivity.
  - unfold parseProblemConf, bind, await, readFile, value.
    destruct (fs_files w !! path); reflexivity.
  - reflexivity.
  - intros content line Hline. unfold conf_of.
    rewrite split_on_app, fold_left_app, (split_on_none _ _ Hline). reflexivity.
Qed.

(** * [findTestCases] *)

Lemma endsWith_app (b suffix : string) : endsWith (b +:+ suffix) suffix = true.
Proof.
  induction b as [|c b IH].
  - change ("" +:+ suffix) with suffix. destruct suffix; simpl;
      rewrite ?Ascii.eqb_refl, ?String.eqb_refl; reflexivity.
  - rewrite append_cons. cbn [endsWith]. rewrite IH. apply orb_true_r.
Qed.

Lemma substring_all (s : string) : substring 0 (String.length s) s = s.
Proof. induction s as [|c s IH]; [reflexivity|]. simpl. rewrite IH. reflexivity. Qed.

Lemma substring_prefix (b t : string) : substring 0 (String.length b) (b +:+ t) = b.
Proof.
  induction b as [|c b IH].
  - change ("" +:+ t) with t. destruct t; reflexivity.
  - rewrite append_cons. simpl. rewrite IH. reflexivity.
Qed.

Lemma slice_end_app (b suffix : string) :
  slice_end (b +:+ suffix) (String.length suffix) = b.
Proof.
  unfold slice_end. rewrite length_append.
  replace (String.length b + String.length suffix - String.length suffix)%nat
    with (String.length b) by lia.
  apply substring_prefix.
Qed.

Lemma endsWith_split (s suffix : string) :
  endsWith s suffix = true -> s = slice_end s (String.length suffix) +:+ suffix.
Proof.
  induction s as [|c s IH]; cbn [endsWith].
  - rewrite orb_false_r. intros Heq%String.eqb_eq. subst suffix. reflexivity.
  - intros [Heq%String.eqb_eq | Hs]%orb_prop.
    + subst suffix. unfold slice_end. rewrite Nat.sub_diag. reflexivity.
    + specialize (IH Hs). rewrite IH at 1.
      rewrite <- append_cons. f_equal. unfold slice_end.
      assert (Hlen : (String.length suffix <= String.length s)%nat).
      { rewrite IH, length_append. lia. }
      simpl String.length.
      replace (S (String.length s) - String.length suffix)%nat
        with (S (String.length s - String.length suffix)) by lia.
      reflexivity.
Qed.

(** An answer file of [k] is a file with one of the two endings whose name
    without the ending is [k]. *)
Lemma answers_spec (k file : string) :
  answers k file
    = (endsWith file ".ans" || endsWith file ".out") && String.eqb (slice_end file 4) k.
Proof.
  unfold answers.
  destruct (String.eqb file (k +:+ ".ans")) eqn:Ha.
  { apply String.eqb_eq in Ha. subst file.
    pose proof (slice_end_app k ".ans") as Hs. simpl String.length in Hs.
    rewrite (endsWith_app k ".ans"), Hs, String.eqb_refl.
    reflexivity. }
  destruct (String.eqb file (k +:+ ".out")) eqn:Ho.
  { apply String.eqb_eq in Ho. subst file.
    pose proof (slice_end_app k ".out") as Hs. simpl String.length in Hs.
    rewrite (endsWith_app k ".out"), Hs, String.eqb_refl, !orb_true_r.
    reflexivity. }
  simpl. symmetry. apply andb_false_iff.
  destruct (String.eqb (slice_end file 4) k) eqn:Hk; [left|right; reflexivity].
  apply String.eqb_eq in Hk. apply orb_false_iff. split.
  - destruct (endsWith file ".ans") eqn:He; [|reflexivity].
    apply endsWith_split in He. simpl String.length in He. rewrite Hk in He.
    apply String.eqb_neq in Ha. congruence.
  - destruct (endsWith file ".out") eqn:He; [|reflexivity].
    apply endsWith_split in He. simpl String.length in He. rewrite Hk in He.
    apply String.eqb_neq in Ho. congruence.
Qed.

Lemma answer_of_snoc (k : string) (files : list string) (file : string) :
  answer_of k (files ++ [file])
    = if answers k file then Some file else answer_of k files.
Proof.
  induction files as [|f files IH]; simpl.
  - destruct (answers k file); reflexivity.
  - rewrite IH. destruct (answers k file); reflexivity.
Qed.

Lemma answer_of_none (k : string) (files : list string) :
  answer_of k files = None <-> Forall (fun f => answers k f = false) files.
Proof.
  induction files as [|f files IH]; simpl.
  - split; [constructor|reflexivity].
  - destruct (answer_of k files) as [o|].
    + split; [discriminate|]. intros Hall. apply Forall_cons in Hall as [_ Hall].
      apply IH in Hall. discriminate.
    + destruct (answers k f) eqn:Hf.
      * split; [discriminate|]. intros Hall. apply Forall_cons in Hall as [Hf' _].
        congruence.
      * split; [|reflexivity]. intros _. constructor; [exact Hf|]. apply IH. reflexivity.
Qed.

Lemma answer_of_listed_last (k : string) (before later : list string) (out : string) :
  answers k out = true ->
  Forall (fun f => answers k f = false) later ->
  answer_of k (before ++ out :: later) = Some out.
Proof.
  intros Ha Hl. induction before as [|f before IH]; simpl.
  - rewrite (proj2 (answer_of_none k later) Hl), Ha. reflexivity.
  - rewrite IH. reflexivity.
Qed.

(** The answer file of [k] is the one that is listed last. *)
Lemma answer_of_last (k : string) (files : list string) (out : string) :
  answer_of k files = Some out <->
  answers k out = true /\
  exists before later, files = before ++ out :: later /\
                        Forall (fun f => answers k f = false) later.
Proof.
  split.
  - revert out. induction files as [|f files IH]; intros out; simpl; [discriminate|].
    destruct (answer_of k files) as [o|] eqn:Hrest.
    + intros Heq. inversion Heq; subst o.
      destruct (IH out eq_refl) as (Ha & b & l & Hfiles & Hl).
      split; [exact Ha|]. exists (f :: b), l. rewrite Hfiles. auto.
    + destruct (answers k f) eqn:Hf; [|discriminate].
      intros Heq. inversion Heq; subst f. split; [exact Hf|].
      exists [], files. split; [reflexivity|]. apply answer_of_none, Hrest.
  - intros (Ha & b & l & -> & Hl). apply answer_of_listed_last; assumption.
Qed.

(** ** The map of the test cases *)

Lemma map_set_elem (k : string) (v : case_files) (m : list (string * case_files))
    (e : string * case_files) :
  e ∈ map_set k v m -> e = (k, v) \/ e ∈ m.
Proof.
  induction m as [|[k' v'] m IH]; simpl.
  - intros He. apply list_elem_of_singleton in He. auto.
  - destruct (String.eqb k k').
    + intros [->|He]%elem_of_cons; [auto|]. right. apply elem_of_cons. auto.
    + intros [->|He]%elem_of_cons; [right; apply elem_of_cons; auto|].
      destruct (IH He) as [->|Hm]; [auto|]. right. apply elem_of_cons. auto.
Qed.

Lemma map_set_keys (k : string) (v : case_files) (m : list (string * case_files)) :
  map fst (map_set k v m) = if bool_decide (k ∈ map fst m) then map fst m
                            else map fst m ++ [k].
Proof.
  induction m as [|[k' v'] m IH]; simpl; [reflexivity|].
  destruct (String.eqb k k') eqn:Hk.
  - apply String.eqb_eq in Hk. subst k'. simpl.
    rewrite bool_decide_true by (apply elem_of_cons; auto). reflexivity.
  - apply String.eqb_neq in Hk. simpl. rewrite IH.
    destruct (bool_decide (k ∈ map fst m)) eqn:Hin.
    + apply bool_decide_eq_true in Hin.
      rewrite bool_decide_true by (apply elem_of_cons; auto). reflexivity.
    + apply bool_decide_eq_false in Hin.
      rewrite bool_decide_false; [reflexivity|].
      intros [?|?]%elem_of_cons; congruence.
Qed.

(** What the first loop leaves: one entry for each [.in] file, under the
    name without the ending. *)
Lemma collect_inputs_spec (files : list string) :
  NoDup (map fst (collect_inputs files)) /\
  (forall k v, (k, v) ∈ collect_inputs files ->
     v = mkCaseFiles (k +:+ ".in") None /\ (k +:+ ".in") ∈ files) /\
  (forall k, (k +:+ ".in") ∈ files -> k ∈ map fst (collect_inputs files)).
Proof.
  unfold collect_inputs.
  induction files as [|file files IH] using rev_ind.
  - simpl. split; [constructor|]. split.
    + intros k v Hin. apply elem_of_nil in Hin. contradiction.
    + intros k Hin. apply elem_of_nil in Hin. contradiction.
  - rewrite fold_left_app. cbn [fold_left].
    set (m := fold_left _ files []) in *.
    destruct IH as (Hnd & Hs & Hc).
    destruct (endsWith file ".in") eqn:Hend.
    + pose proof (endsWith_split _ _ Hend) as Hfile. simpl String.length in Hfile.
      set (k0 := slice_end file 3) in *.
      split; [|split].
      * rewrite map_set_keys. destruct (bool_decide (k0 ∈ map fst m)) eqn:Hin;
          [exact Hnd|].
        apply bool_decide_eq_false in Hin.
        apply NoDup_app. split; [exact Hnd|]. split.
        -- intros x Hx Hx'. apply list_elem_of_singleton in Hx'. congruence.
        -- apply NoDup_singleton.
      * intros k v Hin. apply map_set_elem in Hin as [Heq|Hin].
        -- inversion Heq; subst k v. rewrite <- Hfile. split; [reflexivity|].
           apply elem_of_app. right. apply list_elem_of_singleton. reflexivity.
        -- destruct (Hs k v Hin) as [-> Hk]. split; [reflexivity|].
           apply elem_of_app. auto.
      * intros k Hin. apply elem_of_app in Hin as [Hin|Hin].
        -- specialize (Hc k Hin). rewrite map_set_keys.
           destruct (bool_decide (k0 ∈ map fst m)); [exact Hc|].
           apply elem_of_app. auto.
        -- apply list_elem_of_singleton in Hin.
           assert (k = k0).
           { rewrite Hfile in Hin. apply (append_inv_tail k k0 ".in"). exact Hin. }
           subst k. rewrite map_set_keys.
           destruct (bool_decide (k0 ∈ map fst m)) eqn:Hd.
           ++ apply bool_decide_eq_true in Hd. exact Hd.
           ++ apply elem_of_app. right. apply list_elem_of_singleton. reflexivity.
    + split; [exact Hnd|]. split.
      * intros k v Hin. destruct (Hs k v Hin) as [-> Hk]. split; [reflexivity|].
        apply elem_of_app. auto.
      * intros k Hin. apply elem_of_app in Hin as [Hin|Hin]; [apply Hc, Hin|].
        apply list_elem_of_singleton in Hin. subst file.
        rewrite (endsWith_app k ".in") in Hend. discriminate.
Qed.

Lemma with_answer_same (files : list string) (file : string)
    (m : list (string * case_files)) :
  Forall (fun e => answers (fst e) file = false) m ->
  map (with_answer (files ++ [file])) m = map (with_answer files) m.
Proof.
  induction m as [|e m IH]; [reflexivity|].
  intros [He Hm]%Forall_cons. simpl. rewrite (IH Hm). f_equal.
  unfold with_answer. rewrite answer_of_snoc, He. reflexivity.
Qed.

Lemma set_output_answer (files : list string) (file : string)
    (m : list (string * case_files)) :
  endsWith file ".ans" || endsWith file ".out" = true ->
  NoDup (map fst m) ->
  set_output (slice_end file 4) file (map (with_answer files) m)
    = map (with_answer (files ++ [file])) m.
Proof.
  intros Hout. induction m as [|[k v] m IH]; [reflexivity|].
  simpl. intros [Hk Hnd]%NoDup_cons.
  assert (Hans : forall k', answers k' file = String.eqb (slice_end file 4) k').
  { intros k'. rewrite answers_spec, Hout. reflexivity. }
  destruct (String.eqb (slice_end file 4) k) eqn:Heq.
  - apply String.eqb_eq in Heq. f_equal.
    + unfold with_answer. simpl. rewrite answer_of_snoc, Hans, Heq, String.eqb_refl.
      reflexivity.
    + symmetry. apply with_answer_same. apply Forall_forall. intros [k' v'] Hin.
      simpl. rewrite Hans. apply String.eqb_neq. intros Hk'. apply Hk.
      rewrite <- Heq, Hk'. apply (list_elem_of_fmap_2 fst) in Hin. exact Hin.
  - f_equal; [|apply IH, Hnd].
    unfold with_answer. simpl. rewrite answer_of_snoc, Hans, Heq. reflexivity.
Qed.

(** What the second loop leaves: every entry with the answer file of its
    name that is listed last. *)
Lemma collect_outputs_spec (files : list string) (m : list (string * case_files)) :
  NoDup (map fst m) ->
  collect_outputs files m = map (with_answer files) m.
Proof.
  intros Hnd. unfold collect_outputs.
  induction files as [|file files IH] using rev_ind.
  - simpl. induction m as [|[k [i o]] m IHm]; [reflexivity|].
    apply NoDup_cons in Hnd as [_ Hnd]. simpl. rewrite <- (IHm Hnd). reflexivity.
  - rewrite fold_left_app. cbn [fold_left]. rewrite IH.
    destruct (endsWith file ".ans" || endsWith file ".out") eqn:Hout.
    + apply set_output_answer; assumption.
    + symmetry. apply with_answer_same. apply Forall_forall. intros e _.
      rewrite answers_spec, Hout. reflexivity.
Qed.

Lemma validCases_elem (m : list (string * case_files)) (c : test_pair) :
  c ∈ validCases m <->
  exists v, (baseName c, v) ∈ m /\ cf_input v = pair_input c /\
            cf_output v = Some (pair_output c) /\
            pair_input c <> "" /\ pair_output c <> "".
Proof.
  induction m as [|[k v] m IH]; simpl.
  - split; [intros Hc; apply elem_of_nil in Hc; contradiction|].
    intros (v & Hin & _). apply elem_of_nil in Hin. contradiction.
  - assert (Hrest : c ∈ validCases m ->
                    exists v0, (baseName c, v0) ∈ (k, v) :: m /\ cf_input v0 = pair_input c /\
                               cf_output v0 = Some (pair_output c) /\
                               pair_input c <> "" /\ pair_output c <> "").
    { intros Hc. apply IH in Hc as (v0 & Hin & Hrest). exists v0.
      split; [apply elem_of_cons; auto|exact Hrest]. }
    assert (Hback : forall v0,
               (baseName c, v0) ∈ (k, v) :: m -> cf_input v0 = pair_input c ->
               cf_output v0 = Some (pair_output c) ->
               pair_input c <> "" -> pair_output c <> "" ->
               (k = baseName c /\ v0 = v) \/ c ∈ validCases m).
    { intros v0 [Heq|Hin]%elem_of_cons Hi Ho Hni Hno.
      - inversion Heq; subst. auto.
      - right. apply IH. eauto 10. }
    destruct (cf_output v) as [out|] eqn:Hov.
    + destruct (negb (String.eqb (cf_input v) "") && negb (String.eqb out "")) eqn:Hne.
      * apply andb_prop in Hne as [Hi Ho].
        apply negb_true_iff, String.eqb_neq in Hi.
        apply negb_true_iff, String.eqb_neq in Ho.
        split.
        -- intros [->|Hc]%elem_of_cons; [|apply Hrest, Hc].
           exists v. simpl. split; [apply elem_of_cons; auto|]. auto.
        -- intros (v0 & Hin & Hi0 & Ho0 & Hni & Hno).
           destruct (Hback v0 Hin Hi0 Ho0 Hni Hno) as [[-> ->]|Hc];
             [|apply elem_of_cons; auto].
           apply elem_of_cons. left. destruct c as [b i o]. simpl in *.
           rewrite Hov in Ho0. inversion Ho0. subst. reflexivity.
      * split; [exact Hrest|].
        intros (v0 & Hin & Hi0 & Ho0 & Hni & Hno).
        destruct (Hback v0 Hin Hi0 Ho0 Hni Hno) as [[-> ->]|Hc]; [|exact Hc].
        rewrite Hov in Ho0. inversion Ho0; subst out.
        apply andb_false_iff in Hne as [Hne|Hne];
          apply negb_false_iff, String.eqb_eq in Hne; congruence.
    + split; [exact Hrest|].
      intros (v0 & Hin & Hi0 & Ho0 & Hni & Hno).
      destruct (Hback v0 Hin Hi0 Ho0 Hni Hno) as [[-> ->]|Hc]; [|exact Hc].
      congruence.
Qed.

Lemma validCases_names (m : list (string * case_files)) :
  NoDup (map fst m) -> NoDup (map baseName (validCases m)).
Proof.
  induction m as [|[k v] m IH]; simpl; [constructor|].
  intros [Hk Hnd]%NoDup_cons. specialize (IH Hnd).
  assert (Hnew : k ∉ map baseName (validCases m)).
  { intros Hin. apply list_elem_of_fmap in Hin as (c & -> & Hc).
    apply validCases_elem in Hc as (v0 & Hin & _).
    apply Hk. apply (list_elem_of_fmap_2 fst) in Hin. exact Hin. }
  destruct (cf_output v) as [out|]; [|exact IH].
  destruct (negb _ && negb _); [|exact IH].
  simpl. apply NoDup_cons. auto.
Qed.

(** ** The sort *)

Lemma insert_by_perm {A} (cmp : A -> A -> Z) (x : A) (l : list A) :
  insert_by cmp x l ≡ₚ x :: l.
Proof.
  induction l as [|y l IH]; simpl; [reflexivity|].
  destruct (0 <? cmp x y); [|reflexivity].
  rewrite IH. apply Permutation_swap.
Qed.

Lemma sort_by_perm {A} (cmp : A -> A -> Z) (l : list A) : sort_by cmp l ≡ₚ l.
Proof.
  induction l as [|x l IH]; simpl; [reflexivity|].
  rewrite insert_by_perm, IH. reflexivity.
Qed.

Section Ordered.
Context {A : Type} (cmp : A -> A -> Z).
Hypothesis cmp_trans : forall a b c, cmp a b <= 0 -> cmp b c <= 0 -> cmp a c <= 0.
Hypothesis cmp_total : forall a b, 0 < cmp a b -> cmp b a <= 0.

Lemma insert_by_ordered (x : A) (l : list A) :
  ordered cmp l -> ordered cmp (insert_by cmp x l).
Proof.
  induction l as [|y l IH]; simpl; [intros _; split; [constructor|exact I]|].
  intros [Hy Hl]. destruct (0 <? cmp x y) eqn:Hxy.
  - apply Z.ltb_lt in Hxy. simpl. split; [|apply IH, Hl].
    rewrite insert_by_perm. constructor; [apply cmp_total, Hxy|exact Hy].
  - apply Z.ltb_ge in Hxy. simpl. split; [|split; assumption].
    constructor; [exact Hxy|].
    eapply Forall_impl; [exact Hy|]. intros z Hz. simpl in Hz.
    apply (cmp_trans x y z); assumption.
Qed.

Lemma sort_by_ordered (l : list A) : ordered cmp (sort_by cmp l).
Proof.
  induction l as [|x l IH]; simpl; [exact I|]. apply insert_by_ordered, IH.
Qed.

End Ordered.

Section Found.
Context {host : Host}.

Lemma answers_iff (k file : string) :
  answers k file = true <-> file = k +:+ ".ans" \/ file = k +:+ ".out".
Proof.
  unfold answers. rewrite orb_true_iff, !String.eqb_eq. reflexivity.
Qed.

Lemma no_answer_iff (k : string) (l : list string) :
  Forall (fun f => answers k f = false) l <->
  ((k +:+ ".ans") ∉ l) /\ ((k +:+ ".out") ∉ l).
Proof.
  rewrite Forall_forall. split.
  - intros Hall. split; intros Hin; specialize (Hall _ Hin);
      apply not_true_iff_false in Hall; apply Hall, answers_iff; auto.
  - intros [Ha Ho] f Hin. apply not_true_iff_false. intros Hf.
    apply answers_iff in Hf as [->| ->]; contradiction.
Qed.

Lemma pair_files_elem (files : list string) (c : test_pair) :
  c ∈ pair_files files <->
  pair_input c = baseName c +:+ ".in" /\ pair_input c ∈ files /\
  answer_of (baseName c) files = Some (pair_output c).
Proof.
  unfold pair_files. rewrite sort_by_perm.
  destruct (collect_inputs_spec files) as (Hnd & Hs & Hc).
  rewrite (collect_outputs_spec _ _ Hnd), validCases_elem. split.
  - intros (v & Hin & Hi & Ho & _).
    apply list_elem_of_fmap in Hin as ([k v0] & Heq & Hin0).
    unfold with_answer in Heq. simpl in Heq. inversion Heq; subst k v. clear Heq.
    destruct (Hs _ _ Hin0) as [-> Hfile]. simpl in Hi, Ho.
    rewrite <- Hi. split; [reflexivity|]. split; [exact Hfile|].
    destruct (answer_of (baseName c) files); [exact Ho|discriminate].
  - intros (Hi & Hfile & Ho). rewrite Hi in Hfile.
    specialize (Hc _ Hfile). apply list_elem_of_fmap in Hc as ([k v0] & Hk & Hin0).
    simpl in Hk. subst k. destruct (Hs _ _ Hin0) as [-> _].
    exists (mkCaseFiles (baseName c +:+ ".in") (Some (pair_output c))).
    split; [|split; [symmetry; exact Hi|split; [reflexivity|]]].
    + apply list_elem_of_fmap. exists (baseName c, mkCaseFiles (baseName c +:+ ".in") None).
      split; [|exact Hin0]. unfold with_answer. simpl. rewrite Ho. reflexivity.
    + split.
      * rewrite Hi. destruct (baseName c); [discriminate|rewrite append_cons; discriminate].
      * apply answer_of_last in Ho as [Ha _]. apply answers_iff in Ha as [->| ->];
          (destruct (baseName c); [discriminate|rewrite append_cons; discriminate]).
Qed.

Lemma pair_files_names (files : list string) :
  NoDup (map baseName (pair_files files)).
Proof.
  unfold pair_files.
  assert (Hp : map baseName (sort_by (fun a b => localeCompare (baseName a) (baseName b))
                               (validCases (collect_outputs files (collect_inputs files))))
               ≡ₚ map baseName (validCases (collect_outputs files (collect_inputs files)))).
  { apply Permutation_map, sort_by_perm. }
  rewrite Hp. apply validCases_names.
  destruct (collect_inputs_spec files) as (Hnd & _).
  rewrite (collect_outputs_spec _ _ Hnd).
  rewrite map_map. exact Hnd.
Qed.

End Found.

(** X21. which test cases [findTestCases] finds.  On a directory that lists,
    it returns (and changes nothing) the cases [c] such that the listing has
    the input file [c.baseName + '.in'] and an answer file for the same
    base name, [c.baseName + '.ans'] or [c.baseName + '.out']: when both
    are listed, the answer of the case is the one the directory lists
    later.  An input without an answer and an answer without an input give
    no case. *)
Theorem test_cases_found {host : Host} (dir : string) (w : world)
    (files : list string) :
  readdir dir w = Ok files ->
  exists cases : list test_pair,
    value (findTestCases dir w) = Ok cases /\
    after (findTestCases dir w) = w /\
    forall c : test_pair,
      c ∈ cases <->
      pair_input c = baseName c +:+ ".in" /\ pair_input c ∈ files /\
      (pair_output c = baseName c +:+ ".ans" \/ pair_output c = baseName c +:+ ".out") /\
      exists before later : list string,
        files = before ++ pair_output c :: later /\
        ((baseName c +:+ ".ans") ∉ later) /\ ((baseName c +:+ ".out") ∉ later).
Proof.
  intros Hdir. exists (pair_files files).
  split; [|split].
  - unfold findTestCases, bind, await, ret, value. rewrite Hdir. reflexivity.
  - unfold findTestCases, bind, await, ret, after. rewrite Hdir. reflexivity.
  - intros c. rewrite pair_files_elem, answer_of_last, answers_iff. split.
    + intros (Hi & Hf & Ha & b & l & Hfiles & Hl).
      apply no_answer_iff in Hl. eauto 10.
    + intros (Hi & Hf & Ha & b & l & Hfiles & Hl).
      apply no_answer_iff in Hl. eauto 10.
Qed.

Lemma test_cases_found_witness :
  exists cases : list test_pair,
    value (findTestCases (host := sample_host) "upload" empty_world) = Ok cases /\
    mkPair "b" "b.in" "b.ans" ∈ cases.
Proof.
  destruct (test_cases_found (host := sample_host) "upload" empty_world sample_listing
              eq_refl) as (cases & Hv & _ & Hc).
  exists cases. split; [exact Hv|]. apply Hc. simpl.
  split; [reflexivity|]. split; [repeat constructor|]. split; [auto|].
  exists ["b.out"; "b.in"; "a.in"; "notes.txt"], ["c.in"; "a.ans"].
  split; [reflexivity|].
  split; intros Hin; repeat (apply elem_of_cons in Hin as [Hin|Hin]; [discriminate|]);
    apply elem_of_nil in Hin; exact Hin.
Defined.

(** X22. the order and the names of the cases [findTestCases] returns.  No two
    cases have the same base name, whatever the listing is; a listing
    without a file that ends in [.in] gives no case; and when the collation
    orders the names consistently, the cases are returned in the order of
    [localeCompare] on their base names. *)
Theorem test_cases_in_order {host : Host} (dir : string) (w : world)
    (files : list string) :
  readdir dir w = Ok files ->
  exists cases : list test_pair,
    value (findTestCases dir w) = Ok cases /\
    NoDup (map baseName cases) /\
    (Forall (fun f => endsWith f ".in" = false) files -> cases = []) /\
    ((forall a b c : string,
         localeCompare a b <= 0 -> localeCompare b c <= 0 -> localeCompare a c <= 0) ->
     (forall a b : string, 0 < localeCompare a b -> localeCompare b a <= 0) ->
     ordered (fun a b => localeCompare (baseName a) (baseName b)) cases).
Proof.
  intros Hdir. exists (pair_files files). split; [|split; [|split]].
  - unfold findTestCases, bind, await, ret, value. rewrite Hdir. reflexivity.
  - apply pair_files_names.
  - intros Hnone. destruct (pair_files files) as [|c cases] eqn:Hp; [reflexivity|].
    assert (Hc : c ∈ pair_files files) by (rewrite Hp; apply elem_of_cons; auto).
    apply pair_files_elem in Hc as (Hi & Hf & _).
    rewrite Forall_forall in Hnone. specialize (Hnone _ Hf).
    rewrite Hi, (endsWith_app (baseName c) ".in") in Hnone. discriminate.
  - intros Htrans Htotal. unfold pair_files. apply sort_by_ordered.
    + intros a b c. apply Htrans.
    + intros a b. apply Htotal.
Qed.

Lemma test_cases_in_order_witness :
  exists cases : list test_pair,
    value (findTestCases (host := sample_host) "upload" empty_world) = Ok cases /\
    NoDup (map baseName cases).
Proof.
  destruct (test_cases_in_order (host := sample_host) "upload" empty_world sample_listing
              eq_refl) as (cases & Hv & Hnd & _).
  exists cases. split; [exact Hv|exact Hnd].
Defined.

(** * Setting a problem up from an upload *)

Section CopyFiles.

Lemma copyFile_run (src dest data : string) (w : world) :
  fs_files w !! src = Some data ->
  value (copyFile src dest w) = Ok tt /\
  fs_files (after (copyFile src dest w)) = <[dest := data]> (fs_files w).
Proof.
  intros Hsrc. unfold copyFile, ensureDir, bind, await, mkdir, fs_copyFile, value, after.
  simpl. rewrite Hsrc. split; reflexivity.
Qed.

Lemma copyFile_missing (src dest : string) (w : world) :
  fs_files w !! src = None ->
  exists e, value (copyFile src dest w) = Throw e.
Proof.
  intros Hsrc. unfold copyFile, ensureDir, bind, await, mkdir, fs_copyFile, value.
  simpl. rewrite Hsrc. eauto.
Qed.

Lemma last_char_of_join (dir name : string) (c : ascii) (rest : string) :
  last_char (path_join dir (name +:+ String c rest)) = last_char (String c rest).
Proof.
  unfold path_join. rewrite <- !append_assoc. apply last_char_app.
Qed.

(** The paths under which the test cases are stored are pairwise distinct. *)
Lemma numbered_path_inj (dir : string) (k k' : Z) (ext ext' : string) :
  (ext = ".in" \/ ext = ".ans") -> (ext' = ".in" \/ ext' = ".ans") ->
  path_join dir (Js.dec k +:+ ext) = path_join dir (Js.dec k' +:+ ext') ->
  k = k' /\ ext = ext'.
Proof.
  intros He He' Heq.
  assert (Hext : ext = ext').
  { destruct He as [-> | ->], He' as [-> | ->]; try reflexivity;
      apply (f_equal last_char) in Heq;
      rewrite (last_char_of_join dir (Js.dec k)),
        (last_char_of_join dir (Js.dec k')) in Heq; discriminate. }
  subst ext'. split; [|reflexivity].
  unfold path_join in Heq. apply String.app_inj in Heq. apply String.app_inj in Heq.
  apply append_inv_tail in Heq. apply dec_inj, Heq.
Qed.

End CopyFiles.

Section CopyCases.
Context {setter : Setter}.
Variables (dataDir tarDir : string).

Let testdata : string := path_join tarDir "testdata".

(** The copy loop: the [j]-th case is stored under the number [i + j + 1],
    the numbers up to [i] and the files outside [testdata] are left alone. *)
Lemma copy_cases_run (cases : list test_pair) :
  forall (i : Z) (w0 w : world),
    (forall c, c ∈ cases ->
       is_Some (fs_files w0 !! path_join dataDir (pair_input c)) /\
       is_Some (fs_files w0 !! path_join dataDir (pair_output c))) ->
    (forall c, c ∈ cases ->
       fs_files w !! path_join dataDir (pair_input c)
         = fs_files w0 !! path_join dataDir (pair_input c) /\
       fs_files w !! path_join dataDir (pair_output c)
         = fs_files w0 !! path_join dataDir (pair_output c)) ->
    (forall c name, c ∈ cases ->
       path_join dataDir (pair_input c) <> path_join testdata name /\
       path_join dataDir (pair_output c) <> path_join testdata name) ->
    let run := copy_cases dataDir testdata cases i w in
    value run = Ok tt /\
    (forall (j : nat) c, cases !! j = Some c ->
       fs_files (after run) !! path_join testdata (Js.dec (i + Z.of_nat j + 1) +:+ ".in")
         = fs_files w0 !! path_join dataDir (pair_input c) /\
       fs_files (after run) !! path_join testdata (Js.dec (i + Z.of_nat j + 1) +:+ ".ans")
         = fs_files w0 !! path_join dataDir (pair_output c)) /\
    (forall k ext, k <= i -> ext = ".in" \/ ext = ".ans" ->
       fs_files (after run) !! path_join testdata (Js.dec k +:+ ext)
         = fs_files w !! path_join testdata (Js.dec k +:+ ext)) /\
    (forall p, (forall name, p <> path_join testdata name) ->
       fs_files (after run) !! p = fs_files w !! p).
Proof.
  induction cases as [|c cases IH]; intros i w0 w Hsrc Hkept Hsep run.
  - subst run. simpl. unfold ret, value, after. simpl.
    split; [reflexivity|]. split; [|split]; [|reflexivity|reflexivity].
    intros j c Hj. rewrite lookup_nil in Hj. discriminate.
  - assert (Hc : c ∈ c :: cases) by (apply elem_of_cons; auto).
    destruct (Hsrc c Hc) as [[din Hin0] [dout Hout0]].
    destruct (Hkept c Hc) as [Hin Hout]. rewrite Hin0 in Hin. rewrite Hout0 in Hout.
    set (pin := path_join testdata (Js.dec (i + 1) +:+ ".in")).
    set (pout := path_join testdata (Js.dec (i + 1) +:+ ".ans")).
    destruct (copyFile_run _ pin din w Hin) as [Hv1 Ha1].
    set (w1 := after (copyFile (path_join dataDir (pair_input c)) pin w)) in *.
    assert (Hout1 : fs_files w1 !! path_join dataDir (pair_output c) = Some dout).
    { rewrite Ha1, lookup_insert_ne; [exact Hout|].
      apply not_eq_sym. apply (Hsep c _ Hc). }
    destruct (copyFile_run _ pout dout w1 Hout1) as [Hv2 Ha2].
    set (w2 := after (copyFile (path_join dataDir (pair_output c)) pout w1)) in *.
    assert (Hfiles2 : fs_files w2 = <[pout := dout]> (<[pin := din]> (fs_files w))).
    { rewrite Ha2, Ha1. reflexivity. }
    assert (Hne : pin <> pout).
    { intros Heq. apply numbered_path_inj in Heq as [_ Heq]; auto. discriminate. }
    specialize (IH (i + 1) w0 w2).
    destruct IH as (IHv & IHj & IHk & IHp).
    { intros c' Hc'. apply Hsrc, elem_of_cons. auto. }
    { intros c' Hc'. assert (Hc'' : c' ∈ c :: cases) by (apply elem_of_cons; auto).
      destruct (Hkept c' Hc'') as [H1 H2]. rewrite <- H1, <- H2, Hfiles2.
      split; rewrite !lookup_insert_ne;
        try reflexivity; apply not_eq_sym; apply (Hsep c' _ Hc''). }
    { intros c' name Hc'. apply Hsep, elem_of_cons. auto. }
    assert (Hrun : value run = value (copy_cases dataDir testdata cases (i + 1) w2) /\
                   after run = after (copy_cases dataDir testdata cases (i + 1) w2)).
    { subst run. cbn [copy_cases]. fold pin pout.
      rewrite (value_bind _ _ _ _ Hv1), (after_bind _ _ _ _ Hv1). fold w1.
      rewrite (value_bind _ _ _ _ Hv2), (after_bind _ _ _ _ Hv2). fold w2.
      split; reflexivity. }
    destruct Hrun as [Hrv Hra]. rewrite Hrv, Hra.
    split; [exact IHv|]. split; [|split].
    + intros [|j] c' Hj.
      * simpl in Hj. inversion Hj; subst c'.
        replace (i + Z.of_nat 0 + 1) with (i + 1) by lia. fold pin pout.
        unfold pin, pout.
        rewrite (IHk (i + 1) ".in"), (IHk (i + 1) ".ans") by (auto; lia).
        fold pin pout. rewrite Hfiles2, Hin0, Hout0.
        rewrite lookup_insert_ne by (apply not_eq_sym, Hne).
        rewrite !lookup_insert_eq. split; reflexivity.
      * simpl in Hj. specialize (IHj j c' Hj).
        replace (i + Z.of_nat (S j) + 1) with (i + 1 + Z.of_nat j + 1) by lia.
        exact IHj.
    + intros k ext Hk Hext. rewrite (IHk k ext) by (auto; lia).
      rewrite Hfiles2, !lookup_insert_ne; [reflexivity| |].
      * intros Heq. apply numbered_path_inj in Heq as [Heq _]; auto. lia.
      * intros Heq. apply numbered_path_inj in Heq as [Heq _]; auto. lia.
    + intros p Hp. rewrite (IHp p Hp), Hfiles2, !lookup_insert_ne;
        [reflexivity| |]; apply not_eq_sym, Hp.
Qed.

End CopyCases.

Section FreeMode.
Context {setter : Setter}.
Variables (dataDir tarDir : string).

Lemma first_existing_run (names : list string) (w : world) :
  after (first_existing dataDir names w) = w /\
  exists r, value (first_existing dataDir names w) = Ok r /\
            match r with Some s => s ∈ names | None => True end.
Proof.
  induction names as [|fname names (IHa & r & IHv & IHr)]; cbn [first_existing].
  - split; [reflexivity|]. exists None. split; [reflexivity|exact I].
  - set (found := bool_decide (is_Some (fs_files w !! path_join dataDir fname))).
    assert (Hf : value (await (fileExists (path_join dataDir fname)) w) = Ok found)
      by reflexivity.
    rewrite (value_bind _ _ _ _ Hf), (after_bind _ _ _ _ Hf).
    change (after (await (fileExists (path_join dataDir fname)) w)) with w.
    destruct found.
    + split; [reflexivity|]. exists (Some fname). split; [reflexivity|].
      apply elem_of_cons. auto.
    + split; [exact IHa|]. exists r. split; [exact IHv|].
      destruct r; [apply elem_of_cons; auto|exact I].
Qed.

Lemma first_existing_value (names : list string) (w : world) :
  value (first_existing dataDir names w) = Ok (first_present dataDir w names).
Proof.
  induction names as [|fname names IH]; cbn [first_existing]; [reflexivity|].
  unfold first_present. cbn [List.find].
  set (found := bool_decide (is_Some (fs_files w !! path_join dataDir fname))).
  assert (Hf : value (await (fileExists (path_join dataDir fname)) w) = Ok found)
    by reflexivity.
  rewrite (value_bind _ _ _ _ Hf).
  change (after (await (fileExists (path_join dataDir fname)) w)) with w.
  destruct found; [reflexivity|exact IH].
Qed.

Lemma copy_others_run (names : list string) (w : world) :
  value (copy_others dataDir tarDir names w) = Ok tt /\
  (forall p, (forall file, file ∈ names -> p <> path_join tarDir file) ->
     fs_files (after (copy_others dataDir tarDir names w)) !! p = fs_files w !! p).
Proof.
  revert w. induction names as [|file names IH]; intros w; cbn [copy_others].
  - split; reflexivity.
  - set (src := path_join dataDir file).
    set (found := bool_decide (is_Some (fs_files w !! src))).
    assert (Hf : value (await (fileExists src) w) = Ok found) by reflexivity.
    rewrite (value_bind _ _ _ _ Hf), (after_bind _ _ _ _ Hf).
    change (after (await (fileExists src) w)) with w.
    set (copy := if found then copyFile src (path_join tarDir file) else ret tt).
    assert (Hcopy : value (copy w) = Ok tt /\
                    forall p, p <> path_join tarDir file ->
                              fs_files (after (copy w)) !! p = fs_files w !! p).
    { subst copy found. destruct (bool_decide _) eqn:Hd.
      - apply bool_decide_eq_true in Hd as [data Hdata].
        destruct (copyFile_run src (path_join tarDir file) data w Hdata) as [Hv Ha].
        split; [exact Hv|]. intros p Hp. rewrite Ha. apply lookup_insert_ne.
        apply not_eq_sym, Hp.
      - split; reflexivity. }
    destruct Hcopy as [Hcv Hca].
    rewrite (value_bind _ _ _ _ Hcv), (after_bind _ _ _ _ Hcv).
    destruct (IH (after (copy w))) as [IHv IHp].
    split; [exact IHv|]. intros p Hp. rewrite IHp.
    + apply Hca, Hp, elem_of_cons. auto.
    + intros f Hf'. apply Hp, elem_of_cons. auto.
Qed.

Lemma limits_run (w : world) :
  let confPath := path_join dataDir "problem.conf" in
  let m := if bool_decide (is_Some (fs_files w !! confPath))
           then bind (parseProblemConf confPath) (fun conf => ret (free_limits conf))
           else ret ("2s", "512m", "default") in
  value (m w) = Ok (limits_at dataDir w) /\ after (m w) = w.
Proof.
  intros confPath m. subst m. unfold limits_at. fold confPath.
  destruct (fs_files w !! confPath) as [content|] eqn:Hconf.
  - rewrite bool_decide_true by eauto.
    unfold parseProblemConf, bind, await, readFile, ret, value, after.
    rewrite Hconf. split; reflexivity.
  - rewrite bool_decide_false by (intros [? ?]; discriminate).
    split; reflexivity.
Qed.

End FreeMode.

Section GeneratedConfig.
Context {E : Engine}.

Local Arguments Js.dec : simpl never.
Local Arguments seqZ : simpl never.
Local Arguments ProblemConfig.generated_cases : simpl never.

Lemma generated_numbered (n : nat) (timeLimit memoryLimit : string) :
  ProblemConfig.generated_cases 0 (VNum (Int (Z.of_nat n))) (VNum (Int 1))
    (VStr "") (VStr ".in") (VStr "") (VStr ".ans") (VStr timeLimit) (VStr memoryLimit)
  = numbered_cases n timeLimit memoryLimit.
Proof.
  unfold ProblemConfig.generated_cases, numbered_cases, loop_count.
  cbn [ToNumber]. rewrite Nat2Z.id.
  change (seqZ 1 (Z.of_nat n)) with (seqZ (1 + 0) (Z.of_nat n)).
  rewrite <- (fmap_add_seqZ 1 0 (Z.of_nat n)).
  change (Z.add 1 <$> seqZ 0 (Z.of_nat n)) with (map (Z.add 1) (seqZ 0 (Z.of_nat n))).
  rewrite map_map. apply map_ext. intros k. reflexivity.
Qed.

(** The loader on a parsed configuration with the fields of the one that
    [setFreeMode] generates. *)
Lemma free_config_loads (dir : string) (loaded : jsval)
    (mode timeLimit memoryLimit : string)
    (checker_name interactor_name : option string) (n : nat) :
  let config := free_config mode timeLimit memoryLimit checker_name interactor_name n in
  (forall key, Js.get loaded key = Js.get config key) ->
  mode = "default" \/ mode = "interactive" ->
  timeLimit <> "" -> memoryLimit <> "" ->
  exists p : problem,
    ProblemConfig.checkConfig loaded = Ok loaded /\
    ProblemConfig.loadByType dir loaded = Ok p /\
    pdir p = dir /\
    p_cases p = numbered_cases n timeLimit memoryLimit /\
    checker p = Js.or (opt_name checker_name) (VStr "chk.cc").
Proof.
  intros config Hext Hmode Ht Hm.
  assert (Hprop : forall key, prop loaded key = prop config key).
  { intros key. unfold prop. rewrite Hext. reflexivity. }
  apply String.eqb_neq in Ht. apply String.eqb_neq in Hm.
  unfold ProblemConfig.checkConfig, ProblemConfig.loadByType,
    ProblemConfig.loadClassic, ProblemConfig.loadInteractive,
    ProblemConfig.loadSubtasks, obind.
  rewrite !Hprop. subst config.
  destruct Hmode as [-> | ->].
  - eexists. split; [reflexivity|]. split; [|split; [|split]].
    + unfold prop, free_config.
      simpl. unfold Js.or. simpl. rewrite Ht, Hm. simpl.
      rewrite generated_numbered. reflexivity.
    + reflexivity.
    + reflexivity.
    + reflexivity.
  - eexists. split; [reflexivity|]. split; [|split; [|split]].
    + unfold prop, free_config.
      simpl. unfold Js.or. simpl. rewrite Ht, Hm. simpl.
      rewrite generated_numbered. reflexivity.
    + reflexivity.
    + reflexivity.
    + reflexivity.
Qed.

End GeneratedConfig.

Lemma free_limits_shape (conf : gmap string string) :
  (free_limits conf).1.1 <> "" /\ (free_limits conf).1.2 <> "" /\
  ((free_limits conf).2 = "default" \/ (free_limits conf).2 = "interactive").
Proof.
  assert (Hne : forall a b : string, b <> "" -> a +:+ b <> "").
  { intros a b Hb Heq. apply (f_equal String.length) in Heq.
    rewrite length_append in Heq. destruct b; [congruence|simpl in Heq; lia]. }
  unfold free_limits. simpl. split; [|split].
  - destruct (conf_or _ _); [apply Hne|]; discriminate.
  - destruct (conf_or _ _); [apply Hne|]; discriminate.
  - destruct (conf !! "interaction_mode") as [v|]; [|auto].
    destruct (String.eqb v "on"); auto.
Qed.

Lemma limits_at_shape (dataDir : string) (w : world) :
  (limits_at dataDir w).1.1 <> "" /\ (limits_at dataDir w).1.2 <> "" /\
  ((limits_at dataDir w).2 = "default" \/ (limits_at dataDir w).2 = "interactive").
Proof.
  unfold limits_at. destruct (fs_files w !! _); [apply free_limits_shape|].
  simpl. repeat split; try discriminate. auto.
Qed.

Section FreeModeSetup.
Context {E : Engine} {setter : Setter}.
Variables (dataDir tarDir : string).

Lemma candidate_named (names : list string) (s : string) :
  s ∈ names -> Forall (fun x => x <> "") names -> String.eqb s "" = false.
Proof.
  intros Hin Hall. rewrite Forall_forall in Hall. apply String.eqb_neq, Hall, Hin.
Qed.

Lemma config_outside_testdata (name : string) :
  path_join tarDir "config.yaml" <> path_join (path_join tarDir "testdata") name.
Proof.
  unfold path_join. rewrite append_assoc. intros Heq.
  apply String.app_inj in Heq. discriminate.
Qed.

Lemma others_outside_testdata (file name : string) :
  file ∈ ["checker.cpp"; "statement.txt"] ++ checker_candidates ++ interactor_candidates ->
  path_join tarDir file <> path_join (path_join tarDir "testdata") name /\
  path_join tarDir file <> path_join tarDir "config.yaml".
Proof.
  intros Hin. unfold path_join. rewrite append_assoc.
  split; intros Heq; apply String.app_inj in Heq;
    repeat (apply elem_of_cons in Hin as [-> | Hin]; [discriminate|]);
    apply elem_of_nil in Hin; exact Hin.
Qed.

Lemma setFreeMode_run (w : world) (files : list string)
    (timeLimit memoryLimit mode text : string) :
  let checker_name := first_present dataDir w checker_candidates in
  let interactor_name := first_present dataDir w interactor_candidates in
  let cases := pair_files files in
  let testdata := path_join tarDir "testdata" in
  let config := free_config mode timeLimit memoryLimit checker_name interactor_name
                  (length cases) in
  limits_at dataDir w = (timeLimit, memoryLimit, mode) ->
  (mode = "default" -> checker_name <> None) ->
  (mode = "interactive" -> interactor_name <> None) ->
  readdir dataDir w = Ok files ->
  (forall f, f ∈ files -> is_Some (fs_files w !! path_join dataDir f)) ->
  (forall f name, f ∈ files -> path_join dataDir f <> path_join testdata name) ->
  cases <> [] ->
  YAML_dump config = Ok text ->
  let run := setFreeMode dataDir tarDir w in
  value run = Ok (mkFreeResult "free" tarDir (Z.of_nat (length cases))
                    timeLimit memoryLimit) /\
  fs_files (after run) !! path_join tarDir "config.yaml" = Some text /\
  (forall (j : nat) (c : test_pair),
      cases !! j = Some c ->
      fs_files (after run) !! path_join testdata (Js.dec (Z.of_nat j + 1) +:+ ".in")
        = fs_files w !! path_join dataDir (pair_input c) /\
      fs_files (after run) !! path_join testdata (Js.dec (Z.of_nat j + 1) +:+ ".ans")
        = fs_files w !! path_join dataDir (pair_output c)).
Proof.
  intros checker_name interactor_name cases testdata config
    Hlim Hneed_chk Hneed_int Hdir Hexist Hsep Hcases Hdump run.
  pose proof (first_existing_value dataDir checker_candidates w) as Hchk.
  pose proof (first_existing_value dataDir interactor_candidates w) as Hint.
  fold checker_name in Hchk. fold interactor_name in Hint.
  clearbody checker_name interactor_name.
  destruct (limits_at_shape dataDir w) as (_ & _ & Hmode).
  rewrite Hlim in Hmode. simpl in Hmode.
  (* the checks *)
  destruct (limits_run dataDir w) as [Hlv Hla]. rewrite Hlim in Hlv.
  destruct (first_existing_run dataDir checker_candidates w) as (Hca & rc & Hcv & Hcm).
  rewrite Hchk in Hcv. inversion Hcv; subst rc. clear Hcv.
  destruct (first_existing_run dataDir interactor_candidates w) as (Hia & ri & Hiv & Him).
  rewrite Hint in Hiv. inversion Hiv; subst ri. clear Hiv.
  assert (Hchk_ok : (match checker_name with None => true | Some s => String.eqb s "" end
                     && String.eqb mode "default") = false).
  { destruct checker_name as [s|].
    - rewrite (candidate_named checker_candidates s Hcm); [reflexivity|].
      repeat constructor; discriminate.
    - destruct Hmode as [Hd|Hi]; [specialize (Hneed_chk Hd); congruence|].
      rewrite Hi. reflexivity. }
  assert (Hint_ok : (String.eqb mode "interactive"
                     && match interactor_name with None => true | Some s => String.eqb s "" end)
                    = false).
  { destruct interactor_name as [s|].
    - rewrite (candidate_named interactor_candidates s Him); [apply andb_false_r|].
      repeat constructor; discriminate.
    - destruct Hmode as [Hd|Hi]; [rewrite Hd; reflexivity|].
      specialize (Hneed_int Hi). congruence. }
  assert (Hfind : value (findTestCases dataDir w) = Ok cases /\
                  after (findTestCases dataDir w) = w).
  { unfold findTestCases, bind, await, ret, value, after. rewrite Hdir. split; reflexivity. }
  destruct Hfind as [Hfv Hfa].
  assert (Hlen : (length cases =? 0)%nat = false).
  { apply Nat.eqb_neq. destruct cases; [congruence|discriminate]. }
  (* the copies *)
  set (w1 := after (ensureDir testdata w)).
  assert (Hw1 : fs_files w1 = fs_files w) by reflexivity.
  assert (Hin_files : forall c, c ∈ cases -> pair_input c ∈ files /\ pair_output c ∈ files).
  { intros c Hc. apply pair_files_elem in Hc as (_ & Hi & Ho). split; [exact Hi|].
    apply answer_of_last in Ho as (_ & b & l & -> & _).
    apply elem_of_app. right. apply elem_of_cons. auto. }
  destruct (copy_cases_run dataDir tarDir cases 0 w w1) as (Hcpv & Hcpj & _ & Hcpp).
  { intros c Hc. destruct (Hin_files c Hc). split; apply Hexist; assumption. }
  { intros c Hc. rewrite Hw1. split; reflexivity. }
  { intros c name Hc. destruct (Hin_files c Hc). split; apply Hsep; assumption. }
  fold testdata in Hcpv, Hcpj, Hcpp.
  set (w2 := after (copy_cases dataDir testdata cases 0 w1)) in *.
  set (configPath := path_join tarDir "config.yaml").
  set (w3 := set_files (insert configPath text) w2).
  set (others := defined_names [Some "checker.cpp"; Some "statement.txt";
                                checker_name; interactor_name]).
  assert (Hothers : forall file, file ∈ others ->
             file ∈ ["checker.cpp"; "statement.txt"] ++ checker_candidates
                    ++ interactor_candidates).
  { intros file Hfile. subst others. unfold defined_names in Hfile.
    apply list_elem_of_omap in Hfile as (x & Hx & Hsome).
    destruct x as [s|]; [|discriminate].
    destruct (String.eqb s ""); [discriminate|]. inversion Hsome; subst s.
    repeat (apply elem_of_cons in Hx as [Hx|Hx]).
    - inversion Hx. apply elem_of_cons. auto.
    - inversion Hx. apply elem_of_cons. right. apply elem_of_cons. auto.
    - subst checker_name. apply elem_of_app. right.
      apply elem_of_app. left. exact Hcm.
    - subst interactor_name. apply elem_of_app. right.
      apply elem_of_app. right. exact Him.
    - apply elem_of_nil in Hx. contradiction. }
  destruct (copy_others_run dataDir tarDir others w3) as [Hov Hop].
  set (w4 := after (copy_others dataDir tarDir others w3)) in *.
  (* the run *)
  assert (Hrun : value run = Ok (mkFreeResult "free" tarDir (Z.of_nat (length cases))
                                   timeLimit memoryLimit) /\
                 after run = w4).
  { subst run. unfold setFreeMode.
    assert (Hf : value (await (fileExists (path_join dataDir "problem.conf")) w)
                 = Ok (bool_decide (is_Some (fs_files w !! path_join dataDir "problem.conf"))))
      by reflexivity.
    rewrite (value_bind _ _ _ _ Hf), (after_bind _ _ _ _ Hf).
    change (after (await (fileExists (path_join dataDir "problem.conf")) w)) with w.
    rewrite (value_bind _ _ _ _ Hlv), (after_bind _ _ _ _ Hlv), Hla.
    cbv beta iota.
    rewrite (value_bind _ _ _ _ Hchk), (after_bind _ _ _ _ Hchk), Hca.
    rewrite Hchk_ok.
    rewrite (value_bind _ _ _ tt) by reflexivity.
    rewrite (after_bind _ _ _ tt) by reflexivity.
    change (after (ret tt w)) with w.
    rewrite (value_bind _ _ _ _ Hint), (after_bind _ _ _ _ Hint), Hia.
    rewrite Hint_ok.
    rewrite (value_bind _ _ _ tt) by reflexivity.
    rewrite (after_bind _ _ _ tt) by reflexivity.
    change (after (ret tt w)) with w.
    rewrite (value_bind _ _ _ _ Hfv), (after_bind _ _ _ _ Hfv), Hfa.
    rewrite Hlen.
    rewrite (value_bind _ _ _ tt) by reflexivity.
    rewrite (after_bind _ _ _ tt) by reflexivity.
    change (after (ret tt w)) with w.
    rewrite (value_bind _ _ _ tt) by reflexivity.
    rewrite (after_bind _ _ _ tt) by reflexivity.
    fold testdata w1.
    rewrite (value_bind _ _ _ _ Hcpv), (after_bind _ _ _ _ Hcpv). fold w2.
    fold config.
    assert (Hd : value (lift (YAML_dump config) w2) = Ok text)
      by (unfold lift, value; simpl; rewrite Hdump; reflexivity).
    rewrite (value_bind _ _ _ _ Hd), (after_bind _ _ _ _ Hd).
    change (after (lift (YAML_dump config) w2)) with w2.
    fold configPath.
    rewrite (value_bind _ _ _ tt) by reflexivity.
    rewrite (after_bind _ _ _ tt) by reflexivity.
    change (after (await (writeFile configPath (VStr text)) w2)) with w3.
    fold others.
    rewrite (value_bind _ _ _ _ Hov), (after_bind _ _ _ _ Hov). fold w4.
    split; reflexivity. }
  destruct Hrun as [Hrv Hra]. rewrite Hrv, Hra.
  assert (Hcfg : fs_files w4 !! configPath = Some text).
  { unfold w4. rewrite Hop.
    - unfold w3. simpl. apply lookup_insert_eq.
    - intros file Hfile. apply not_eq_sym.
      apply (others_outside_testdata file "" (Hothers file Hfile)). }
  split; [reflexivity|]. split; [exact Hcfg|].
  intros j c Hj. destruct (Hcpj j c Hj) as [Hi Ho].
  replace (0 + Z.of_nat j + 1) with (Z.of_nat j + 1) in Hi, Ho by lia.
  rewrite <- Hi, <- Ho. unfold w4.
  rewrite !Hop by (intros file Hfile; apply not_eq_sym;
                   apply (others_outside_testdata file _ (Hothers file Hfile))).
  unfold w3. simpl.
  rewrite !lookup_insert_ne by (apply config_outside_testdata).
  split; reflexivity.
Qed.

(** The loader on a directory whose [config.yaml] parses to the fields of a
    configuration that [setFreeMode] generates. *)
Lemma generated_config_loads (w : world) (text : string) (loaded : jsval)
    (mode timeLimit memoryLimit : string)
    (checker_name interactor_name : option string) (n : nat) :
  let config := free_config mode timeLimit memoryLimit checker_name interactor_name n in
  mode = "default" \/ mode = "interactive" ->
  timeLimit <> "" -> memoryLimit <> "" ->
  fs_files w !! path_join tarDir "config.yaml" = Some text ->
  YAML_load text = Ok loaded ->
  (forall key, Js.get loaded key = Js.get config key) ->
  exists p : problem,
    value (ProblemConfig.loadProblem tarDir w) = Ok p /\
    pdir p = tarDir /\
    p_cases p = numbered_cases n timeLimit memoryLimit /\
    checker p = Js.or (opt_name checker_name) (VStr "chk.cc").
Proof.
  intros config Hmode Htl Hml Hcfg Hload Hext.
  destruct (free_config_loads tarDir loaded mode timeLimit memoryLimit checker_name
              interactor_name n Hext Hmode Htl Hml) as (p & Hcheck & Hp & Hrest).
  exists p. split; [|exact Hrest].
  unfold ProblemConfig.loadProblem, ProblemConfig.loadConfig.
  set (configPath := path_join tarDir "config.yaml") in *.
  assert (Hread : value (try_catch
                           (let* txt := await (readFile configPath) in lift (YAML_load txt))
                           (fun error => throw (Error_ ("Failed to load config: "
                                                        +:+ message error))) w)
                  = Ok loaded).
  { unfold try_catch, bind, await, readFile, lift, value. rewrite Hcfg. simpl.
    rewrite Hload. reflexivity. }
  rewrite (value_bind _ _ _ loaded).
  - unfold lift, value. simpl. exact Hp.
  - rewrite (value_bind _ _ _ _ Hread).
    unfold lift, value. rewrite Hcheck. reflexivity.
Qed.




End FreeModeSetup.



